(** * house-of-cards: tree diagrams to directory trees

    A shallow embedding of the two command line variants of the
    repository, [hoc/cli.py] and [dircreator/cli.py], and of the part of
    the Python runtime they call ([str] methods, [re], [posixpath], [os]).

    Python strings are sequences of Unicode code points, so a [str] is a
    list of code points ([N]).  [TreeNode] objects are mutable and shared
    between the ancestor stack, the roots and the children lists, so they
    live in a heap and are referred to by address. *)

From Stdlib Require Import NArith List String Ascii Lia.
From stdpp Require Import base option list gmap.

Local Open Scope N_scope.

(** ** Python [str] *)

Module Py.

Abbreviation char := N.
Abbreviation str := (list N).

Definition NL : char := 10.
Definition TAB : char := 9.
Definition SP : char := 32.
Definition SLASH : char := 47.
Definition DOT : char := 46.

(** [str.isspace] on one code point: what [str.strip()] removes. *)
Definition isspace (c : char) : bool :=
  (bool_decide (0x09 ≤ c) && bool_decide (c ≤ 0x0D))
  || (bool_decide (0x1C ≤ c) && bool_decide (c ≤ 0x20))
  || bool_decide (c = 0x85) || bool_decide (c = 0xA0)
  || bool_decide (c = 0x1680)
  || (bool_decide (0x2000 ≤ c) && bool_decide (c ≤ 0x200A))
  || bool_decide (c = 0x2028) || bool_decide (c = 0x2029)
  || bool_decide (c = 0x202F) || bool_decide (c = 0x205F)
  || bool_decide (c = 0x3000).

Fixpoint lstrip (s : str) : str :=
  match s with
  | [] => []
  | c :: s' => if isspace c then lstrip s' else s
  end.

Definition rstrip (s : str) : str := rev (lstrip (rev s)).

(** [s.strip()] *)
Definition strip (s : str) : str := rstrip (lstrip s).

(** Truth value of [s.strip()]: a string is true when it is not empty. *)
Definition truthy (s : str) : bool :=
  match s with [] => false | _ => true end.

(** [s.split(sep)] for a separator of one code point. *)
Fixpoint split (sep : char) (s : str) : list str :=
  match s with
  | [] => [[]]
  | c :: s' =>
      if bool_decide (c = sep) then [] :: split sep s'
      else match split sep s' with
           | l :: ls => (c :: l) :: ls
           | [] => [[c]]
           end
  end.

(** [s.replace(old, new)] for [old] of one code point. *)
Fixpoint replace (old : char) (new : str) (s : str) : str :=
  match s with
  | [] => []
  | c :: s' =>
      (if bool_decide (c = old) then new else [c]) ++ replace old new s'
  end.

(** [s.startswith(p)] *)
Fixpoint startswith (s p : str) {struct p} : bool :=
  match p, s with
  | [], _ => true
  | _ :: _, [] => false
  | a :: p', c :: s' => bool_decide (c = a) && startswith s' p'
  end.

(** [s.endswith(p)] *)
Definition endswith (s p : str) : bool := startswith (rev s) (rev p).

(** Source literals: the code points of a UTF-8 encoded literal. *)
Fixpoint utf8_decode (bs : list N) : str :=
  match bs with
  | [] => []
  | b :: r =>
      if b <? 0x80 then b :: utf8_decode r
      else if b <? 0xE0 then
        match r with
        | b1 :: r1 => ((b - 0xC0) * 64 + (b1 - 0x80)) :: utf8_decode r1
        | _ => []
        end
      else if b <? 0xF0 then
        match r with
        | b1 :: b2 :: r2 =>
            ((b - 0xE0) * 4096 + (b1 - 0x80) * 64 + (b2 - 0x80))
              :: utf8_decode r2
        | _ => []
        end
      else
        match r with
        | b1 :: b2 :: b3 :: r3 =>
            ((b - 0xF0) * 262144 + (b1 - 0x80) * 4096
             + (b2 - 0x80) * 64 + (b3 - 0x80)) :: utf8_decode r3
        | _ => []
        end
  end.

Definition lit (s : string) : str :=
  utf8_decode (map N_of_ascii (list_ascii_of_string s)).

End Py.

Definition U (s : string) : Py.str := Py.lit s.
Arguments U s%_string.

(** The box-drawing glyphs of a tree diagram. *)
Definition VBAR : N := 0x2502.  (* │ *)
Definition TEE : N := 0x251C.   (* ├ *)
Definition ELL : N := 0x2514.   (* └ *)
Definition DASH : N := 0x2500.  (* ─ *)

(** ** [posixpath] *)

Module PosixPath.
Import Py.

(** One step of [os.path.join(a, *p)]: an absolute component replaces
    what was joined so far; a separator is inserted unless the path is
    empty or already ends with one. *)
Definition join2 (path b : str) : str :=
  if startswith b [SLASH] then b
  else if negb (truthy path) || endswith path [SLASH] then path ++ b
  else path ++ [SLASH] ++ b.

Definition join (a : str) (p : list str) : str := fold_left join2 p a.

(** [s.rstrip("/")] *)
Fixpoint lstrip_sep (s : str) : str :=
  match s with
  | [] => []
  | c :: s' => if bool_decide (c = SLASH) then lstrip_sep s' else s
  end.
Definition rstrip_sep (s : str) : str := rev (lstrip_sep (rev s)).

(** [p[:p.rfind("/") + 1]]: up to and including the last separator. *)
Fixpoint drop_to_sep (r : str) : str :=
  match r with
  | [] => []
  | c :: r' => if bool_decide (c = SLASH) then r else drop_to_sep r'
  end.
Definition head_of (p : str) : str := rev (drop_to_sep (rev p)).

(** [p[p.rfind("/") + 1:]]: what follows the last separator. *)
Fixpoint take_to_sep (r : str) : str :=
  match r with
  | [] => []
  | c :: r' => if bool_decide (c = SLASH) then [] else c :: take_to_sep r'
  end.
Definition basename (p : str) : str := rev (take_to_sep (rev p)).

(** [os.path.dirname(p)] *)
Definition dirname (p : str) : str :=
  let head := head_of p in
  if truthy head && truthy (lstrip_sep head) then rstrip_sep head
  else head.

(** [os.path.splitext(p)[1]]: the extension starts at the last dot of
    the last component, unless only dots precede it there. *)
Fixpoint take_to_dot (r : str) : str :=
  match r with
  | [] => []
  | c :: r' => if bool_decide (c = DOT) then [] else c :: take_to_dot r'
  end.
Fixpoint drop_to_dot (r : str) : option str :=
  match r with
  | [] => None
  | c :: r' => if bool_decide (c = DOT) then Some r' else drop_to_dot r'
  end.
Definition splitext_ext (p : str) : str :=
  let b := basename p in
  match drop_to_dot (rev b) with
  | None => []
  | Some before =>
      if forallb (λ c, bool_decide (c = DOT)) before then []
      else DOT :: rev (take_to_dot (rev b))
  end.

End PosixPath.

(** ** Exceptions *)

(** The three [ValueError]s that [hoc]'s parser raises. *)
Inductive parse_error :=
| EmptyInput
| InvalidLineFormat (line : Py.str)
| InconsistentIndentation (line : Py.str).

(** The text of the exception, as the f-strings of the source build it. *)
Definition parse_error_message (e : parse_error) : Py.str :=
  match e with
  | EmptyInput => U "The input tree structure is empty."
  | InvalidLineFormat line => U "Invalid line format: '" ++ line ++ U "'"
  | InconsistentIndentation line =>
      U "Inconsistent indentation at line: '" ++ line ++ U "'"
  end.

Inductive errno := EEXIST | ENOENT | ENOTDIR | EISDIR.

Inductive exn :=
| ValueError (e : parse_error)
| ValueErrorMsg (msg : Py.str)   (* other [ValueError]s, by message *)
| IndexError
| TypeError
| OSError (e : errno) (path : Py.str)
| SystemExit (code : N)
| Unmodelled.                     (* a path outside the file system model *)

Inductive result (A : Type) :=
| Ok (a : A)
| Raise (e : exn).
Arguments Ok {A} a.
Arguments Raise {A} e.

Global Instance result_ret : MRet result := @Ok.
Global Instance result_bind : MBind result := λ A B f m,
  match m with
  | Ok a => f a
  | Raise e => Raise e
  end.

(** ** The operating system

    The file system is a finite map from resolved paths (the list of
    their components from the root) to entries.  It has directories and
    regular files only: no symbolic links and no access control, and
    the world is expected to hold the root and the working directory. *)

Module OS.
Import Py.

Inductive entry :=
| Dir (mode : N)
| File (mode : N) (content : list N).

Abbreviation key := (list (list N)).

(** What the program prints, one constructor per [print] call of the
    sources; the f-string of each is given where it is used. *)
Inductive output :=
| PermissionsError (full_path : str) (e : exn)
| BaseDirError (path : str) (e : exn)
| NotADirectory (path : str)
| ReadingInputError (e : exn)
| ReadingInputFileError (e : exn)
| StructureCreated (path : str)
| ParsingError (e : exn)
| UnexpectedError (e : exn)
| CheckTheInput
| CouldNotBeParsed.

Record world := {
  fs : gmap (list (list N)) entry;
  cwd : key;
  umask : N;
  stdout : list output
}.

Definition set_fs (w : world) (m : gmap (list (list N)) entry) : world :=
  {| fs := m; cwd := cwd w; umask := umask w; stdout := stdout w |}.

(** Computations that change the world and may raise. *)
Definition M (A : Type) : Type := world → result A * world.

Definition ret {A} (a : A) : M A := λ w, (Ok a, w).
Definition raise {A} (e : exn) : M A := λ w, (Raise e, w).
Definition bind {A B} (m : M A) (f : A → M B) : M B := λ w,
  match m w with
  | (Ok a, w') => f a w'
  | (Raise e, w') => (Raise e, w')
  end.

(** [for x in xs: body(x)] *)
Fixpoint for_each {A} (xs : list A) (body : A → M unit) : M unit :=
  match xs with
  | [] => ret tt
  | x :: xs' => bind (body x) (λ _, for_each xs' body)
  end.

(** [print(msg)] *)
Definition print (msg : output) : M unit := λ w,
  (Ok tt, {| fs := fs w; cwd := cwd w; umask := umask w;
             stdout := stdout w ++ [msg] |}).

(** [sys.exit(code)] *)
Definition sys_exit {A} (code : N) : M A := raise (SystemExit code).

(** *** Path resolution

    Empty components and [.] are dropped; a path with a [..] component
    is outside the model.  A path with a trailing separator or a final
    [.] names a directory. *)

Definition DOTDOT : str := [DOT; DOT].

Definition components (p : str) : list str :=
  filter (λ c, c ≠ [] ∧ c ≠ [DOT]) (split SLASH p).

Definition names_dir (p : str) : bool :=
  match last (split SLASH p) with
  | Some c => bool_decide (c = [] ∨ c = [DOT])
  | None => true
  end.

Definition resolve (w : world) (p : str) : result key :=
  if bool_decide (0 ∈ p) then
    Raise (ValueErrorMsg (U "embedded null byte"))
  else if negb (truthy p) then Raise (OSError ENOENT p)
  else if bool_decide (DOTDOT ∈ split SLASH p) then Raise Unmodelled
  else Ok ((if startswith p [SLASH] then [] else cwd w) ++ components p).

(** An octal numeral of three digits, as in [0o755]. *)
Definition oct (a b c : N) : N := a * 64 + b * 8 + c.

(** All twelve permission bits, [0o7777]. *)
Definition mode_bits : N := 4095.

Definition default_dir_mode (w : world) : N := N.ldiff (oct 7 7 7) (umask w).
Definition default_file_mode (w : world) : N := N.ldiff (oct 6 6 6) (umask w).

(** *** [os.makedirs(p, exist_ok=True)]

    Every missing directory on the way from the root to [p] is made
    with the default mode; directories that exist are left as they are;
    a regular file on the way is an error. *)

Definition ensure_dir (mode : N) (p : str) (last_one : bool) (k : key)
    (m : gmap (list (list N)) entry) : result (gmap (list (list N)) entry) :=
  match m !! k with
  | None => Ok (<[k := Dir mode]> m)
  | Some (Dir _) => Ok m
  | Some (File _ _) => Raise (OSError (if last_one then EEXIST else ENOTDIR) p)
  end.

Fixpoint makedirs_from (mode : N) (p : str) (pre todo : key)
    (m : gmap (list (list N)) entry) : result (gmap (list (list N)) entry) :=
  match todo with
  | [] => ensure_dir mode p true pre m
  | c :: todo' =>
      m' ← ensure_dir mode p false pre m;
      makedirs_from mode p (pre ++ [c]) todo' m'
  end.

Definition makedirs (p : str) : M unit := λ w,
  match resolve w p with
  | Raise e => (Raise e, w)
  | Ok k =>
      match makedirs_from (default_dir_mode w) p [] k (fs w) with
      | Raise e => (Raise e, w)
      | Ok m => (Ok tt, set_fs w m)
      end
  end.

(** *** [with open(p, "w"): pass]

    The directory of [p] must exist; a new file gets the default mode,
    an old one is truncated and keeps its mode. *)
Definition open_w (p : str) : M unit := λ w,
  match resolve w p with
  | Raise e => (Raise e, w)
  | Ok k =>
      if names_dir p then (Raise (OSError EISDIR p), w)
      else
        match fs w !! removelast k with
        | None => (Raise (OSError ENOENT p), w)
        | Some (File _ _) => (Raise (OSError ENOTDIR p), w)
        | Some (Dir _) =>
            match fs w !! k with
            | Some (Dir _) => (Raise (OSError EISDIR p), w)
            | Some (File mode _) =>
                (Ok tt, set_fs w (<[k := File mode []]> (fs w)))
            | None =>
                (Ok tt, set_fs w (<[k := File (default_file_mode w) []]> (fs w)))
            end
        end
  end.

(** *** [os.chmod(p, mode)] *)
Definition chmod (p : str) (mode : N) : M unit := λ w,
  match resolve w p with
  | Raise e => (Raise e, w)
  | Ok k =>
      match fs w !! k with
      | None => (Raise (OSError ENOENT p), w)
      | Some (Dir _) =>
          (Ok tt, set_fs w (<[k := Dir (N.land mode mode_bits)]> (fs w)))
      | Some (File _ content) =>
          if names_dir p then (Raise (OSError ENOTDIR p), w)
          else (Ok tt, set_fs w (<[k := File (N.land mode mode_bits) content]> (fs w)))
      end
  end.

(** *** [os.path.exists(p)] and [os.path.isdir(p)]

    Both answer [False] where the lookup fails. *)
Definition lookup_path (w : world) (p : str) : result (option entry) :=
  match resolve w p with
  | Raise Unmodelled => Raise Unmodelled
  | Raise _ => Ok None
  | Ok k =>
      match fs w !! k with
      | Some (File mode c) =>
          Ok (if names_dir p then None else Some (File mode c))
      | o => Ok o
      end
  end.

Definition path_exists (p : str) : M bool := λ w,
  match lookup_path w p with
  | Raise e => (Raise e, w)
  | Ok o => (Ok (bool_decide (is_Some o)), w)
  end.

Definition path_isdir (p : str) : M bool := λ w,
  match lookup_path w p with
  | Raise e => (Raise e, w)
  | Ok (Some (Dir _)) => (Ok true, w)
  | Ok _ => (Ok false, w)
  end.

(** [try: body except OSError as e: handler(e)] *)
Definition try_except_OSError {A} (body : M A) (handler : exn → M A)
    : M A := λ w,
  match body w with
  | (Raise (OSError e p), w') => handler (OSError e p) w'
  | r => r
  end.

End OS.

Notation "'let*' x ':=' m 'in' k" := (OS.bind m (λ x, k))
  (at level 10, x name, m at level 100, k at level 200,
   format "'[v' 'let*'  x  ':='  m  'in' '/' k ']'").
Notation "m ';;' k" := (OS.bind m (λ _, k))
  (at level 100, k at level 200, right associativity,
   format "'[v' m  ';;' '/' k ']'").

(** ** Pieces of the line patterns that both variants share *)

Module Re.
Import Py.

(** The longest run that [.+] can take: up to the first newline. *)
Fixpoint dot_run (s : str) : str * str :=
  match s with
  | [] => ([], [])
  | c :: s' =>
      if bool_decide (c = NL) then ([], s)
      else let '(t, r) := dot_run s' in (c :: t, r)
  end.

(** The [name] group and the end anchor, which holds at the end and
    before a final newline. *)
Definition name_group (s : str) : option str :=
  let '(t, r) := dot_run s in
  if truthy t && (bool_decide (r = []) || bool_decide (r = [NL]))
  then Some t else None.

(** One alternative of the indent group: four spaces, or the
    continuation glyph and three spaces. *)
Definition is_indent_unit (c1 c2 c3 c4 : char) : bool :=
  bool_decide (c1 = SP ∨ c1 = VBAR) && bool_decide (c2 = SP)
  && bool_decide (c3 = SP) && bool_decide (c4 = SP).

(** The number of whole indentation units that a string starts with. *)
Fixpoint count_units (s : str) : nat :=
  match s with
  | c1 :: c2 :: c3 :: c4 :: rest =>
      if is_indent_unit c1 c2 c3 c4 then S (count_units rest) else 0%nat
  | _ => 0%nat
  end.

End Re.

(** ** [hoc/cli.py] *)

Module Hoc.
Import Py Re.

(** *** class [TreeNode] *)

(** Objects are shared, so a node is known by its address in the heap;
    [parent] and [children] hold addresses. *)
Record TreeNode := {
  name : str;
  parent : option nat;
  children : list nat;
  is_dir : bool;
  full_path : str
}.

Abbreviation heap := (list TreeNode).

(** [self.children.append(child); self.is_dir = True] *)
Definition add_child_obj (child : nat) (self : TreeNode) : TreeNode :=
  {| name := name self;
     parent := parent self;
     children := children self ++ [child];
     is_dir := true;
     full_path := full_path self |}.

Definition add_child (h : heap) (self child : nat) : heap :=
  alter (add_child_obj child) self h.

(** [TreeNode(name, is_dir, parent)]: the new object is allocated at the
    end of the heap; a parent address that holds no object cannot arise
    from Python references and is outside the model. *)
Definition TreeNode_init (h : heap) (name : str) (is_dir : option bool)
    (parent : option nat) : result (heap * nat) :=
  let self := length h in
  match parent with
  | None =>
      Ok (h ++ [{| name := name; parent := None; children := [];
                   is_dir := default false is_dir;
                   full_path := name |}], self)
  | Some p =>
      match h !! p with
      | None => Raise Unmodelled
      | Some pn =>
          let node := {| name := name; parent := Some p; children := [];
                         is_dir := default false is_dir;
                         full_path := PosixPath.join (full_path pn) [name] |} in
          Ok (add_child (h ++ [node]) p self, self)
      end
  end.

(** [node.get_path()] *)
Definition get_path (node : TreeNode) : str := full_path node.

(** *** The line pattern

    The compiled pattern is anchored at both ends and has three named
    groups in sequence: [indent], a greedy repetition of the unit
    (four spaces, or │ and three spaces); an optional non-capturing
    group holding [connector] (├ or └) followed by ── and a space; and
    [name], one or more of any character but a newline. *)

Record re_match := {
  group_indent : str;
  group_connector : option char;
  group_name : str
}.

(** The optional connector group and the name: the group is tried
    first and given up when the name cannot follow it. *)
Definition with_connector (s : str) : option (char * str) :=
  match s with
  | c :: d1 :: d2 :: sp :: rest =>
      if bool_decide (c = TEE ∨ c = ELL) && bool_decide (d1 = DASH)
         && bool_decide (d2 = DASH) && bool_decide (sp = SP)
      then (n ← name_group rest; Some (c, n))
      else None
  | _ => None
  end.

Definition tail_groups (indent s : str) : option re_match :=
  match with_connector s with
  | Some (c, n) =>
      Some {| group_indent := indent; group_connector := Some c;
              group_name := n |}
  | None =>
      (n ← name_group s;
       Some {| group_indent := indent; group_connector := None;
               group_name := n |})
  end.

(** The greedy star: take one more unit when the rest of the pattern
    still matches after it, else stop here. *)
Fixpoint pattern_from (indent s : str) : option re_match :=
  match s with
  | c1 :: c2 :: c3 :: c4 :: rest =>
      if is_indent_unit c1 c2 c3 c4 then
        match pattern_from (indent ++ [c1; c2; c3; c4]) rest with
        | Some m => Some m
        | None => tail_groups indent s
        end
      else tail_groups indent s
  | _ => tail_groups indent s
  end.

(** [pattern.match(line)] *)
Definition pattern_match (line : str) : option re_match :=
  pattern_from [] line.

(** The text of the optional group that holds [connector]. *)
Definition connector_text (m : re_match) : str :=
  match group_connector m with
  | Some c => [c; DASH; DASH; SP]
  | None => []
  end.

(** [len(indent.replace("│", " ")) // 4 + (1 if connector else 0)] *)
Definition depth_of (m : re_match) : nat :=
  (length (replace VBAR [SP] (group_indent m)) / 4
   + (match group_connector m with Some _ => 1 | None => 0 end))%nat.

(** *** [parse_tree_structure] *)

Record pstate := {
  st_heap : heap;
  node_stack : list nat;
  roots : list nat
}.

(** The body of [for line in lines]. *)
Definition parse_line (st : pstate) (line : str) : result pstate :=
  if negb (truthy (strip line)) then Ok st
  else
    match pattern_match line with
    | None => Raise (ValueError (InvalidLineFormat line))
    | Some m =>
        let depth := depth_of m in
        let is_dir := endswith (group_name m) [SLASH] in
        if bool_decide (depth = 0%nat) then
          ('(h, node) ← TreeNode_init (st_heap st) (group_name m)
                          (Some is_dir) None;
           Ok {| st_heap := h; node_stack := [node];
                 roots := roots st ++ [node] |})
        else if bool_decide (length (node_stack st) < depth)%nat then
          Raise (ValueError (InconsistentIndentation line))
        else
          let stack := take depth (node_stack st) in
          match last stack with
          | None => Raise IndexError
          | Some parent_node =>
              ('(h, node) ← TreeNode_init (st_heap st) (group_name m)
                              (Some is_dir) (Some parent_node);
               Ok {| st_heap := h; node_stack := stack ++ [node];
                     roots := roots st |})
          end
    end.

Fixpoint parse_lines (st : pstate) (lines : list str) : result pstate :=
  match lines with
  | [] => Ok st
  | line :: rest => (st' ← parse_line st line; parse_lines st' rest)
  end.

(** [node_stack = []] and [roots = []], with no object allocated yet. *)
Definition init : pstate :=
  {| st_heap := []; node_stack := []; roots := [] |}.

Definition parse_tree_structure (tree_str : str)
    : result (heap * list nat) :=
  let lines := split NL (strip tree_str) in
  if negb (existsb (λ line, truthy (strip line)) lines)
  then Raise (ValueError EmptyInput)
  else
    let lines := map (replace TAB [SP; SP; SP; SP]) lines in
    (st ← parse_lines init lines;
     Ok (st_heap st, roots st)).

(** *** Materialization *)

(** [set_permissions]: a failing [chmod] is reported with
    [f"Error setting permissions for '{full_path}': {e}"] and the run
    goes on. *)
Definition set_permissions (full_path : str) (permissions : N)
    : OS.M unit :=
  OS.try_except_OSError (OS.chmod full_path permissions)
    (λ e, OS.print (OS.PermissionsError full_path e)).

(** [if permissions is not None: set_permissions(full_path, permissions)] *)
Definition apply_permissions (full_path : str) (permissions : option N)
    : OS.M unit :=
  match permissions with
  | Some mode => set_permissions full_path mode
  | None => OS.ret tt
  end.

(** [create_node_structure]: the recursion follows the children
    addresses; [fuel] bounds its depth, and a heap of [n] objects built
    by the parser needs no more than [n]. *)
Fixpoint create_node_structure (fuel : nat) (h : heap) (base_path : str)
    (node : nat) (dir_permissions file_permissions : option N)
    : OS.M unit :=
  match fuel with
  | O => OS.raise Unmodelled
  | S fuel' =>
      match h !! node with
      | None => OS.raise Unmodelled
      | Some n =>
          let full_path := PosixPath.join base_path [get_path n] in
          if is_dir n || bool_decide (children n ≠ []) then
            OS.makedirs full_path ;;
            apply_permissions full_path dir_permissions ;;
            OS.for_each (children n) (λ child,
              create_node_structure fuel' h base_path child
                dir_permissions file_permissions)
          else
            let dir_path := PosixPath.dirname full_path in
            OS.makedirs dir_path ;;
            OS.open_w full_path ;;
            apply_permissions full_path file_permissions
      end
  end.

Definition create_structure_from_tree (base_path : str) (h : heap)
    (nodes : list nat) (dir_permissions file_permissions : option N)
    : OS.M unit :=
  OS.for_each nodes (λ node,
    create_node_structure (length h) h base_path node
      dir_permissions file_permissions).

(** *** [main]

    The arguments are what [click] hands over: the base path, the text
    of the input file when [-f] is given, and the two validated modes.
    [paste] is what [pyperclip.paste()] returns. *)

(** The first statement of [main]: the base path is made when absent.
    [f"Error creating base directory '{path}': {e}"];
    [f"Error: The path '{path}' is not a directory."] *)
Definition ensure_base (path : str) : OS.M unit :=
  let* there := OS.path_exists path in
  if negb there then
    OS.try_except_OSError (OS.makedirs path)
      (λ e, OS.print (OS.BaseDirError path e) ;; OS.sys_exit 1)
  else
    let* isdir := OS.path_isdir path in
    if negb isdir then
      OS.print (OS.NotADirectory path) ;; OS.sys_exit 1
    else OS.ret tt.

(** The first [try]: [f"Error reading input: {e}"]. *)
Definition read_input (input_file : option str) (paste : str)
    : OS.M str :=
  match input_file with
  | Some tree_str =>
      if negb (truthy (strip tree_str)) then
        OS.print (OS.ReadingInputError
                    (ValueErrorMsg (U "The input file is empty."))) ;;
        OS.sys_exit 1
      else OS.ret tree_str
  | None =>
      let tree_str := paste in
      if negb (truthy (strip tree_str)) then
        OS.print (OS.ReadingInputError
                    (ValueErrorMsg (U "The clipboard is empty."))) ;;
        OS.sys_exit 1
      else OS.ret tree_str
  end.

(** The handlers of the second [try]: [except ValueError as ve] prints
    [f"Parsing Error: {ve}"], [except Exception as e] prints
    [f"Error: {e}"] and a second line; both exit with status 1. *)
Definition handle (e : exn) : OS.M unit :=
  match e with
  | ValueError _ | ValueErrorMsg _ =>
      OS.print (OS.ParsingError e) ;; OS.sys_exit 1
  | IndexError | TypeError | OSError _ _ =>
      OS.print (OS.UnexpectedError e) ;;
      OS.print OS.CheckTheInput ;; OS.sys_exit 1
  | SystemExit _ | Unmodelled => OS.raise e
  end.

Definition try_main {A} (body : OS.M A) : OS.M unit := λ w,
  match body w with
  | (Ok _, w') => (Ok tt, w')
  | (Raise e, w') => handle e w'
  end.

Definition main (path : str) (input_file : option str) (paste : str)
    (dir_permissions file_permissions : option N) : OS.M unit :=
  ensure_base path ;;
  let* tree_str := read_input input_file paste in
  try_main
    (match parse_tree_structure tree_str with
     | Raise e => OS.raise e
     | Ok (h, roots) =>
         create_structure_from_tree path h roots
           dir_permissions file_permissions ;;
         OS.print (OS.StructureCreated path)
     end).

End Hoc.

(** ** [dircreator/cli.py] *)

Module DirCreator.
Import Py Re.

(** The values of the parser's dict: [{"type": "dir"}] and
    [{"type": "file"}]. *)
Inductive item_type := TypeDir | TypeFile.

(** A Python dict keeps its keys in insertion order; assigning to a key
    that is there replaces its value in place. *)
Fixpoint dict_set (d : list (str * item_type)) (k : str) (v : item_type)
    : list (str * item_type) :=
  match d with
  | [] => [(k, v)]
  | (k', v') :: d' =>
      if bool_decide (k' = k) then (k, v) :: d'
      else (k', v') :: dict_set d' k v
  end.

(** *** The line pattern

    As in [hoc], but the [connector] group is not optional and holds
    the glyph, the two dashes and the space. *)

Record re_match := {
  group_indent : str;
  group_connector : str;
  group_name : str
}.

Definition tail_groups (indent s : str) : option re_match :=
  match s with
  | c :: d1 :: d2 :: sp :: rest =>
      if bool_decide (c = TEE ∨ c = ELL) && bool_decide (d1 = DASH)
         && bool_decide (d2 = DASH) && bool_decide (sp = SP)
      then (n ← name_group rest;
            Some {| group_indent := indent;
                    group_connector := [c; d1; d2; sp];
                    group_name := n |})
      else None
  | _ => None
  end.

Fixpoint pattern_from (indent s : str) : option re_match :=
  match s with
  | c1 :: c2 :: c3 :: c4 :: rest =>
      if is_indent_unit c1 c2 c3 c4 then
        match pattern_from (indent ++ [c1; c2; c3; c4]) rest with
        | Some m => Some m
        | None => tail_groups indent s
        end
      else tail_groups indent s
  | _ => tail_groups indent s
  end.

(** [re.match(pattern, line)] *)
Definition re_match_line (line : str) : option re_match :=
  pattern_from [] line.

(** [(len(indent.replace("│", " ")) // 4) + 1] *)
Definition depth_of (m : re_match) : nat :=
  (length (replace VBAR [SP] (group_indent m)) / 4 + 1)%nat.

(** *** [parse_tree_structure] *)

Record pstate := {
  tree : list (str * item_type);
  path_stack : list str;
  base_name : str
}.

(** [os.path.join( *path_stack)]: calling it with no argument is a
    [TypeError]. *)
Definition join_star (path_stack : list str) : result str :=
  match path_stack with
  | [] => Raise TypeError
  | a :: p => Ok (PosixPath.join a p)
  end.

(** The body of [for idx, line in enumerate(lines)].  The loop
    [while len(path_stack) > depth: path_stack.pop()] leaves the first
    [depth] elements of a longer stack and all of a shorter one. *)
Definition parse_line (st : pstate) (idx : nat) (line : str)
    : result pstate :=
  if negb (truthy (strip line)) then Ok st
  else if bool_decide (idx = 0%nat) then
    let base_name := strip line in
    let base_name :=
      if negb (endswith base_name [SLASH]) then base_name ++ [SLASH]
      else base_name in
    Ok {| tree := dict_set (tree st) base_name TypeDir;
          path_stack := [base_name];
          base_name := base_name |}
  else
    match re_match_line line with
    | None => Ok st
    | Some m =>
        let name := strip (group_name m) in
        let depth := depth_of m in
        let path_stack := take depth (path_stack st) ++ [name] in
        current_path ← join_star path_stack;
        let is_dir := endswith name [SLASH] in
        Ok {| tree := dict_set (tree st) current_path
                        (if is_dir then TypeDir else TypeFile);
              path_stack := path_stack;
              base_name := base_name st |}
    end.

Fixpoint parse_lines (st : pstate) (idx : nat) (lines : list str)
    : result pstate :=
  match lines with
  | [] => Ok st
  | line :: rest =>
      (st' ← parse_line st idx line; parse_lines st' (S idx) rest)
  end.

(** [tree = {}], [path_stack = []] and [base_name = ""]. *)
Definition init : pstate :=
  {| tree := []; path_stack := []; base_name := [] |}.

Definition parse_tree_structure (tree_str : str)
    : result (list (str * item_type)) :=
  let lines := split NL (strip tree_str) in
  (st ← parse_lines init 0 lines;
   Ok (tree st)).

(** *** Materialization *)

(** [set_permissions(full_path, item_type)]: the modes are constants of
    the program. *)
Definition set_permissions (full_path : str) (ty : item_type)
    : OS.M unit :=
  match ty with
  | TypeDir => OS.chmod full_path (OS.oct 7 5 5)
  | TypeFile =>
      let ext := PosixPath.splitext_ext full_path in
      if bool_decide (ext = U ".py") then OS.chmod full_path (OS.oct 7 5 5)
      else OS.chmod full_path (OS.oct 6 4 4)
  end.

(** [create_structure(base_path, tree)] *)
Definition create_structure (base_path : str)
    (tree : list (str * item_type)) : OS.M unit :=
  OS.for_each tree (λ '(path, info),
    let full_path := PosixPath.join base_path [path] in
    match info with
    | TypeDir =>
        OS.makedirs full_path ;;
        set_permissions full_path TypeDir
    | TypeFile =>
        let dir_path := PosixPath.dirname full_path in
        OS.makedirs dir_path ;;
        OS.open_w full_path ;;
        set_permissions full_path TypeFile
    end).

(** *** [main]

    [path] and the text of [input_file] are what [argparse] hands over.
    The base path is made only when [os.path.exists] found nothing, so
    that [os.makedirs(args.path)] behaves as with [exist_ok].
    [f"Error: The path '{args.path}' is not a directory."] *)
Definition ensure_base (path : str) : OS.M unit :=
  let* there := OS.path_exists path in
  if negb there then OS.makedirs path
  else
    let* isdir := OS.path_isdir path in
    if negb isdir then
      OS.print (OS.NotADirectory path) ;; OS.sys_exit 1
    else OS.ret tt.

(** [f"Error reading input file: {e}"] *)
Definition read_input (input_file : str) : OS.M str :=
  let tree_str := input_file in
  if negb (truthy (strip tree_str)) then
    OS.print (OS.ReadingInputFileError
                (ValueErrorMsg (U "The input file is empty."))) ;;
    OS.sys_exit 1
  else OS.ret tree_str.

(** [except Exception as e]: [f"Error: {e}"], a second line, and exit
    status 1. *)
Definition handle (e : exn) : OS.M unit :=
  match e with
  | SystemExit _ | Unmodelled => OS.raise e
  | _ =>
      OS.print (OS.UnexpectedError e) ;;
      OS.print OS.CouldNotBeParsed ;; OS.sys_exit 1
  end.

Definition try_main {A} (body : OS.M A) : OS.M unit := λ w,
  match body w with
  | (Ok _, w') => (Ok tt, w')
  | (Raise e, w') => handle e w'
  end.

Definition main (path : str) (input_file : str) : OS.M unit :=
  ensure_base path ;;
  let* tree_str := read_input input_file in
  try_main
    (match parse_tree_structure tree_str with
     | Raise e => OS.raise e
     | Ok tree =>
         create_structure path tree ;;
         OS.print (OS.StructureCreated path)
     end).

End DirCreator.

(** ** Properties of heaps and worlds that the theorems speak about *)

Module HocSpec.
Import Py Hoc.

(** A heap as the parser builds it: children lie after their parent and
    point back to it, every object is a root or a child of its parent,
    an object with children is a directory, and paths are joined from
    the parent's path. *)
Definition path_joined (h : heap) (n : TreeNode) : Prop :=
  match parent n with
  | None => full_path n = name n
  | Some p =>
      ∃ pn, h !! p = Some pn
            ∧ full_path n = PosixPath.join (full_path pn) [name n]
  end.

Definition attached (h : heap) (roots : list nat) (a : nat)
    (n : TreeNode) : Prop :=
  match parent n with
  | None => a ∈ roots
  | Some p => ∃ pn, h !! p = Some pn ∧ a ∈ children pn
  end.

Record wf_heap (h : heap) (roots : list nat) : Prop := {
  wf_children : ∀ a n c, h !! a = Some n → c ∈ children n →
    (a < c)%nat ∧ ∃ cn, h !! c = Some cn ∧ parent cn = Some a;
  wf_attached : ∀ a n, h !! a = Some n → attached h roots a n;
  wf_roots : ∀ a, a ∈ roots → (a < length h)%nat;
  wf_promoted : ∀ a n, h !! a = Some n → children n ≠ [] →
    is_dir n = true;
  wf_path : ∀ a n, h !! a = Some n → path_joined h n
}.

Definition wf_state (st : pstate) : Prop :=
  wf_heap (st_heap st) (roots st)
  ∧ ∀ a, a ∈ node_stack st → (a < length (st_heap st))%nat.

(** The object that [TreeNode(name, is_dir, parent)] allocates, before
    it is given children. *)
Definition new_node (name : str) (is_dir : option bool)
    (parent : option nat) (path : str) : TreeNode :=
  {| name := name; parent := parent; children := [];
     is_dir := default false is_dir; full_path := path |}.

(** [desc h a b]: [b] is [a] or lies below it. *)
Inductive desc (h : heap) : nat → nat → Prop :=
| desc_refl a : desc h a a
| desc_child a n c b :
    h !! a = Some n → c ∈ children n → desc h c b → desc h a b.

(** The test of [create_node_structure]: [node.is_dir or node.children]. *)
Definition dirlike (n : TreeNode) : bool :=
  is_dir n || bool_decide (children n ≠ []).

(** The entry that materializes a node: a directory or an empty file,
    with the configured mode of its kind when there is one. *)
Definition entry_ok (dp fp : option N) (n : TreeNode) (e : OS.entry)
    : Prop :=
  if dirlike n then
    ∃ md, e = OS.Dir md ∧ ∀ d, dp = Some d → md = N.land d OS.mode_bits
  else
    ∃ md, e = OS.File md [] ∧ ∀ f, fp = Some f → md = N.land f OS.mode_bits.

Definition materialized (dp fp : option N) (h : heap) (base_path : str)
    (w : OS.world) (a : nat) : Prop :=
  ∃ n k e, h !! a = Some n
    ∧ OS.resolve w (PosixPath.join base_path [full_path n]) = Ok k
    ∧ OS.fs w !! k = Some e ∧ entry_ok dp fp n e.




(** A string holds two separators in a row. *)
Definition doubled_sep (s : str) : Prop :=
  ∃ l1 l2, s = l1 ++ [SLASH; SLASH] ++ l2.

(** A name that holds no doubled separator and does not start with one. *)
Definition clean_name (s : str) : Prop :=
  ¬ doubled_sep s ∧ startswith s [SLASH] = false.

(** What every call leaves alone. *)
Definition same_env (w w' : OS.world) : Prop :=
  OS.cwd w' = OS.cwd w ∧ OS.umask w' = OS.umask w.

End HocSpec.

(** ** Inputs and worlds of the examples *)

Module Examples.
Import Py.

(** The diagram of the first example of the specification. *)
Definition example1 : str :=
  U "root/" ++ [NL] ++ U "├── a/" ++ [NL]
  ++ U "│   └── b.txt" ++ [NL] ++ U "└── c.txt".

(** The heap that the parser builds for it: [root/] at address 0, [a/]
    at 1, [b.txt] at 2 and [c.txt] at 3. *)
Definition example1_heap : list Hoc.TreeNode :=
  [ {| Hoc.name := U "root/"; Hoc.parent := None;
       Hoc.children := [1; 3]%nat; Hoc.is_dir := true;
       Hoc.full_path := U "root/" |};
    {| Hoc.name := U "a/"; Hoc.parent := Some 0%nat;
       Hoc.children := [2]%nat; Hoc.is_dir := true;
       Hoc.full_path := U "root/a/" |};
    {| Hoc.name := U "b.txt"; Hoc.parent := Some 1%nat;
       Hoc.children := []; Hoc.is_dir := false;
       Hoc.full_path := U "root/a/b.txt" |};
    {| Hoc.name := U "c.txt"; Hoc.parent := Some 0%nat;
       Hoc.children := []; Hoc.is_dir := false;
       Hoc.full_path := U "root/c.txt" |} ].

(** A diagram whose entry [x] has no marker and gains a child. *)
Definition example5 : str :=
  U "root/" ++ [NL] ++ U "├── x" ++ [NL] ++ U "│   └── y.txt".

(** A world that holds [/], [/tmp] and [/tmp/x], with [/tmp] as the
    working directory. *)
Definition tmp_x_world (umask : N) : OS.world :=
  {| OS.fs := {[ [] := OS.Dir (OS.oct 7 5 5);
                 [U "tmp"] := OS.Dir (OS.oct 7 7 7);
                 [U "tmp"; U "x"] := OS.Dir (OS.oct 7 5 5) ]};
     OS.cwd := [U "tmp"];
     OS.umask := umask;
     OS.stdout := [] |}.

End Examples.

(** ** What the further properties of [hoc]'s parser speak about *)

Module HocMore.
Import Py Hoc.

(** [line.replace("\t", "    ")] *)
Abbreviation untab := (replace TAB [SP; SP; SP; SP]).

(** The lines that the loop of [parse_tree_structure] goes through. *)
Definition input_lines (tree_str : str) : list str :=
  map (replace TAB [SP; SP; SP; SP]) (split NL (strip tree_str)).

(** The lines that the loop does not skip. *)
Definition nonblank (line : str) : bool := truthy (strip line).

(** The name and the depth that the pattern gives to a line. *)
Definition line_name (line : str) : str :=
  match pattern_match line with
  | Some m => group_name m
  | None => []
  end.

Definition line_depth (line : str) : nat :=
  match pattern_match line with
  | Some m => depth_of m
  | None => 0%nat
  end.

(** The first line that lies deeper than the ancestor stack reaches,
    when the stack holds [stack_len] nodes before the first of
    [lines]: a line of depth [d] leaves a stack of [d + 1] nodes. *)
Fixpoint first_inconsistent (stack_len : nat) (lines : list str)
    : option str :=
  match lines with
  | [] => None
  | line :: rest =>
      if nonblank line then
        if (stack_len <? line_depth line)%nat then Some line
        else first_inconsistent (S (line_depth line)) rest
      else first_inconsistent stack_len rest
  end.

(** The depth of the [a]-th of the lines [ls]. *)
Definition depth_at (ls : list str) (a : nat) : nat :=
  from_option line_depth 0%nat (ls !! a).

(** Line [p] is the last line before line [a] that lies one level
    above it. *)
Definition nearest_above (ls : list str) (p a : nat) : Prop :=
  (p < a)%nat ∧ S (depth_at ls p) = depth_at ls a
  ∧ ∀ q, (p < q < a)%nat → (depth_at ls a ≤ depth_at ls q)%nat.

(** The parent of the object at [a], if there is one. *)
Definition parent_at (h : heap) (a : nat) : option nat :=
  h !! a ≫= parent.

(** The state of the loop after the non-blank lines [ls]: the objects
    are the lines in order, the stack holds for every level up to
    that of the last line the last line of that level, and the lists
    of roots and of children hold the objects by their parent, in the
    order of the lines. *)
Record parsed (ls : list str) (st : pstate) : Prop := {
  pd_length : length (st_heap st) = length ls;
  pd_node : ∀ a n, st_heap st !! a = Some n →
    ∃ line, ls !! a = Some line ∧ name n = line_name line
      ∧ is_dir n = endswith (name n) [SLASH]
                   || bool_decide (children n ≠ []);
  pd_parent : ∀ a n, st_heap st !! a = Some n →
    match parent n with
    | None => depth_at ls a = 0%nat
    | Some p => nearest_above ls p a
    end;
  pd_stack : ∀ i a, node_stack st !! i = Some a →
    (a < length ls)%nat ∧ depth_at ls a = i
    ∧ ∀ q, (a < q < length ls)%nat → (i < depth_at ls q)%nat;
  pd_stack_length :
    length (node_stack st)
    = match last ls with
      | Some line => S (line_depth line)
      | None => 0%nat
      end;
  pd_roots :
    roots st = filter (λ a, parent_at (st_heap st) a = None)
                 (seq 0 (length (st_heap st)));
  pd_children : ∀ a n, st_heap st !! a = Some n →
    children n = filter (λ c, parent_at (st_heap st) c = Some a)
                   (seq 0 (length (st_heap st)))
}.

(** What may become of an entry: a directory stays a directory and a
    file stays a file, with its content or emptied. *)
Definition entry_kept (e e' : OS.entry) : Prop :=
  match e, e' with
  | OS.Dir _, OS.Dir _ => True
  | OS.File _ c, OS.File _ c' => c' = c ∨ c' = []
  | _, _ => False
  end.

(** No entry disappears or changes its kind, and the environment
    stays. *)
Definition nothing_lost (w w' : OS.world) : Prop :=
  OS.cwd w' = OS.cwd w ∧ OS.umask w' = OS.umask w
  ∧ ∀ k e, OS.fs w !! k = Some e →
      ∃ e', OS.fs w' !! k = Some e' ∧ entry_kept e e'.




(** The messages that report a failure: all but the last line of a
    successful run. *)
Definition is_error (msg : OS.output) : bool :=
  match msg with
  | OS.StructureCreated _ => false
  | _ => true
  end.

(** The exceptions that are not a call of [sys.exit]. *)
Definition no_exit (e : exn) : Prop :=
  match e with
  | SystemExit _ => False
  | _ => True
  end.

End HocMore.

(** ** What the further properties of [dircreator] speak about *)

Module DcMore.
Import Py.

(** The name that the first line gives to the root: the line without
    the white space around it, with the separator at its end. *)
Definition root_name (tree_str : str) : str :=
  let base_name := strip (hd [] (split NL (strip tree_str))) in
  if negb (endswith base_name [SLASH]) then base_name ++ [SLASH]
  else base_name.

(** The mode that [set_permissions] gives to a file: by its
    extension. *)
Definition file_mode (full_path : str) : N :=
  if bool_decide (PosixPath.splitext_ext full_path = U ".py")
  then OS.oct 7 5 5 else OS.oct 6 4 4.

(** What an item of the dictionary leaves on disk: a directory of
    mode 755, or an empty file of the mode of its extension. *)
Definition item_on_disk (base_path : str) (w : OS.world)
    (item : str * DirCreator.item_type) : Prop :=
  let full_path := PosixPath.join base_path [item.1] in
  ∃ k e, OS.resolve w full_path = Ok k ∧ OS.fs w !! k = Some e
    ∧ match item.2 with
      | DirCreator.TypeDir => e = OS.Dir (OS.oct 7 5 5)
      | DirCreator.TypeFile =>
          OS.names_dir full_path = false
          ∧ e = OS.File (file_mode full_path) []
      end.

End DcMore.

(** ** [validate_permissions] of [hoc/cli.py]

    The callback of the two permission options.  [int(value, 8)] is
    modelled for the values that hold the ASCII digits 0 to 9 only: a
    sign, white space, an underscore, the prefix [0o] or a digit of
    another script leaves the model.  For these values the result of
    [int] is not negative, so that the test [0 <= permissions] holds. *)

Module HocOptions.
Import Py.

(** The result of [int(value, 8)]. *)
Inductive int_result :=
| IntValue (n : N)
| IntValueError
| IntOutsideModel.

Definition is_digit (c : char) : bool :=
  bool_decide (48 ≤ c) && bool_decide (c ≤ 57).

Definition is_octal_digit (c : char) : bool :=
  bool_decide (48 ≤ c) && bool_decide (c ≤ 55).

Definition int8 (value : str) : int_result :=
  if negb (forallb is_digit value) then IntOutsideModel
  else if negb (truthy value) then IntValueError
  else if forallb is_octal_digit value then
    IntValue (fold_left (λ acc c, acc * 8 + (c - 48)) value 0)
  else IntValueError.

(** What the callback does: it returns the value for the option, or
    raises [click.BadParameter]. *)
Inductive validated :=
| Returns (permissions : option N)
| BadParameter
| OutsideModel.

Definition validate_permissions (value : option str) : validated :=
  match value with
  | Some v =>
      match int8 v with
      | IntValue permissions =>
          if negb (bool_decide (permissions ≤ OS.oct 7 7 7))
          then BadParameter
          else Returns (Some permissions)
      | IntValueError => BadParameter
      | IntOutsideModel => OutsideModel
      end
  | None => Returns None
  end.

End HocOptions.

(** * Proofs *)

Import HocSpec.

(** * Python strings *)

Lemma split_not_nil sep s : Py.split sep s ≠ [].
Proof. destruct s as [|c s]; simpl; [done|]. case_bool_decide; [done|]. by destruct (Py.split sep s). Qed.

Lemma split_no_sep sep s : Forall (λ l, sep ∉ l) (Py.split sep s).
Proof.
  induction s as [|c s IH]; simpl.
  - repeat constructor. by intros ?%elem_of_nil.
  - case_bool_decide as Hc.
    + constructor; [by intros ?%elem_of_nil | done].
    + destruct (Py.split sep s) as [|l ls]; inversion IH; subst.
      * repeat constructor. intros [->|?%elem_of_nil]%elem_of_cons; done.
      * constructor; [|done]. intros [->|?]%elem_of_cons; done.
Qed.

Lemma replace_notin old new s c :
  c ∉ s → c ∉ new → c ∉ Py.replace old new s.
Proof.
  intros Hs Hn. induction s as [|x s IH]; simpl; [done|].
  apply not_elem_of_cons in Hs as [Hx Hs].
  rewrite elem_of_app. intros [Hin|Hin]; [|by apply IH].
  case_bool_decide; [done|]. by apply list_elem_of_singleton in Hin.
Qed.

Lemma replace_one_length old c s : length (Py.replace old [c] s) = length s.
Proof. induction s as [|x s IH]; simpl; [done|]. case_bool_decide; simpl; by rewrite IH. Qed.

Lemma strip_truthy_nonempty s : Py.truthy (Py.strip s) = true → s ≠ [].
Proof. by intros H ->. Qed.

(** * The line pattern *)

Lemma dot_run_no_newline s : Py.NL ∉ s → Re.dot_run s = (s, []).
Proof.
  induction s as [|c s IH]; simpl; [done|].
  intros [? ?]%not_elem_of_cons. case_bool_decide; [done|]. by rewrite IH.
Qed.

Lemma name_group_no_newline s :
  Py.NL ∉ s → s ≠ [] → Re.name_group s = Some s.
Proof.
  intros Hs Hne. unfold Re.name_group. rewrite dot_run_no_newline by done.
  by destruct s.
Qed.

Lemma hoc_tail_groups_total indent s :
  Py.NL ∉ s → s ≠ [] → is_Some (Hoc.tail_groups indent s).
Proof.
  intros Hs Hne. unfold Hoc.tail_groups.
  destruct (Hoc.with_connector s) as [[c n]|]; [by eexists|].
  rewrite name_group_no_newline by done. by eexists.
Qed.

Lemma hoc_pattern_from_total indent s :
  Py.NL ∉ s → s ≠ [] → is_Some (Hoc.pattern_from indent s).
Proof.
  intros Hs Hne.
  destruct s as [|c1 [|c2 [|c3 [|c4 rest]]]]; simpl;
    try (by apply hoc_tail_groups_total).
  destruct (Re.is_indent_unit c1 c2 c3 c4);
    [|by apply hoc_tail_groups_total].
  destruct (Hoc.pattern_from _ rest); [by eexists|].
  by apply hoc_tail_groups_total.
Qed.

Lemma dot_run_app s t r : Re.dot_run s = (t, r) → s = t ++ r.
Proof.
  revert t r. induction s as [|c s IH]; simpl; intros t r H.
  - by inversion H.
  - case_bool_decide; [by inversion H|].
    destruct (Re.dot_run s) as [t' r']. inversion H; subst. simpl.
    f_equal. by apply IH.
Qed.

Lemma name_group_app s n :
  Re.name_group s = Some n → ∃ tl, s = n ++ tl ∧ (tl = [] ∨ tl = [Py.NL]).
Proof.
  unfold Re.name_group. destruct (Re.dot_run s) as [t r] eqn:E.
  apply dot_run_app in E. destruct (Py.truthy t); simpl; [|done].
  repeat case_bool_decide; simpl; intros [= <-]; subst; eauto.
Qed.

Lemma with_connector_spec s c n :
  Hoc.with_connector s = Some (c, n) →
  ∃ rest, s = c :: DASH :: DASH :: Py.SP :: rest ∧ Re.name_group rest = Some n.
Proof.
  unfold Hoc.with_connector.
  destruct s as [|c' [|d1 [|d2 [|sp rest]]]]; try done.
  destruct (bool_decide (c' = TEE ∨ c' = ELL) && bool_decide (d1 = DASH)
            && bool_decide (d2 = DASH) && bool_decide (sp = Py.SP)) eqn:Hc;
    [|done].
  destruct (Re.name_group rest) as [n'|] eqn:E; simpl; [|done].
  intros [= <- <-]. exists rest. split; [|done].
  repeat (apply andb_true_iff in Hc as [Hc ?]).
  repeat case_bool_decide; try done. by subst.
Qed.

Lemma hoc_tail_groups_spec indent s m :
  Hoc.tail_groups indent s = Some m →
  Hoc.group_indent m = indent ∧
  ∃ tl, s = Hoc.connector_text m ++ Hoc.group_name m ++ tl ∧ (tl = [] ∨ tl = [Py.NL]).
Proof.
  unfold Hoc.tail_groups.
  destruct (Hoc.with_connector s) as [[c n]|] eqn:Hw.
  - apply with_connector_spec in Hw as (rest & -> & Hn).
    intros [= <-]. split; [done|].
    apply name_group_app in Hn as (tl & -> & Htl). by exists tl.
  - destruct (Re.name_group s) as [n|] eqn:E; simpl; [|done].
    intros [= <-]. split; [done|]. by apply name_group_app in E.
Qed.

Lemma hoc_pattern_from_spec s : ∀ indent m,
  Hoc.pattern_from indent s = Some m →
  ∃ u tl, Hoc.group_indent m = indent ++ u ∧
    length u = (4 * Re.count_units u)%nat ∧
    s = u ++ Hoc.connector_text m ++ Hoc.group_name m ++ tl ∧
    (tl = [] ∨ tl = [Py.NL]).
Proof.
  induction s as [s IH] using (induction_ltof1 _ length). unfold ltof in IH.
  intros indent m Hm.
  assert (Htail : Hoc.tail_groups indent s = Some m →
    ∃ u tl, Hoc.group_indent m = indent ++ u ∧
      length u = (4 * Re.count_units u)%nat ∧
      s = u ++ Hoc.connector_text m ++ Hoc.group_name m ++ tl ∧
      (tl = [] ∨ tl = [Py.NL])).
  { intros (Hi & tl & Hs & Htl)%hoc_tail_groups_spec.
    exists [], tl. by rewrite app_nil_r. }
  destruct s as [|c1 [|c2 [|c3 [|c4 rest]]]]; simpl in Hm; try by apply Htail.
  destruct (Re.is_indent_unit c1 c2 c3 c4) eqn:Hu; [|by apply Htail].
  destruct (Hoc.pattern_from (indent ++ [c1; c2; c3; c4]) rest) as [m'|] eqn:E;
    [|by apply Htail].
  inversion Hm; subst m'.
  apply IH in E as (u & tl & Hi & Hlen & Hs & Htl); [|simpl; lia].
  exists ([c1; c2; c3; c4] ++ u), tl. split_and!; [| |by rewrite Hs|done].
  - by rewrite Hi, <-app_assoc.
  - simpl. rewrite Hu, Hlen. lia.
Qed.

Lemma hoc_depth_of_units m :
  length (Hoc.group_indent m) = (4 * Re.count_units (Hoc.group_indent m))%nat →
  Hoc.depth_of m =
    (Re.count_units (Hoc.group_indent m)
     + match Hoc.group_connector m with Some _ => 1 | None => 0 end)%nat.
Proof.
  intros H. unfold Hoc.depth_of. rewrite replace_one_length, H.
  by rewrite Nat.mul_comm, Nat.div_mul.
Qed.

Lemma count_units_app u rest :
  length u = (4 * Re.count_units u)%nat →
  Re.count_units (u ++ rest) = (Re.count_units u + Re.count_units rest)%nat.
Proof.
  induction u as [u IH] using (induction_ltof1 _ length). unfold ltof in IH.
  destruct u as [|c1 [|c2 [|c3 [|c4 u]]]]; simpl; try done; try lia.
  destruct (Re.is_indent_unit c1 c2 c3 c4); simpl; [|lia].
  intros H. rewrite IH; [done|simpl; lia|lia].
Qed.

Lemma hoc_tail_groups_unit indent c1 c2 c3 c4 rest :
  Re.is_indent_unit c1 c2 c3 c4 = true →
  Hoc.tail_groups indent (c1 :: c2 :: c3 :: c4 :: rest)
  = n ← Re.name_group (c1 :: c2 :: c3 :: c4 :: rest);
    Some {| Hoc.group_indent := indent; Hoc.group_connector := None;
            Hoc.group_name := n |}.
Proof.
  intros Hu. unfold Hoc.tail_groups, Hoc.with_connector.
  replace (bool_decide (c1 = TEE ∨ c1 = ELL)) with false; [done|].
  symmetry. apply bool_decide_eq_false. unfold Re.is_indent_unit in Hu.
  repeat (apply andb_true_iff in Hu as [Hu ?]).
  apply bool_decide_eq_true in Hu. by intros [->| ->]; destruct Hu.
Qed.

(** The indent group holds every unit that the line starts with, unless
    the line holds nothing but units: then the last unit is the name. *)
Lemma hoc_pattern_from_maximal s : ∀ indent m,
  Py.NL ∉ s → Hoc.pattern_from indent s = Some m →
  ∃ u, Hoc.group_indent m = indent ++ u
    ∧ (Re.count_units s = Re.count_units u
       ∨ (Re.count_units s = S (Re.count_units u)
          ∧ Hoc.group_connector m = None
          ∧ s = u ++ Hoc.group_name m
          ∧ Re.count_units (Hoc.group_name m) = 1%nat
          ∧ length (Hoc.group_name m) = 4%nat)).
Proof.
  induction s as [s IH] using (induction_ltof1 _ length). unfold ltof in IH.
  intros indent m Hnl Hm.
  assert (Htail : Re.count_units s = 0%nat →
    Hoc.tail_groups indent s = Some m →
    ∃ u, Hoc.group_indent m = indent ++ u
      ∧ (Re.count_units s = Re.count_units u
         ∨ (Re.count_units s = S (Re.count_units u)
            ∧ Hoc.group_connector m = None
            ∧ s = u ++ Hoc.group_name m
            ∧ Re.count_units (Hoc.group_name m) = 1%nat
            ∧ length (Hoc.group_name m) = 4%nat))).
  { intros Hz [Hi _]%hoc_tail_groups_spec. exists []. rewrite app_nil_r.
    split; [done|]. by left. }
  destruct s as [|c1 [|c2 [|c3 [|c4 rest]]]]; try by apply Htail.
  simpl in Hm. destruct (Re.is_indent_unit c1 c2 c3 c4) eqn:Hu;
    [|apply Htail; [simpl; by rewrite Hu|done]].
  assert (Hnl' : Py.NL ∉ rest).
  { intros H. apply Hnl. by do 4 apply list_elem_of_further. }
  destruct (Hoc.pattern_from (indent ++ [c1; c2; c3; c4]) rest) as [m'|] eqn:E.
  - inversion Hm; subst m'.
    pose proof (hoc_pattern_from_spec _ _ _ E) as (u0 & tl & Hi0 & Hlen0 & _).
    apply IH in E as (u & Hi & Hc); [|simpl; lia|done].
    assert (u0 = u) as -> by (rewrite Hi0 in Hi; by apply app_inv_head in Hi).
    exists ([c1; c2; c3; c4] ++ u). split; [by rewrite Hi, <-app_assoc|].
    simpl. rewrite Hu.
    destruct Hc as [->|(-> & ? & -> & ? & ?)]; [by left|right].
    split_and!; done.
  - assert (rest = []) as ->.
    { destruct rest as [|c rest]; [done|].
      by destruct (hoc_pattern_from_total (indent ++ [c1; c2; c3; c4])
                     (c :: rest) Hnl') as [? ?]; [|congruence]. }
    rewrite (hoc_tail_groups_unit _ _ _ _ _ _ Hu) in Hm.
    rewrite name_group_no_newline in Hm by done. simpl in Hm.
    inversion Hm; subst m. exists []. rewrite app_nil_r. split; [done|].
    right. simpl. rewrite Hu. done.
Qed.

(** * The operating system model *)

Lemma resolve_cwd w w' p : OS.cwd w' = OS.cwd w → OS.resolve w' p = OS.resolve w p.
Proof. intros H. unfold OS.resolve. by rewrite H. Qed.

Lemma ensure_dir_spec mode p b k m m' :
  OS.ensure_dir mode p b k m = Ok m' →
  (∃ md, m' !! k = Some (OS.Dir md)) ∧
  (∀ k' e, m !! k' = Some e → m' !! k' = Some e) ∧
  (∀ k' e, m' !! k' = Some e →
     m !! k' = Some e ∨ (m !! k' = None ∧ e = OS.Dir mode)).
Proof.
  unfold OS.ensure_dir. destruct (m !! k) as [[md|md c]|] eqn:E; [| done |].
  - intros [= <-]. eauto.
  - intros [= <-]. split_and!.
    + exists mode. apply lookup_insert_eq.
    + intros k' e Hk'. rewrite lookup_insert_ne; [done|]. congruence.
    + intros k' e. rewrite lookup_insert. case_decide; subst.
      * intros [= <-]. by right.
      * by left.
Qed.

Lemma makedirs_from_spec mode p todo : ∀ pre m m',
  OS.makedirs_from mode p pre todo m = Ok m' →
  (∃ md, m' !! (pre ++ todo) = Some (OS.Dir md)) ∧
  (∀ k' e, m !! k' = Some e → m' !! k' = Some e) ∧
  (∀ k' e, m' !! k' = Some e →
     m !! k' = Some e ∨ (m !! k' = None ∧ e = OS.Dir mode)).
Proof.
  induction todo as [|c todo IH]; intros pre m m'; simpl.
  - rewrite app_nil_r. apply ensure_dir_spec.
  - destruct (OS.ensure_dir mode p false pre m) as [m1|e] eqn:E; simpl; [|done].
    intros H. apply ensure_dir_spec in E as (_ & E1 & E2).
    apply IH in H as (H0 & H1 & H2). split_and!.
    + by rewrite <-app_assoc in H0.
    + eauto.
    + intros k' e Hk'. destruct (H2 _ _ Hk') as [H|[H ->]].
      * destruct (E2 _ _ H) as [?|[? ->]]; eauto.
      * right. split; [|done].
        destruct (m !! k') eqn:Em; [|done]. apply E1 in Em. congruence.
Qed.

Lemma makedirs_inv p w r w' :
  OS.makedirs p w = (r, w') →
  same_env w w' ∧ OS.stdout w' = OS.stdout w ∧
  match r with
  | Raise _ => w' = w
  | Ok _ =>
      ∃ k, OS.resolve w p = Ok k ∧
        (∃ md, OS.fs w' !! k = Some (OS.Dir md)) ∧
        (∀ k' e, OS.fs w !! k' = Some e → OS.fs w' !! k' = Some e) ∧
        (∀ k' e, OS.fs w' !! k' = Some e →
           OS.fs w !! k' = Some e
           ∨ (OS.fs w !! k' = None ∧ e = OS.Dir (OS.default_dir_mode w)))
  end.
Proof.
  unfold OS.makedirs. destruct (OS.resolve w p) as [k|e] eqn:Ek.
  - destruct (OS.makedirs_from _ p [] k (OS.fs w)) as [m|e] eqn:Em.
    + intros [= <- <-]. (split; [done|]); (split; [done|]).
      exists k. split; [done|]. by apply makedirs_from_spec in Em.
    + by intros [= <- <-].
  - by intros [= <- <-].
Qed.

Lemma open_w_inv p w r w' :
  OS.open_w p w = (r, w') →
  same_env w w' ∧ OS.stdout w' = OS.stdout w ∧
  match r with
  | Raise _ => w' = w
  | Ok _ =>
      ∃ k md, OS.resolve w p = Ok k ∧ OS.names_dir p = false ∧
        OS.fs w' = <[k := OS.File md []]> (OS.fs w) ∧
        ((∃ c, OS.fs w !! k = Some (OS.File md c))
         ∨ (OS.fs w !! k = None ∧ md = OS.default_file_mode w))
  end.
Proof.
  unfold OS.open_w. destruct (OS.resolve w p) as [k|e] eqn:Ek;
    [|by intros [= <- <-]].
  destruct (OS.names_dir p) eqn:En; [by intros [= <- <-]|].
  destruct (OS.fs w !! removelast k) as [[?|? ?]|]; try by intros [= <- <-].
  destruct (OS.fs w !! k) as [[?|md c]|] eqn:E; intros [= <- <-];
    (split; [done|]); (split; [done|]); [done | |].
  - exists k, md. eauto 10.
  - exists k, (OS.default_file_mode w). eauto 10.
Qed.

Lemma chmod_inv p mode w r w' :
  OS.chmod p mode w = (r, w') →
  same_env w w' ∧ OS.stdout w' = OS.stdout w ∧
  match r with
  | Raise _ => w' = w
  | Ok _ =>
      ∃ k, OS.resolve w p = Ok k ∧
        ((∃ md, OS.fs w !! k = Some (OS.Dir md) ∧
            OS.fs w' = <[k := OS.Dir (N.land mode OS.mode_bits)]> (OS.fs w))
         ∨ (∃ md c, OS.fs w !! k = Some (OS.File md c) ∧
            OS.names_dir p = false ∧
            OS.fs w' = <[k := OS.File (N.land mode OS.mode_bits) c]> (OS.fs w)))
  end.
Proof.
  unfold OS.chmod. destruct (OS.resolve w p) as [k|e] eqn:Ek;
    [|by intros [= <- <-]].
  destruct (OS.fs w !! k) as [[md|md c]|] eqn:E.
  - intros [= <- <-]. (split; [done|]); (split; [done|]). exists k. eauto 10.
  - destruct (OS.names_dir p) eqn:En; intros [= <- <-];
      (split; [done|]); (split; [done|]); [done|].
    exists k. split; [done|]. right. eauto 10.
  - by intros [= <- <-].
Qed.

(** [hoc]'s [set_permissions] never raises an [OSError]. *)
Lemma set_permissions_inv p mode w r w' :
  Hoc.set_permissions p mode w = (r, w') →
  same_env w w' ∧ 
  ((r = Ok tt ∧ OS.chmod p mode w = (Ok tt, w'))
   ∨ (OS.fs w' = OS.fs w ∧ ∃ e w1, OS.chmod p mode w = (Raise e, w1))).
Proof.
  unfold Hoc.set_permissions, OS.try_except_OSError.
  destruct (OS.chmod p mode w) as [r1 w1] eqn:E.
  pose proof (chmod_inv _ _ _ _ _ E) as (Henv & Hout & H1).
  destruct r1 as [[]|e].
  - intros [= <- <-]. eauto.
  - subst w1. destruct e; intros [= <- <-]; (split; [done|]); right; eauto.
Qed.

(** * The parser keeps the heap well formed *)

Lemma wf_init : wf_state Hoc.init.
Proof.
  split; [|by intros a ?%elem_of_nil].
  split; simpl.
  - intros a n c H. by rewrite lookup_nil in H.
  - intros a n H. by rewrite lookup_nil in H.
  - by intros a ?%elem_of_nil.
  - intros a n H. by rewrite lookup_nil in H.
  - intros a n H. by rewrite lookup_nil in H.
Qed.

Lemma lookup_snoc_Some {A} (l : list A) x a y :
  (l ++ [x]) !! a = Some y →
  (a < length l ∧ l !! a = Some y)%nat ∨ (a = length l ∧ y = x).
Proof.
  intros H. destruct (decide (a < length l)%nat).
  - rewrite lookup_app_l in H by done. eauto.
  - right. rewrite lookup_app_r in H by lia.
    destruct (a - length l)%nat eqn:E; simpl in H; [|by rewrite lookup_nil in H].
    inversion H. split; [lia|done].
Qed.

Lemma wf_heap_root h roots name d :
  wf_heap h roots →
  wf_heap (h ++ [new_node name d None name]) (roots ++ [length h]).
Proof.
  intros [Hc Ha Hr Hp Hj]. split.
  - intros a n c [ [Hlt H] | [-> ->] ]%lookup_snoc_Some Hin; [|by apply elem_of_nil in Hin].
    destruct (Hc _ _ _ H Hin) as (? & cn & Hcn & ?). split; [done|].
    exists cn. split; [|done]. by apply lookup_app_l_Some.
  - intros a n [ [Hlt H] | [-> ->] ]%lookup_snoc_Some.
    + specialize (Ha _ _ H). unfold attached in *.
      destruct (Hoc.parent n) as [p|].
      * destruct Ha as (pn & ? & ?). exists pn. split; [|done].
        by apply lookup_app_l_Some.
      * apply elem_of_app. by left.
    + unfold attached. simpl. apply elem_of_app. right. by apply list_elem_of_singleton.
  - intros a [H| ->%list_elem_of_singleton]%elem_of_app; rewrite length_app; simpl.
    + apply Hr in H. lia.
    + lia.
  - intros a n [ [Hlt H] | [-> ->] ]%lookup_snoc_Some; [by eauto|done].
  - intros a n [ [Hlt H] | [-> ->] ]%lookup_snoc_Some; [|done].
    specialize (Hj _ _ H). unfold path_joined in *.
    destruct (Hoc.parent n) as [p|]; [|done].
    destruct Hj as (pn & ? & ?). exists pn. split; [|done].
    by apply lookup_app_l_Some.
Qed.

(** The heap after a child was made under [p]. *)
Lemma lookup_add_child h node p pn a :
  h !! p = Some pn →
  Hoc.add_child (h ++ [node]) p (length h) !! a =
    if decide (a = p) then Some (Hoc.add_child_obj (length h) pn)
    else (h ++ [node]) !! a.
Proof.
  intros Hp. unfold Hoc.add_child. case_decide as E.
  - subst. rewrite list_lookup_alter_eq.
    by rewrite (lookup_app_l_Some _ _ _ _ Hp).
  - by rewrite list_lookup_alter_ne.
Qed.

Lemma add_child_keeps h node p pn q qn :
  h !! p = Some pn → h !! q = Some qn →
  ∃ qn', Hoc.add_child (h ++ [node]) p (length h) !! q = Some qn'
    ∧ Hoc.name qn' = Hoc.name qn ∧ Hoc.parent qn' = Hoc.parent qn
    ∧ Hoc.full_path qn' = Hoc.full_path qn
    ∧ (∀ c, c ∈ Hoc.children qn → c ∈ Hoc.children qn').
Proof.
  intros Hp Hq. rewrite (lookup_add_child _ _ _ _ _ Hp). case_decide.
  - subst. assert (qn = pn) as -> by congruence.
    eexists. split; [done|]. simpl. split_and!; try done.
    intros c ?. apply elem_of_app. by left.
  - exists qn. split; [by apply lookup_app_l_Some|done].
Qed.

Lemma wf_heap_child h roots name d p pn :
  wf_heap h roots → h !! p = Some pn →
  wf_heap
    (Hoc.add_child
       (h ++ [new_node name d (Some p)
                (PosixPath.join (Hoc.full_path pn) [name])]) p (length h))
    roots.
Proof.
  intros [Hc Ha Hr Hp Hj] Hpn.
  set (node := new_node _ _ _ _).
  pose proof (lookup_lt_Some _ _ _ Hpn) as Hplt.
  assert (Hnew : Hoc.add_child (h ++ [node]) p (length h) !! length h = Some node).
  { rewrite (lookup_add_child _ _ _ _ _ Hpn). case_decide; [lia|].
    by rewrite lookup_app_r, Nat.sub_diag by lia. }
  split.
  - intros a n c. rewrite (lookup_add_child _ _ _ _ _ Hpn). case_decide as E.
    + subst a. intros [= <-]. simpl.
      intros [Hin| ->%list_elem_of_singleton]%elem_of_app.
      * destruct (Hc _ _ _ Hpn Hin) as (? & cn & Hcn & ?). split; [done|].
        destruct (add_child_keeps h node p pn c cn Hpn Hcn)
          as (cn' & ? & ? & ? & ? & ?).
        exists cn'. split; [done|]. congruence.
      * split; [done|]. by exists node.
    + intros [ [Hlt H] | [-> ->] ]%lookup_snoc_Some Hin; [|by apply elem_of_nil in Hin].
      destruct (Hc _ _ _ H Hin) as (? & cn & Hcn & ?). split; [done|].
      destruct (add_child_keeps h node p pn c cn Hpn Hcn)
        as (cn' & ? & ? & ? & ? & ?).
      exists cn'. split; [done|]. congruence.
  - assert (Hold : ∀ a n, h !! a = Some n → ∀ n', Hoc.parent n' = Hoc.parent n →
      attached (Hoc.add_child (h ++ [node]) p (length h)) roots a n').
    { intros a n H n' Hpar. specialize (Ha _ _ H). unfold attached in *.
      rewrite Hpar. destruct (Hoc.parent n) as [q|]; [|done].
      destruct Ha as (qn & Hq & Hin).
      destruct (add_child_keeps h node p pn q qn Hpn Hq)
        as (qn' & ? & ? & ? & ? & Hsub).
      exists qn'. split; [done|]. by apply Hsub. }
    intros a n. rewrite (lookup_add_child _ _ _ _ _ Hpn). case_decide as E.
    + subst a. intros [= <-]. by eapply Hold.
    + intros [ [Hlt H] | [-> ->] ]%lookup_snoc_Some; [by eapply Hold|].
      unfold attached. simpl. eexists. split.
      * rewrite (lookup_add_child _ _ _ _ _ Hpn). by rewrite decide_True.
      * simpl. apply elem_of_app. right. by apply list_elem_of_singleton.
  - intros a H. apply Hr in H. unfold Hoc.add_child.
    rewrite length_alter, length_app. simpl. lia.
  - intros a n. rewrite (lookup_add_child _ _ _ _ _ Hpn). case_decide as E.
    + by intros [= <-].
    + intros [ [Hlt H] | [-> ->] ]%lookup_snoc_Some; [by eauto|done].
  - assert (Hold : ∀ a n, h !! a = Some n → ∀ n',
      Hoc.parent n' = Hoc.parent n → Hoc.full_path n' = Hoc.full_path n →
      Hoc.name n' = Hoc.name n →
      path_joined (Hoc.add_child (h ++ [node]) p (length h)) n').
    { intros a n H n' Hpar Hfp Hnm. specialize (Hj _ _ H).
      unfold path_joined in *. rewrite Hpar, Hfp, Hnm.
      destruct (Hoc.parent n) as [q|]; [|done].
      destruct Hj as (qn & Hq & Hjoin).
      destruct (add_child_keeps h node p pn q qn Hpn Hq)
        as (qn' & ? & ? & ? & Hfq & ?).
      exists qn'. split; [done|]. by rewrite Hfq. }
    intros a n. rewrite (lookup_add_child _ _ _ _ _ Hpn). case_decide as E.
    + subst a. intros [= <-]. by eapply Hold.
    + intros [ [Hlt H] | [-> ->] ]%lookup_snoc_Some; [by eapply Hold|].
      unfold path_joined. simpl. eexists. split.
      * rewrite (lookup_add_child _ _ _ _ _ Hpn). by rewrite decide_True.
      * done.
Qed.

Lemma TreeNode_init_root h name d :
  Hoc.TreeNode_init h name d None
  = Ok (h ++ [new_node name d None name], length h).
Proof. done. Qed.

Lemma TreeNode_init_child h name d p pn :
  h !! p = Some pn →
  Hoc.TreeNode_init h name d (Some p)
  = Ok (Hoc.add_child
          (h ++ [new_node name d (Some p)
                   (PosixPath.join (Hoc.full_path pn) [name])]) p (length h),
        length h).
Proof. intros H. unfold Hoc.TreeNode_init. by rewrite H. Qed.

Lemma last_take {A} (l : list A) d :
  (1 ≤ d ≤ length l)%nat → last (take d l) = l !! (d - 1)%nat.
Proof.
  intros H. rewrite last_lookup, length_take_le by lia.
  rewrite lookup_take_lt by lia. f_equal. lia.
Qed.

(** What the loop body does with a line that the pattern matched. *)
Lemma parse_line_matched st line m :
  Py.truthy (Py.strip line) = true → Hoc.pattern_match line = Some m →
  Hoc.parse_line st line =
    let depth := Hoc.depth_of m in
    let is_dir := Py.endswith (Hoc.group_name m) [Py.SLASH] in
    if bool_decide (depth = 0%nat) then
      '(h, node) ← Hoc.TreeNode_init (Hoc.st_heap st) (Hoc.group_name m)
                     (Some is_dir) None;
      Ok {| Hoc.st_heap := h; Hoc.node_stack := [node];
            Hoc.roots := Hoc.roots st ++ [node] |}
    else if bool_decide (length (Hoc.node_stack st) < depth)%nat then
      Raise (ValueError (InconsistentIndentation line))
    else
      match last (take depth (Hoc.node_stack st)) with
      | None => Raise IndexError
      | Some parent_node =>
          '(h, node) ← Hoc.TreeNode_init (Hoc.st_heap st) (Hoc.group_name m)
                         (Some is_dir) (Some parent_node);
          Ok {| Hoc.st_heap := h;
                Hoc.node_stack := take depth (Hoc.node_stack st) ++ [node];
                Hoc.roots := Hoc.roots st |}
      end.
Proof. intros Hb Hm. unfold Hoc.parse_line. by rewrite Hb, Hm. Qed.

Lemma parse_line_root st line m :
  Py.truthy (Py.strip line) = true → Hoc.pattern_match line = Some m →
  Hoc.depth_of m = 0%nat →
  Hoc.parse_line st line =
    Ok {| Hoc.st_heap :=
            Hoc.st_heap st
            ++ [new_node (Hoc.group_name m)
                  (Some (Py.endswith (Hoc.group_name m) [Py.SLASH])) None
                  (Hoc.group_name m)];
          Hoc.node_stack := [length (Hoc.st_heap st)];
          Hoc.roots := Hoc.roots st ++ [length (Hoc.st_heap st)] |}.
Proof.
  intros Hb Hm Hd. rewrite (parse_line_matched _ _ _ Hb Hm). cbv zeta.
  rewrite Hd. by rewrite bool_decide_true.
Qed.

Lemma parse_line_too_deep st line m :
  Py.truthy (Py.strip line) = true → Hoc.pattern_match line = Some m →
  (length (Hoc.node_stack st) < Hoc.depth_of m)%nat →
  Hoc.parse_line st line = Raise (ValueError (InconsistentIndentation line)).
Proof.
  intros Hb Hm Hd. rewrite (parse_line_matched _ _ _ Hb Hm). cbv zeta.
  rewrite bool_decide_false by lia. by rewrite bool_decide_true by lia.
Qed.

Lemma parse_line_child st line m :
  Py.truthy (Py.strip line) = true → Hoc.pattern_match line = Some m →
  wf_state st →
  (1 ≤ Hoc.depth_of m ≤ length (Hoc.node_stack st))%nat →
  ∃ p pn, Hoc.node_stack st !! (Hoc.depth_of m - 1)%nat = Some p
    ∧ Hoc.st_heap st !! p = Some pn
    ∧ Hoc.parse_line st line =
        Ok {| Hoc.st_heap :=
                Hoc.add_child
                  (Hoc.st_heap st
                   ++ [new_node (Hoc.group_name m)
                         (Some (Py.endswith (Hoc.group_name m) [Py.SLASH]))
                         (Some p)
                         (PosixPath.join (Hoc.full_path pn) [Hoc.group_name m])])
                  p (length (Hoc.st_heap st));
              Hoc.node_stack :=
                take (Hoc.depth_of m) (Hoc.node_stack st)
                ++ [length (Hoc.st_heap st)];
              Hoc.roots := Hoc.roots st |}.
Proof.
  intros Hb Hm [Hwf Hst] Hd.
  destruct (lookup_lt_is_Some_2 (Hoc.node_stack st) (Hoc.depth_of m - 1))
    as [p Hp]; [lia|].
  assert (p < length (Hoc.st_heap st))%nat as Hlt.
  { apply Hst. by eapply list_elem_of_lookup_2. }
  destruct (lookup_lt_is_Some_2 _ _ Hlt) as [pn Hpn].
  exists p, pn. split_and!; try done.
  rewrite (parse_line_matched _ _ _ Hb Hm). cbv zeta.
  rewrite bool_decide_false by lia. rewrite bool_decide_false by lia.
  rewrite last_take, Hp by done.
  by rewrite (TreeNode_init_child _ _ _ _ _ Hpn).
Qed.

Lemma parse_line_wf st line st' :
  wf_state st → Hoc.parse_line st line = Ok st' → wf_state st'.
Proof.
  intros Hwf H. destruct (Py.truthy (Py.strip line)) eqn:Hb.
  2:{ unfold Hoc.parse_line in H. rewrite Hb in H. simpl in H. congruence. }
  destruct (Hoc.pattern_match line) as [m|] eqn:Hm.
  2:{ unfold Hoc.parse_line in H. by rewrite Hb, Hm in H. }
  destruct (decide (Hoc.depth_of m = 0%nat)) as [Hd|Hd].
  - rewrite (parse_line_root _ _ _ Hb Hm Hd) in H. inversion H; subst st'.
    destruct Hwf as [Hwf Hst]. split; simpl.
    + by apply wf_heap_root.
    + intros a ->%list_elem_of_singleton. rewrite length_app. simpl. lia.
  - destruct (decide (length (Hoc.node_stack st) < Hoc.depth_of m)%nat) as [Hl|Hl].
    + by rewrite (parse_line_too_deep _ _ _ Hb Hm Hl) in H.
    + destruct (parse_line_child st line m Hb Hm Hwf) as (p & pn & Hp & Hpn & E);
        [lia|].
      rewrite E in H. inversion H; subst st'. destruct Hwf as [Hwf Hst].
      split; simpl.
      * by apply wf_heap_child.
      * unfold Hoc.add_child. rewrite length_alter, length_app. simpl.
        intros a [Hin| ->%list_elem_of_singleton]%elem_of_app; [|lia].
        apply elem_of_take in Hin as (i & Hi & _).
        apply list_elem_of_lookup_2 in Hi. apply Hst in Hi. lia.
Qed.

Lemma parse_lines_wf lines : ∀ st st',
  wf_state st → Hoc.parse_lines st lines = Ok st' → wf_state st'.
Proof.
  induction lines as [|line lines IH]; intros st st' Hwf; simpl.
  - by intros [= <-].
  - destruct (Hoc.parse_line st line) as [st1|e] eqn:E; simpl; [|done].
    apply IH. by eapply parse_line_wf.
Qed.

Lemma parse_tree_structure_wf tree_str h roots :
  Hoc.parse_tree_structure tree_str = Ok (h, roots) → wf_heap h roots.
Proof.
  unfold Hoc.parse_tree_structure.
  destruct (negb _); [done|].
  destruct (Hoc.parse_lines _ _) as [st|e] eqn:E; simpl; [|done].
  intros [= <- <-]. by apply (parse_lines_wf _ _ _ wf_init E).
Qed.

(** * Paths *)

Lemma startswith_sep s :
  Py.startswith s [Py.SLASH] = true ↔ ∃ s', s = Py.SLASH :: s'.
Proof.
  destruct s as [|c s]; simpl.
  - split; [done|]. by intros [? ?].
  - rewrite andb_true_r, bool_decide_eq_true. split.
    + intros ->. by eexists.
    + by intros [? [= -> _]].
Qed.

Lemma endswith_sep s :
  Py.endswith s [Py.SLASH] = true ↔ ∃ s', s = s' ++ [Py.SLASH].
Proof.
  unfold Py.endswith. change (rev [Py.SLASH]) with [Py.SLASH].
  rewrite startswith_sep. split.
  - intros [r Hr]. exists (rev r).
    rewrite <-(rev_involutive s), Hr. done.
  - intros [s' ->]. exists (rev s'). by rewrite rev_app_distr.
Qed.

Lemma doubled_sep_app x y :
  doubled_sep (x ++ y) →
  doubled_sep x ∨ doubled_sep y
  ∨ ((∃ x', x = x' ++ [Py.SLASH]) ∧ ∃ y', y = Py.SLASH :: y').
Proof.
  induction x as [|c x IH]; simpl.
  - by right; left.
  - intros (l1 & l2 & H). destruct l1 as [|c' l1]; simpl in H.
    + inversion H as [[Hc Hx]]; subst c. destruct x as [|c2 x]; simpl in Hx.
      * right; right. split; [by exists []|]. by exists l2.
      * inversion Hx; subst. left. by exists [], x.
    + inversion H as [[Hc Hx]]; subst c'.
      destruct IH as [(l1' & l2' & ->)|[Hy|[(x' & ->) Hy]]].
      * by exists l1, l2.
      * left. by exists (c :: l1'), l2'.
      * by right; left.
      * right; right. split; [|done]. by exists (c :: x').
Qed.

Lemma join2_not_doubled a b :
  ¬ doubled_sep a → ¬ doubled_sep b → Py.startswith b [Py.SLASH] = false →
  ¬ doubled_sep (PosixPath.join2 a b).
Proof.
  intros Ha Hb Hs. unfold PosixPath.join2. rewrite Hs.
  assert (Hnb : ¬ ∃ y', b = Py.SLASH :: y').
  { intros H%startswith_sep. congruence. }
  destruct (negb (Py.truthy a) || Py.endswith a [Py.SLASH]) eqn:E.
  - intros [?|[?|[_ ?]]]%doubled_sep_app; done.
  - apply orb_false_iff in E as [_ E].
    intros [?|[H|[H _]]]%doubled_sep_app; [done| |].
    + destruct H as (l1 & l2 & H). destruct l1 as [|c l1]; simpl in H.
      * inversion H; subst. apply Hnb. by eexists.
      * inversion H; subst. apply Hb. by exists l1, l2.
    + apply endswith_sep in H. congruence.
Qed.

Lemma join2_not_absolute a b :
  Py.startswith a [Py.SLASH] = false → Py.startswith b [Py.SLASH] = false →
  Py.startswith (PosixPath.join2 a b) [Py.SLASH] = false.
Proof.
  intros Ha Hb. unfold PosixPath.join2. rewrite Hb.
  destruct a as [|c a]; [done|].
  by destruct (negb _ || _).
Qed.

Lemma join2_keeps_marker a b :
  Py.endswith b [Py.SLASH] = true →
  Py.endswith (PosixPath.join2 a b) [Py.SLASH] = true.
Proof.
  intros [b' ->]%endswith_sep. apply endswith_sep. unfold PosixPath.join2.
  destruct (Py.startswith _ _); [by eexists|].
  destruct (_ || _).
  - exists (a ++ b'). by rewrite app_assoc.
  - exists (a ++ [Py.SLASH] ++ b'). by rewrite <-!app_assoc.
Qed.

(** A parent lies before its child. *)
Lemma wf_parent_lt h roots a n p :
  wf_heap h roots → h !! a = Some n → Hoc.parent n = Some p →
  (p < a)%nat ∧ ∃ pn, h !! p = Some pn
    ∧ Hoc.full_path n = PosixPath.join (Hoc.full_path pn) [Hoc.name n].
Proof.
  intros Hwf Ha Hp.
  pose proof (wf_attached _ _ Hwf _ _ Ha) as Hat.
  pose proof (wf_path _ _ Hwf _ _ Ha) as Hj.
  unfold attached, path_joined in *. rewrite Hp in *.
  destruct Hat as (pn & Hpn & Hin). destruct Hj as (pn' & Hpn' & Hj).
  assert (pn' = pn) as -> by congruence.
  destruct (wf_children _ _ Hwf _ _ _ Hpn Hin) as [Hlt _]. eauto.
Qed.

Lemma wf_paths_clean h roots :
  wf_heap h roots →
  (∀ a n, h !! a = Some n → clean_name (Hoc.name n)) →
  ∀ a n, h !! a = Some n → clean_name (Hoc.full_path n).
Proof.
  intros Hwf Hnames a.
  induction a as [a IH] using lt_wf_ind. intros n Ha.
  destruct (Hoc.parent n) as [p|] eqn:Hp.
  - destruct (wf_parent_lt _ _ _ _ _ Hwf Ha Hp) as (Hlt & pn & Hpn & ->).
    destruct (IH p Hlt pn Hpn) as [? ?].
    destruct (Hnames _ _ Ha) as [? ?]. simpl. split.
    + by apply join2_not_doubled.
    + by apply join2_not_absolute.
  - pose proof (wf_path _ _ Hwf _ _ Ha) as Hj. unfold path_joined in Hj.
    rewrite Hp in Hj. rewrite Hj. by eapply Hnames.
Qed.

Lemma wf_paths_keep_marker h roots a n :
  wf_heap h roots → h !! a = Some n →
  Py.endswith (Hoc.name n) [Py.SLASH] = true →
  Py.endswith (Hoc.full_path n) [Py.SLASH] = true.
Proof.
  intros Hwf Ha Hm. destruct (Hoc.parent n) as [p|] eqn:Hp.
  - destruct (wf_parent_lt _ _ _ _ _ Hwf Ha Hp) as (Hlt & pn & Hpn & ->).
    simpl. by apply join2_keeps_marker.
  - pose proof (wf_path _ _ Hwf _ _ Ha) as Hj. unfold path_joined in Hj.
    rewrite Hp in Hj. by rewrite Hj.
Qed.

(** * Every object lies below a root *)

Lemma desc_snoc h a b n c :
  desc h a b → h !! b = Some n → c ∈ Hoc.children n → desc h a c.
Proof.
  induction 1 as [a|a n' c' b Ha Hc' Hd IH]; intros Hb Hc.
  - eapply desc_child; [done..|]. apply desc_refl.
  - eapply desc_child; [done..|]. by apply IH.
Qed.

Lemma wf_reachable h roots :
  wf_heap h roots →
  ∀ b n, h !! b = Some n → ∃ r, r ∈ roots ∧ desc h r b.
Proof.
  intros Hwf b. induction b as [b IH] using lt_wf_ind. intros n Hb.
  pose proof (wf_attached _ _ Hwf _ _ Hb) as Hat. unfold attached in Hat.
  destruct (Hoc.parent n) as [p|] eqn:Hp.
  - destruct Hat as (pn & Hpn & Hin).
    destruct (wf_children _ _ Hwf _ _ _ Hpn Hin) as [Hlt _].
    destruct (IH p Hlt pn Hpn) as (r & Hr & Hd).
    exists r. split; [done|]. by eapply desc_snoc.
  - exists b. split; [done|]. apply desc_refl.
Qed.

(** * The traversal *)

Lemma for_each_ext {A} (xs : list A) (f g : A → OS.M unit) :
  (∀ x, x ∈ xs → ∀ w, f x w = g x w) →
  ∀ w, OS.for_each xs f w = OS.for_each xs g w.
Proof.
  induction xs as [|x xs IH]; intros H w; simpl; [done|].
  unfold OS.bind. rewrite H by apply list_elem_of_here.
  destruct (g x w) as [[[]|e] w1]; [|done].
  apply IH. intros y Hy. apply H. by apply list_elem_of_further.
Qed.

(** More fuel than the heap has objects below the node changes nothing. *)
Lemma create_node_structure_fuel h roots base dp fp :
  wf_heap h roots →
  ∀ f1 f2 a w, (length h - a ≤ f1)%nat → (length h - a ≤ f2)%nat →
    Hoc.create_node_structure f1 h base a dp fp w
    = Hoc.create_node_structure f2 h base a dp fp w.
Proof.
  intros Hwf. induction f1 as [|f1 IH]; intros f2 a w H1 H2.
  - assert (h !! a = None) as Hn by (apply lookup_ge_None; lia).
    destruct f2; simpl; [done|]. by rewrite Hn.
  - destruct f2 as [|f2].
    + assert (h !! a = None) as Hn by (apply lookup_ge_None; lia).
      simpl. by rewrite Hn.
    + simpl. destruct (h !! a) as [n|] eqn:Ha; [|done].
      destruct (Hoc.is_dir n || bool_decide (Hoc.children n ≠ [])); [|done].
      unfold OS.bind.
      destruct (OS.makedirs _ w) as [[[]|e] w1]; [|done].
      destruct (Hoc.apply_permissions _ dp w1) as [[[]|e] w2]; [|done].
      apply for_each_ext. intros c Hc w'.
      destruct (wf_children _ _ Hwf _ _ _ Ha Hc) as [Hlt _].
      apply IH; lia.
Qed.

(** The fuel that [create_structure_from_tree] gives, the size of the
    heap, is enough for a heap that the parser built: more changes
    nothing. *)
Lemma create_structure_from_tree_fuel h roots base dp fp fuel w :
  wf_heap h roots → (length h ≤ fuel)%nat →
  OS.for_each roots (λ node,
    Hoc.create_node_structure fuel h base node dp fp) w
  = Hoc.create_structure_from_tree base h roots dp fp w.
Proof.
  intros Hwf Hf. unfold Hoc.create_structure_from_tree.
  apply for_each_ext. intros a Ha w'.
  apply (create_node_structure_fuel _ _ _ _ _ Hwf); lia.
Qed.

(** A relation between worlds that the visit of one directory and the
    visit of one file respect is respected by the whole traversal,
    however it ends. *)
Section traversal_rel.
Context (R : OS.world → OS.world → Prop).
Context (h : list Hoc.TreeNode) (base : Py.str) (dp fp : option N).
Hypothesis R_refl : ∀ w, R w w.
Hypothesis R_trans : ∀ w1 w2 w3, R w1 w2 → R w2 w3 → R w1 w3.
Hypothesis R_dir : ∀ p w r w',
  (OS.makedirs p ;; Hoc.apply_permissions p dp) w = (r, w') → R w w'.
Hypothesis R_file : ∀ p w r w',
  (OS.makedirs (PosixPath.dirname p) ;; OS.open_w p ;;
   Hoc.apply_permissions p fp) w = (r, w') → R w w'.

Lemma for_each_rel {A} (xs : list A) (body : A → OS.M unit) :
  (∀ x w r w', x ∈ xs → body x w = (r, w') → R w w') →
  ∀ w r w', OS.for_each xs body w = (r, w') → R w w'.
Proof.
  induction xs as [|x xs IH]; intros Hb w r w'; simpl.
  - intros [= <- <-]. apply R_refl.
  - unfold OS.bind. destruct (body x w) as [[[]|e] w1] eqn:E.
    + intros H. eapply R_trans.
      * eapply Hb; [apply list_elem_of_here|done].
      * eapply IH; [|exact H]. intros y ? ? ? Hy. apply Hb.
        by apply list_elem_of_further.
    + intros [= <- <-]. eapply Hb; [apply list_elem_of_here|done].
Qed.

Lemma create_node_structure_rel fuel : ∀ a w r w',
  Hoc.create_node_structure fuel h base a dp fp w = (r, w') → R w w'.
Proof.
  induction fuel as [|fuel IH]; intros a w r w'; simpl.
  - intros [= <- <-]. apply R_refl.
  - destruct (h !! a) as [n|]; [|intros [= <- <-]; apply R_refl].
    destruct (Hoc.is_dir n || bool_decide (Hoc.children n ≠ [])).
    + unfold OS.bind in *.
      match goal with |- context [OS.makedirs ?q w] => set (p := q) end.
      specialize (R_dir p w).
      destruct (OS.makedirs p w) as [[[]|e] w1].
      * destruct (Hoc.apply_permissions p dp w1) as [[[]|e] w2].
        -- intros H. eapply R_trans; [exact (R_dir _ _ eq_refl)|].
           eapply for_each_rel; [|exact H].
           intros c w0 r0 w0' _ Hc. exact (IH _ _ _ _ Hc).
        -- intros [= <- <-]. exact (R_dir _ _ eq_refl).
      * intros [= <- <-]. exact (R_dir _ _ eq_refl).
    + apply R_file.
Qed.

Lemma create_structure_from_tree_rel nodes w r w' :
  Hoc.create_structure_from_tree base h nodes dp fp w = (r, w') → R w w'.
Proof.
  apply for_each_rel. intros c w0 r0 w0' _ Hc.
  exact (create_node_structure_rel _ _ _ _ _ Hc).
Qed.
End traversal_rel.

(** * Modes that no call touches *)














Lemma apply_permissions_None p w : Hoc.apply_permissions p None w = (Ok tt, w).
Proof. done. Qed.




(** * What a successful traversal leaves on disk *)

Lemma chmod_dir_ok p mode w k md :
  OS.resolve w p = Ok k → OS.fs w !! k = Some (OS.Dir md) →
  OS.chmod p mode w
  = (Ok tt, OS.set_fs w (<[k := OS.Dir (N.land mode OS.mode_bits)]> (OS.fs w))).
Proof. intros Hk Hd. unfold OS.chmod. by rewrite Hk, Hd. Qed.

Lemma chmod_file_ok p mode w k md c :
  OS.resolve w p = Ok k → OS.fs w !! k = Some (OS.File md c) →
  OS.names_dir p = false →
  OS.chmod p mode w
  = (Ok tt, OS.set_fs w (<[k := OS.File (N.land mode OS.mode_bits) c]> (OS.fs w))).
Proof. intros Hk Hd Hn. unfold OS.chmod. by rewrite Hk, Hd, Hn. Qed.

Lemma entry_ok_dir dp fp n md :
  entry_ok dp fp n (OS.Dir md) → dirlike n = true.
Proof. unfold entry_ok. destruct (dirlike n); [done|]. by intros (? & ? & _). Qed.

Lemma entry_ok_file dp fp n md c :
  entry_ok dp fp n (OS.File md c) → dirlike n = false ∧ c = [].
Proof.
  unfold entry_ok. destruct (dirlike n).
  - by intros (? & ? & _).
  - intros (? & [= -> ->] & _). done.
Qed.

Lemma resolve_set_fs w m p : OS.resolve (OS.set_fs w m) p = OS.resolve w p.
Proof. done. Qed.

Section materialize.
Context (h : list Hoc.TreeNode) (base : Py.str) (dp fp : option N).

Lemma visit_dir_materializes n w w' :
  dirlike n = true →
  let p := PosixPath.join base [Hoc.full_path n] in
  (OS.makedirs p ;; Hoc.apply_permissions p dp) w = (Ok tt, w') →
  (∃ k e, OS.resolve w' p = Ok k ∧ OS.fs w' !! k = Some e
          ∧ entry_ok dp fp n e)
  ∧ ∀ b, materialized dp fp h base w b → materialized dp fp h base w' b.
Proof.
  intros Hn p. unfold OS.bind.
  destruct (OS.makedirs p w) as [[[]|e] w1] eqn:E; [|done].
  apply makedirs_inv in E as ([Hc Hu] & _ & k & Hk & [md Hd] & Hkeep & _).
  assert (Hk1 : OS.resolve w1 p = Ok k) by by rewrite (resolve_cwd w).
  destruct dp as [d|] eqn:Edp; simpl.
  - unfold Hoc.set_permissions, OS.try_except_OSError.
    rewrite (chmod_dir_ok _ _ _ _ _ Hk1 Hd). intros [= <-]. split.
    + exists k, (OS.Dir (N.land d OS.mode_bits)). split_and!.
      * by rewrite resolve_set_fs.
      * simpl. apply lookup_insert_eq.
      * unfold entry_ok. rewrite Hn. eexists. split; [done|]. by intros ? [= <-].
    + intros b (nb & kb & eb & Hb & Hkb & Heb & Hok).
      apply Hkeep in Heb. rewrite <-(resolve_cwd w w1) in Hkb by done.
      destruct (decide (kb = k)) as [->|Hne].
      * assert (eb = OS.Dir md) as -> by congruence.
        exists nb, k, (OS.Dir (N.land d OS.mode_bits)).
        split_and!; [done|by rewrite resolve_set_fs| |].
        -- simpl. apply lookup_insert_eq.
        -- apply entry_ok_dir in Hok. unfold entry_ok. rewrite Hok.
           eexists. split; [done|]. by intros ? [= <-].
      * exists nb, kb, eb.
        split_and!; [done|by rewrite resolve_set_fs| |done].
        simpl. by rewrite lookup_insert_ne.
  - intros [= <-]. split.
    + exists k, (OS.Dir md). split_and!; try done.
      unfold entry_ok. rewrite Hn. eexists. split; [done|]. done.
    + intros b (nb & kb & eb & Hb & Hkb & Heb & Hok).
      exists nb, kb, eb. split_and!; try done.
      * by rewrite (resolve_cwd w).
      * by apply Hkeep.
Qed.

Lemma visit_file_materializes n w w' :
  dirlike n = false →
  let p := PosixPath.join base [Hoc.full_path n] in
  (OS.makedirs (PosixPath.dirname p) ;; OS.open_w p ;;
   Hoc.apply_permissions p fp) w = (Ok tt, w') →
  (∃ k e, OS.resolve w' p = Ok k ∧ OS.fs w' !! k = Some e
          ∧ entry_ok dp fp n e)
  ∧ ∀ b, materialized dp fp h base w b → materialized dp fp h base w' b.
Proof.
  intros Hn p. unfold OS.bind.
  destruct (OS.makedirs _ w) as [[[]|e] w1] eqn:E1; [|done].
  apply makedirs_inv in E1 as ([Hc1 Hu1] & _ & _ & _ & _ & Hkeep & _).
  destruct (OS.open_w p w1) as [[[]|e] w2] eqn:E2; [|done].
  apply open_w_inv in E2
    as ([Hc2 Hu2] & _ & k & md & Hk & Hnd & Hfs & Hold).
  assert (Hk2 : OS.resolve w2 p = Ok k) by by rewrite (resolve_cwd w1).
  assert (Hf2 : OS.fs w2 !! k = Some (OS.File md [])).
  { rewrite Hfs. apply lookup_insert_eq. }
  assert (Hmid : ∀ b, materialized dp fp h base w b →
    ∃ nb kb eb, h !! b = Some nb
      ∧ OS.resolve w2 (PosixPath.join base [Hoc.full_path nb]) = Ok kb
      ∧ OS.fs w2 !! kb = Some eb ∧ entry_ok dp fp nb eb
      ∧ (kb = k → dirlike nb = false)).
  { intros b (nb & kb & eb & Hb & Hkb & Heb & Hok).
    apply Hkeep in Heb. destruct (decide (kb = k)) as [->|Hne].
    - destruct Hold as [[c Hc]|[Hnone _]]; [|congruence].
      assert (eb = OS.File md c) as -> by congruence.
      destruct (entry_ok_file _ _ _ _ _ Hok) as [Hnb ->].
      exists nb, k, (OS.File md []). split_and!; try done.
      by rewrite (resolve_cwd w1), (resolve_cwd w).
    - exists nb, kb, eb. split_and!; try done.
      + by rewrite (resolve_cwd w1), (resolve_cwd w).
      + rewrite Hfs. by rewrite lookup_insert_ne. }
  destruct fp as [f|] eqn:Efp; simpl.
  - unfold Hoc.set_permissions, OS.try_except_OSError.
    rewrite (chmod_file_ok _ _ _ _ _ _ Hk2 Hf2 Hnd). intros [= <-]. split.
    + exists k, (OS.File (N.land f OS.mode_bits) []). split_and!.
      * by rewrite resolve_set_fs.
      * simpl. apply lookup_insert_eq.
      * unfold entry_ok. rewrite Hn. eexists. split; [done|]. by intros ? [= <-].
    + intros b (nb & kb & eb & Hb & Hkb & Heb & Hok & Hsame)%Hmid.
      destruct (decide (kb = k)) as [->|Hne].
      * exists nb, k, (OS.File (N.land f OS.mode_bits) []).
        split_and!; [done|by rewrite resolve_set_fs| |].
        -- simpl. apply lookup_insert_eq.
        -- unfold entry_ok. rewrite Hsame by done.
           eexists. split; [done|]. by intros ? [= <-].
      * exists nb, kb, eb.
        split_and!; [done|by rewrite resolve_set_fs| |done].
        simpl. by rewrite lookup_insert_ne.
  - intros [= <-]. split.
    + exists k, (OS.File md []). split_and!; try done.
      unfold entry_ok. rewrite Hn. eexists. split; [done|]. done.
    + intros b (nb & kb & eb & Hb & Hkb & Heb & Hok & _)%Hmid.
      by exists nb, kb, eb.
Qed.

Lemma create_node_structure_materializes fuel :
  ∀ a w w' (P : nat → Prop),
    Hoc.create_node_structure fuel h base a dp fp w = (Ok tt, w') →
    (∀ b, P b → materialized dp fp h base w b) →
    ∀ b, P b ∨ desc h a b → materialized dp fp h base w' b.
Proof.
  induction fuel as [|fuel IH]; intros a w w' P; [done|].
  simpl. destruct (h !! a) as [n|] eqn:Ha; [|done].
  fold (dirlike n). destruct (dirlike n) eqn:Hn.
  - intros H HP.
    change (PosixPath.join2 base (Hoc.get_path n))
      with (PosixPath.join base [Hoc.full_path n]) in H.
    set (p := PosixPath.join base [Hoc.full_path n]) in *.
    assert (∃ w2, (OS.makedirs p ;; Hoc.apply_permissions p dp) w = (Ok tt, w2)
      ∧ OS.for_each (Hoc.children n)
          (λ child, Hoc.create_node_structure fuel h base child dp fp) w2
        = (Ok tt, w')) as (w2 & Hv & Hc).
    { unfold OS.bind in *.
      destruct (OS.makedirs p w) as [[[]|e] w1]; [|done].
      destruct (Hoc.apply_permissions p dp w1) as [[[]|e] w2]; [|done].
      by exists w2. }
    apply (visit_dir_materializes n) in Hv as [(k & e & Hk & He & Hok) Hkeep];
      [|done].
    assert (Hchildren : ∀ cs w2 w' (Q : nat → Prop),
      OS.for_each cs
        (λ child, Hoc.create_node_structure fuel h base child dp fp) w2
      = (Ok tt, w') →
      (∀ b, Q b → materialized dp fp h base w2 b) →
      ∀ b, Q b ∨ (∃ c, c ∈ cs ∧ desc h c b) → materialized dp fp h base w' b).
    { clear -IH. induction cs as [|c cs IHcs]; intros w2 w' Q; simpl.
      - intros [= <-] HQ b [?|(c & ?%elem_of_nil & _)]; [eauto|done].
      - unfold OS.bind.
        destruct (Hoc.create_node_structure fuel h base c dp fp w2)
          as [[[]|e] w3] eqn:E; [|done].
        intros Hrest HQ b Hb.
        apply (IHcs w3 w' (λ b, Q b ∨ desc h c b) Hrest).
        + by apply (IH c w2 w3 Q E).
        + destruct Hb as [?|(c' & [->|?]%elem_of_cons & ?)]; eauto. }
    intros b Hb.
    apply (Hchildren _ _ _ (λ b, P b ∨ b = a) Hc).
    + intros b' [?| ->]; [by apply Hkeep, HP|]. by exists n, k, e.
    + destruct Hb as [?|Hd]; [by left; left|].
      inversion Hd as [|? n' c ? Ha' Hc' Hd']; subst; [by left; right|].
      right. exists c. split; [|done]. congruence.
  - intros H HP b Hb.
    change (PosixPath.join2 base (Hoc.get_path n))
      with (PosixPath.join base [Hoc.full_path n]) in H.
    apply (visit_file_materializes n) in H as [(k & e & Hk & He & Hok) Hkeep];
      [|done].
    destruct Hb as [?|Hd]; [by apply Hkeep, HP|].
    inversion Hd as [|? n' c ? Ha' Hc' Hd']; subst; [by exists n, k, e|].
    assert (n' = n) as -> by congruence.
    unfold dirlike in Hn. apply orb_false_iff in Hn as [_ Hn].
    apply bool_decide_eq_false in Hn. apply dec_stable in Hn.
    rewrite Hn in Hc'. by apply elem_of_nil in Hc'.
Qed.

Lemma create_structure_from_tree_materializes nodes : ∀ w w',
  Hoc.create_structure_from_tree base h nodes dp fp w = (Ok tt, w') →
  ∀ r b, r ∈ nodes → desc h r b → materialized dp fp h base w' b.
Proof.
  unfold Hoc.create_structure_from_tree.
  assert (Hgen : ∀ w w' (Q : nat → Prop),
    OS.for_each nodes
      (λ node, Hoc.create_node_structure (length h) h base node dp fp) w
    = (Ok tt, w') →
    (∀ b, Q b → materialized dp fp h base w b) →
    ∀ b, Q b ∨ (∃ r, r ∈ nodes ∧ desc h r b) → materialized dp fp h base w' b).
  { induction nodes as [|c cs IHcs]; intros w w' Q; simpl.
    - intros [= <-] HQ b [?|(c & ?%elem_of_nil & _)]; [eauto|done].
    - unfold OS.bind.
      destruct (Hoc.create_node_structure (length h) h base c dp fp w)
        as [[[]|e] w3] eqn:E; [|done].
      intros Hrest HQ b Hb.
      apply (IHcs w3 w' (λ b, Q b ∨ desc h c b) Hrest).
      + by apply (create_node_structure_materializes _ c w w3 Q E).
      + destruct Hb as [?|(c' & [->|?]%elem_of_cons & ?)]; eauto. }
  intros w w' H r b Hr Hd.
  apply (Hgen w w' (λ _, False) H); [done|]. right. eauto.
Qed.
End materialize.

(** * The pattern of [dircreator] *)

Lemma dc_tail_groups_spec indent s m :
  DirCreator.tail_groups indent s = Some m →
  DirCreator.group_indent m = indent ∧
  ∃ c tl, (c = TEE ∨ c = ELL)
    ∧ DirCreator.group_connector m = [c; DASH; DASH; Py.SP]
    ∧ s = DirCreator.group_connector m ++ DirCreator.group_name m ++ tl
    ∧ (tl = [] ∨ tl = [Py.NL]).
Proof.
  unfold DirCreator.tail_groups.
  destruct s as [|c [|d1 [|d2 [|sp rest]]]]; try done.
  destruct (bool_decide (c = TEE ∨ c = ELL) && bool_decide (d1 = DASH)
            && bool_decide (d2 = DASH) && bool_decide (sp = Py.SP)) eqn:Hc;
    [|done].
  destruct (Re.name_group rest) as [n|] eqn:E; simpl; [|done].
  intros [= <-]. simpl. split; [done|].
  apply name_group_app in E as (tl & -> & Htl).
  repeat (apply andb_true_iff in Hc as [Hc ?]).
  repeat case_bool_decide; try done. subst. exists c, tl. eauto.
Qed.

Lemma dc_pattern_from_spec s : ∀ indent m,
  DirCreator.pattern_from indent s = Some m →
  ∃ u c tl, DirCreator.group_indent m = indent ++ u ∧
    length u = (4 * Re.count_units u)%nat ∧
    (c = TEE ∨ c = ELL) ∧
    DirCreator.group_connector m = [c; DASH; DASH; Py.SP] ∧
    s = u ++ DirCreator.group_connector m ++ DirCreator.group_name m ++ tl ∧
    (tl = [] ∨ tl = [Py.NL]).
Proof.
  induction s as [s IH] using (induction_ltof1 _ length). unfold ltof in IH.
  intros indent m Hm.
  assert (Htail : DirCreator.tail_groups indent s = Some m →
    ∃ u c tl, DirCreator.group_indent m = indent ++ u ∧
      length u = (4 * Re.count_units u)%nat ∧
      (c = TEE ∨ c = ELL) ∧
      DirCreator.group_connector m = [c; DASH; DASH; Py.SP] ∧
      s = u ++ DirCreator.group_connector m ++ DirCreator.group_name m ++ tl ∧
      (tl = [] ∨ tl = [Py.NL])).
  { intros (Hi & c & tl & Hc & Hg & Hs & Htl)%dc_tail_groups_spec.
    exists [], c, tl. by rewrite app_nil_r. }
  destruct s as [|c1 [|c2 [|c3 [|c4 rest]]]]; simpl in Hm; try by apply Htail.
  destruct (Re.is_indent_unit c1 c2 c3 c4) eqn:Hu; [|by apply Htail].
  destruct (DirCreator.pattern_from (indent ++ [c1; c2; c3; c4]) rest)
    as [m'|] eqn:E; [|by apply Htail].
  inversion Hm; subst m'.
  apply IH in E as (u & c & tl & Hi & Hlen & Hc & Hg & Hs & Htl); [|simpl; lia].
  exists ([c1; c2; c3; c4] ++ u), c, tl.
  split_and!; [| |done|done|by rewrite Hs|done].
  - by rewrite Hi, <-app_assoc.
  - simpl. rewrite Hu, Hlen. lia.
Qed.

Lemma dc_depth_of_units m :
  length (DirCreator.group_indent m)
  = (4 * Re.count_units (DirCreator.group_indent m))%nat →
  DirCreator.depth_of m = (Re.count_units (DirCreator.group_indent m) + 1)%nat.
Proof.
  intros H. unfold DirCreator.depth_of. rewrite replace_one_length, H.
  by rewrite Nat.mul_comm, Nat.div_mul.
Qed.

(** * The first line of the input *)

Lemma lstrip_head s c r : Py.lstrip s = c :: r → Py.isspace c = false.
Proof.
  induction s as [|x s IH]; simpl; [done|].
  destruct (Py.isspace x) eqn:E; [done|]. by intros [= <- _].
Qed.

Lemma lstrip_snoc_keep s c :
  Py.isspace c = false → ∃ r, Py.lstrip (s ++ [c]) = r ++ [c].
Proof.
  intros Hc. induction s as [|x s IH]; simpl.
  - rewrite Hc. by exists [].
  - destruct (Py.isspace x); [done|]. by exists (x :: s).
Qed.

Lemma rstrip_head c r :
  Py.isspace c = false → ∃ r', Py.rstrip (c :: r) = c :: r'.
Proof.
  intros Hc. unfold Py.rstrip. simpl.
  destruct (lstrip_snoc_keep (rev r) c Hc) as [x ->].
  rewrite rev_app_distr. simpl. by eexists.
Qed.

Lemma strip_head s :
  Py.truthy (Py.strip s) = true →
  ∃ c r, Py.strip s = c :: r ∧ Py.isspace c = false.
Proof.
  unfold Py.strip. destruct (Py.lstrip s) as [|c r] eqn:E; [done|].
  intros _. pose proof (lstrip_head _ _ _ E) as Hc.
  destruct (rstrip_head c r Hc) as [r' ->]. eauto.
Qed.

Lemma strip_nonspace_head c l :
  Py.isspace c = false → Py.truthy (Py.strip (c :: l)) = true.
Proof.
  intros Hc. unfold Py.strip. simpl. rewrite Hc.
  by destruct (rstrip_head c l Hc) as [r' ->].
Qed.

Lemma split_head sep c r :
  c ≠ sep → ∃ l rest, Py.split sep (c :: r) = (c :: l) :: rest.
Proof.
  intros Hc. simpl. rewrite bool_decide_false by done.
  destruct (Py.split sep r) eqn:E; by eexists _, _.
Qed.

Lemma first_line tree_str :
  Py.truthy (Py.strip tree_str) = true →
  ∃ c l rest, Py.split Py.NL (Py.strip tree_str) = (c :: l) :: rest
    ∧ Py.isspace c = false.
Proof.
  intros (c & r & -> & Hc)%strip_head.
  destruct (split_head Py.NL c r) as (l & rest & ->); [by intros ->|].
  by exists c, l, rest.
Qed.

(** In [dircreator] the indent group holds every unit that the line
    starts with: the connector must follow it. *)
Lemma dc_pattern_from_maximal s : ∀ indent m,
  DirCreator.pattern_from indent s = Some m →
  ∃ u, DirCreator.group_indent m = indent ++ u
    ∧ Re.count_units s = Re.count_units u.
Proof.
  induction s as [s IH] using (induction_ltof1 _ length). unfold ltof in IH.
  intros indent m Hm.
  assert (Htail : Re.count_units s = 0%nat →
    DirCreator.tail_groups indent s = Some m →
    ∃ u, DirCreator.group_indent m = indent ++ u
      ∧ Re.count_units s = Re.count_units u).
  { intros Hz [Hi _]%dc_tail_groups_spec. exists []. by rewrite app_nil_r. }
  destruct s as [|c1 [|c2 [|c3 [|c4 rest]]]]; try by apply Htail.
  simpl in Hm. destruct (Re.is_indent_unit c1 c2 c3 c4) eqn:Hu;
    [|apply Htail; [simpl; by rewrite Hu|done]].
  destruct (DirCreator.pattern_from (indent ++ [c1; c2; c3; c4]) rest)
    as [m'|] eqn:E.
  - inversion Hm; subst m'.
    apply IH in E as (u & Hi & Hc); [|simpl; lia].
    exists ([c1; c2; c3; c4] ++ u). split; [by rewrite Hi, <-app_assoc|].
    simpl. by rewrite Hu, Hc.
  - exfalso. unfold DirCreator.tail_groups in Hm.
    replace (bool_decide (c1 = TEE ∨ c1 = ELL)) with false in Hm; [done|].
    symmetry. apply bool_decide_eq_false. unfold Re.is_indent_unit in Hu.
    repeat (apply andb_true_iff in Hu as [Hu ?]).
    apply bool_decide_eq_true in Hu. by intros [->| ->]; destruct Hu.
Qed.

(** * Helpers of the claims *)

(** Membership in a list of literals is settled by comparing with each. *)
Ltac not_in_list H :=
  repeat (apply elem_of_cons in H as [H|H]; [cbv in H; discriminate H|]);
  by apply elem_of_nil in H.

(** A lookup in a map that a few inserts have changed. *)
Ltac lookup_tac :=
  simpl;
  repeat (rewrite lookup_insert_ne by (cbv; discriminate));
  first [ apply lookup_insert_eq | eassumption ].

Lemma TreeNode_init_new h name d parent h' a :
  Hoc.TreeNode_init h name d parent = Ok (h', a) →
  a = length h
  ∧ ∃ node, h' !! a = Some node ∧ Hoc.name node = name
      ∧ Hoc.parent node = parent ∧ Hoc.children node = []
      ∧ Hoc.is_dir node = default false d.
Proof.
  destruct parent as [p|].
  - unfold Hoc.TreeNode_init. destruct (h !! p) as [pn|] eqn:Hp; [|done].
    intros [= <- <-]. split; [done|].
    rewrite (lookup_add_child _ _ _ _ _ Hp).
    pose proof (lookup_lt_Some _ _ _ Hp). case_decide; [lia|].
    rewrite lookup_app_r, Nat.sub_diag by lia. by eexists.
  - rewrite TreeNode_init_root. intros [= <- <-]. split; [done|].
    rewrite lookup_app_r, Nat.sub_diag by lia. by eexists.
Qed.

Lemma path_exists_world p w r w' : OS.path_exists p w = (r, w') → w' = w.
Proof.
  unfold OS.path_exists. destruct (OS.lookup_path w p); by intros [= _ <-].
Qed.

Lemma path_isdir_world p w r w' : OS.path_isdir p w = (r, w') → w' = w.
Proof.
  unfold OS.path_isdir.
  destruct (OS.lookup_path w p) as [[[]|]|]; by intros [= _ <-].
Qed.

Lemma hoc_ensure_base_ok path w w1 :
  Hoc.ensure_base path w = (Ok tt, w1) →
  (OS.path_exists path w = (Ok true, w) ∧ w1 = w)
  ∨ (OS.path_exists path w = (Ok false, w) ∧ OS.makedirs path w = (Ok tt, w1)).
Proof.
  unfold Hoc.ensure_base, OS.bind.
  destruct (OS.path_exists path w) as [[[]|e] w0] eqn:E;
    pose proof (path_exists_world _ _ _ _ E) as ->; simpl; [| |done].
  - destruct (OS.path_isdir path w) as [[[]|e] w0] eqn:E';
      pose proof (path_isdir_world _ _ _ _ E') as ->; simpl; [| |done].
    + intros [= <-]. by left.
    + by unfold OS.bind, OS.print, OS.sys_exit, OS.raise.
  - unfold OS.try_except_OSError.
    destruct (OS.makedirs path w) as [[[]|e] w0] eqn:E'.
    + intros [= <-]. by right.
    + by destruct e.
Qed.

Lemma dc_ensure_base_ok path w w1 :
  DirCreator.ensure_base path w = (Ok tt, w1) →
  (OS.path_exists path w = (Ok true, w) ∧ w1 = w)
  ∨ (OS.path_exists path w = (Ok false, w) ∧ OS.makedirs path w = (Ok tt, w1)).
Proof.
  unfold DirCreator.ensure_base, OS.bind.
  destruct (OS.path_exists path w) as [[[]|e] w0] eqn:E;
    pose proof (path_exists_world _ _ _ _ E) as ->; simpl; [| |done].
  - destruct (OS.path_isdir path w) as [[[]|e] w0] eqn:E';
      pose proof (path_isdir_world _ _ _ _ E') as ->; simpl; [| |done].
    + intros [= <-]. by left.
    + by unfold OS.bind, OS.print, OS.sys_exit, OS.raise.
  - intros H. by right.
Qed.

Lemma bind_ok {A B} (m : OS.M A) (f : A → OS.M B) w a w1 r :
  m w = (Ok a, w1) → f a w1 = r → OS.bind m f w = r.
Proof. intros Hm Hf. unfold OS.bind. by rewrite Hm. Qed.

Lemma makedirs_from_step mode p pre c todo m md :
  m !! pre = Some (OS.Dir md) →
  OS.makedirs_from mode p pre (c :: todo) m
  = OS.makedirs_from mode p (pre ++ [c]) todo m.
Proof. intros H. simpl. unfold OS.ensure_dir. by rewrite H. Qed.

Lemma makedirs_from_old mode p pre m md :
  m !! pre = Some (OS.Dir md) → OS.makedirs_from mode p pre [] m = Ok m.
Proof. intros H. simpl. unfold OS.ensure_dir. by rewrite H. Qed.

Lemma makedirs_from_new mode p pre m :
  m !! pre = None →
  OS.makedirs_from mode p pre [] m = Ok (<[pre := OS.Dir mode]> m).
Proof. intros H. simpl. unfold OS.ensure_dir. by rewrite H. Qed.

Lemma makedirs_run p w k m' :
  OS.resolve w p = Ok k →
  OS.makedirs_from (OS.default_dir_mode w) p [] k (OS.fs w) = Ok m' →
  OS.makedirs p w = (Ok tt, OS.set_fs w m').
Proof. intros Hk Hm. unfold OS.makedirs. by rewrite Hk, Hm. Qed.

Lemma open_w_run_new p w k md :
  OS.resolve w p = Ok k → OS.names_dir p = false →
  OS.fs w !! removelast k = Some (OS.Dir md) → OS.fs w !! k = None →
  OS.open_w p w
  = (Ok tt, OS.set_fs w (<[k := OS.File (OS.default_file_mode w) []]> (OS.fs w))).
Proof. intros Hk Hn Hp Hf. unfold OS.open_w. by rewrite Hk, Hn, Hp, Hf. Qed.

(** * The claims *)

(** C1. The first example of the specification: the parser returns the
    one root [root/] with the children [a/] and [c.txt], of which [a/] has
    the child [b.txt]; and in every world that holds the directory
    [/tmp/x] and nothing at the four paths of the tree, materializing
    that tree under [/tmp/x] ends well and changes the file system by the
    directories [/tmp/x/root] and [/tmp/x/root/a] and the empty files
    [/tmp/x/root/a/b.txt] and [/tmp/x/root/c.txt], and by nothing else. *)
Theorem C1_example_tree :
  Hoc.parse_tree_structure Examples.example1
  = Ok (Examples.example1_heap, [0%nat])
  ∧ ∀ w m0 m1 m2,
      OS.fs w !! [] = Some (OS.Dir m0) →
      OS.fs w !! [U "tmp"] = Some (OS.Dir m1) →
      OS.fs w !! [U "tmp"; U "x"] = Some (OS.Dir m2) →
      OS.fs w !! [U "tmp"; U "x"; U "root"] = None →
      OS.fs w !! [U "tmp"; U "x"; U "root"; U "a"] = None →
      OS.fs w !! [U "tmp"; U "x"; U "root"; U "a"; U "b.txt"] = None →
      OS.fs w !! [U "tmp"; U "x"; U "root"; U "c.txt"] = None →
      Hoc.create_structure_from_tree (U "/tmp/x") Examples.example1_heap
        [0%nat] None None w
      = (Ok tt,
         OS.set_fs w
           (<[ [U "tmp"; U "x"; U "root"; U "c.txt"]
               := OS.File (OS.default_file_mode w) [] ]>
            (<[ [U "tmp"; U "x"; U "root"; U "a"; U "b.txt"]
                := OS.File (OS.default_file_mode w) [] ]>
             (<[ [U "tmp"; U "x"; U "root"; U "a"]
                 := OS.Dir (OS.default_dir_mode w) ]>
              (<[ [U "tmp"; U "x"; U "root"]
                  := OS.Dir (OS.default_dir_mode w) ]> (OS.fs w)))))).
Proof.
  split; [vm_compute; reflexivity|].
  intros w m0 m1 m2 H0 H1 H2 Hr Ha Hb Hc.
  unfold Hoc.create_structure_from_tree.
  change (U "tmp") with [116; 109; 112] in *.
  change (U "x") with [120] in *.
  change (U "root") with [114; 111; 111; 116] in *.
  change (U "a") with [97] in *.
  change (U "b.txt") with [98; 46; 116; 120; 116] in *.
  change (U "c.txt") with [99; 46; 116; 120; 116] in *.
  cbn [OS.for_each]. eapply bind_ok.
  {
    (* the root *)
    cbn [Hoc.create_node_structure length Examples.example1_heap].
    change (Examples.example1_heap !! 0%nat) with (Some
      {| Hoc.name := U "root/"; Hoc.parent := None;
         Hoc.children := [1; 3]%nat; Hoc.is_dir := true;
         Hoc.full_path := U "root/" |}).
    cbv iota beta. cbn [Hoc.is_dir orb Hoc.children Hoc.apply_permissions].
    eapply bind_ok.
    { eapply makedirs_run; [vm_compute; reflexivity|].
      repeat (erewrite makedirs_from_step by lookup_tac; simpl app).
      apply makedirs_from_new. lookup_tac. }
    eapply bind_ok; [reflexivity|].
    cbn [OS.for_each]. eapply bind_ok.
    { (* a/ *)
      cbn [Hoc.create_node_structure].
      change (Examples.example1_heap !! 1%nat) with (Some
        {| Hoc.name := U "a/"; Hoc.parent := Some 0%nat;
           Hoc.children := [2]%nat; Hoc.is_dir := true;
           Hoc.full_path := U "root/a/" |}).
      cbv iota beta. cbn [Hoc.is_dir orb Hoc.children Hoc.apply_permissions].
      eapply bind_ok.
      { eapply makedirs_run; [vm_compute; reflexivity|].
        repeat (erewrite makedirs_from_step by lookup_tac; simpl app).
        apply makedirs_from_new. lookup_tac. }
      eapply bind_ok; [reflexivity|].
      cbn [OS.for_each]. eapply bind_ok.
      { (* b.txt *)
        cbn [Hoc.create_node_structure].
        change (Examples.example1_heap !! 2%nat) with (Some
          {| Hoc.name := U "b.txt"; Hoc.parent := Some 1%nat;
             Hoc.children := []; Hoc.is_dir := false;
             Hoc.full_path := U "root/a/b.txt" |}).
        cbv iota beta. cbn [Hoc.is_dir orb Hoc.children Hoc.apply_permissions].
        change (bool_decide (@nil nat ≠ [])) with false. cbv iota.
        eapply bind_ok.
        { eapply makedirs_run; [vm_compute; reflexivity|].
          repeat (erewrite makedirs_from_step by lookup_tac; simpl app).
          eapply makedirs_from_old. lookup_tac. }
        eapply bind_ok.
        { eapply open_w_run_new;
            [vm_compute; reflexivity|vm_compute; reflexivity
            |lookup_tac|lookup_tac]. }
        reflexivity. }
      reflexivity. }
    eapply bind_ok.
    { (* c.txt *)
      cbn [Hoc.create_node_structure].
      change (Examples.example1_heap !! 3%nat) with (Some
        {| Hoc.name := U "c.txt"; Hoc.parent := Some 0%nat;
           Hoc.children := []; Hoc.is_dir := false;
           Hoc.full_path := U "root/c.txt" |}).
      cbv iota beta. cbn [Hoc.is_dir orb Hoc.children Hoc.apply_permissions].
      change (bool_decide (@nil nat ≠ [])) with false. cbv iota.
      eapply bind_ok.
      { eapply makedirs_run; [vm_compute; reflexivity|].
        repeat (erewrite makedirs_from_step by lookup_tac; simpl app).
        eapply makedirs_from_old. lookup_tac. }
      eapply bind_ok.
      { eapply open_w_run_new;
          [vm_compute; reflexivity|vm_compute; reflexivity
          |lookup_tac|lookup_tac]. }
      reflexivity. }
    reflexivity.
  }
  reflexivity.
Qed.

(** A witness of C1: the world that holds [/], [/tmp] and [/tmp/x]. *)
Lemma C1_witness :
  let w := Examples.tmp_x_world (OS.oct 0 2 2) in
  Hoc.create_structure_from_tree (U "/tmp/x") Examples.example1_heap
    [0%nat] None None w
  = (Ok tt,
     OS.set_fs w
       (<[ [U "tmp"; U "x"; U "root"; U "c.txt"]
           := OS.File (OS.oct 6 4 4) [] ]>
        (<[ [U "tmp"; U "x"; U "root"; U "a"; U "b.txt"]
            := OS.File (OS.oct 6 4 4) [] ]>
         (<[ [U "tmp"; U "x"; U "root"; U "a"] := OS.Dir (OS.oct 7 5 5) ]>
          (<[ [U "tmp"; U "x"; U "root"] := OS.Dir (OS.oct 7 5 5) ]>
             (OS.fs w)))))).
Proof.
  intros w. destruct C1_example_tree as [_ H].
  apply (H w (OS.oct 7 5 5) (OS.oct 7 7 7) (OS.oct 7 5 5));
    vm_compute; reflexivity.
Defined.

(** C2. For every line that the pattern classifies, in both variants, the
    [indent] group is a prefix of the line made of whole four-column
    units, and the depth is the number of those units plus one when a
    connector is present (always, in [dircreator]); a unit of the
    continuation glyph and three spaces counts as one of four spaces.
    The group holds every unit that the line starts with; only in [hoc],
    when a line holds nothing but units, the last of them is the name. *)
Theorem C2_depth_counts_indentation_units :
  (∀ line m, Hoc.pattern_match line = Some m →
     (∃ tl, line = Hoc.group_indent m ++ Hoc.connector_text m
                   ++ Hoc.group_name m ++ tl
            ∧ (tl = [] ∨ tl = [Py.NL]))
     ∧ length (Hoc.group_indent m)
       = (4 * Re.count_units (Hoc.group_indent m))%nat
     ∧ Hoc.depth_of m
       = (Re.count_units (Hoc.group_indent m)
          + match Hoc.group_connector m with Some _ => 1 | None => 0 end)%nat
     ∧ (Py.NL ∉ line →
        Re.count_units line = Re.count_units (Hoc.group_indent m)
        ∨ (Hoc.group_connector m = None
           ∧ line = Hoc.group_indent m ++ Hoc.group_name m
           ∧ Re.count_units (Hoc.group_name m) = 1%nat
           ∧ length (Hoc.group_name m) = 4%nat)))
  ∧ (∀ line m, DirCreator.re_match_line line = Some m →
       (∃ c tl, (c = TEE ∨ c = ELL)
          ∧ DirCreator.group_connector m = [c; DASH; DASH; Py.SP]
          ∧ line = DirCreator.group_indent m ++ DirCreator.group_connector m
                   ++ DirCreator.group_name m ++ tl
          ∧ (tl = [] ∨ tl = [Py.NL]))
       ∧ length (DirCreator.group_indent m)
         = (4 * Re.count_units (DirCreator.group_indent m))%nat
       ∧ DirCreator.depth_of m
         = (Re.count_units (DirCreator.group_indent m) + 1)%nat
       ∧ Re.count_units line = Re.count_units (DirCreator.group_indent m))
  ∧ (∀ s, Re.count_units ([VBAR; Py.SP; Py.SP; Py.SP] ++ s)
          = S (Re.count_units s)
          ∧ Re.count_units ([Py.SP; Py.SP; Py.SP; Py.SP] ++ s)
            = S (Re.count_units s)).
Proof.
  split_and!.
  - intros line m Hm.
    pose proof (hoc_pattern_from_spec _ _ _ Hm) as (u & tl & Hi & Hlen & Hs & Htl).
    simpl in Hi. subst u. split_and!; [by exists tl|done| |].
    + by apply hoc_depth_of_units.
    + intros Hnl.
      destruct (hoc_pattern_from_maximal _ _ _ Hnl Hm) as (u & Hi & Hc).
      simpl in Hi. subst u.
      destruct Hc as [?|(_ & ? & ? & ? & ?)]; [by left|by right].
  - intros line m Hm.
    pose proof (dc_pattern_from_spec _ _ _ Hm)
      as (u & c & tl & Hi & Hlen & Hc & Hg & Hs & Htl).
    simpl in Hi. subst u. split_and!; [by exists c, tl|done| |].
    + by apply dc_depth_of_units.
    + destruct (dc_pattern_from_maximal _ _ _ Hm) as (u & Hi & Hcnt).
      simpl in Hi. by subst u.
  - done.
Qed.

(** A witness of C2: the third line of the first example, at depth 2. *)
Lemma C2_witness :
  let m := {| Hoc.group_indent := U "│   "; Hoc.group_connector := Some ELL;
              Hoc.group_name := U "b.txt" |} in
  Hoc.pattern_match (U "│   └── b.txt") = Some m
  ∧ Hoc.depth_of m = (Re.count_units (U "│   ") + 1)%nat
  ∧ Hoc.depth_of m = 2%nat.
Proof.
  intros m.
  assert (H : Hoc.pattern_match (U "│   └── b.txt") = Some m)
    by (vm_compute; reflexivity).
  split; [exact H|].
  destruct (proj1 C2_depth_counts_indentation_units _ _ H) as (_ & _ & Hd & _).
  split; [exact Hd|]. rewrite Hd. vm_compute. reflexivity.
Defined.

(** C3, the claim as stated fails at depth 0: a later line without
    indentation and connector is within the stack length, and it makes a
    second root that is the child of no node. *)
Lemma C3_counterexample :
  ∃ st m st',
    Hoc.parse_lines Hoc.init [U "a"] = Ok st
    ∧ Hoc.pattern_match (U "b") = Some m
    ∧ (Hoc.depth_of m ≤ length (Hoc.node_stack st))%nat
    ∧ Hoc.parse_line st (U "b") = Ok st'
    ∧ Hoc.st_heap st'
      = [new_node (U "a") (Some false) None (U "a");
         new_node (U "b") (Some false) None (U "b")]
    ∧ Hoc.roots st' = [0; 1]%nat
    ∧ ¬ ∃ p pn, Hoc.st_heap st' !! p = Some pn
                ∧ length (Hoc.st_heap st) ∈ Hoc.children pn.
Proof.
  eexists _, _, _. split_and!; try (vm_compute; reflexivity).
  - vm_compute. lia.
  - intros (p & pn & Hp & Hin). vm_compute in Hp.
    destruct p as [|[|p]]; simpl in Hp; try done;
      injection Hp as <-; by apply elem_of_nil in Hin.
Qed.

(** C3, amended. For a line of resolved depth [d] met in a state of the
    parser: when [d] exceeds the length of the ancestor stack the error
    that names the line is raised and nothing is attached; when
    [1 <= d <= length] the stack is cut to length [d], the node at position
    [d-1] of the stack becomes the parent, the new node is appended as
    its last child, and no other object changes; when [d = 0] the new
    node is a further root and the stack holds it alone. *)
Theorem C3_depth_against_stack st line m :
  wf_state st →
  Py.truthy (Py.strip line) = true → Hoc.pattern_match line = Some m →
  let d := Hoc.depth_of m in
  let a := length (Hoc.st_heap st) in
  let is_dir := Py.endswith (Hoc.group_name m) [Py.SLASH] in
  ((length (Hoc.node_stack st) < d)%nat →
     Hoc.parse_line st line = Raise (ValueError (InconsistentIndentation line))
     ∧ parse_error_message (InconsistentIndentation line)
       = U "Inconsistent indentation at line: '" ++ line ++ U "'")
  ∧ ((1 ≤ d ≤ length (Hoc.node_stack st))%nat →
     ∃ p pn pn' st',
       Hoc.node_stack st !! (d - 1)%nat = Some p
       ∧ Hoc.st_heap st !! p = Some pn
       ∧ Hoc.parse_line st line = Ok st'
       ∧ Hoc.node_stack st' = take d (Hoc.node_stack st) ++ [a]
       ∧ Hoc.roots st' = Hoc.roots st
       ∧ Hoc.st_heap st' !! p = Some pn'
       ∧ Hoc.children pn' = Hoc.children pn ++ [a]
       ∧ Hoc.st_heap st' !! a
         = Some (new_node (Hoc.group_name m) (Some is_dir) (Some p)
                   (PosixPath.join (Hoc.full_path pn) [Hoc.group_name m]))
       ∧ ∀ b, b ≠ p → (b < a)%nat →
           Hoc.st_heap st' !! b = Hoc.st_heap st !! b)
  ∧ (d = 0%nat →
     Hoc.parse_line st line
     = Ok {| Hoc.st_heap :=
               Hoc.st_heap st
               ++ [new_node (Hoc.group_name m) (Some is_dir) None
                     (Hoc.group_name m)];
             Hoc.node_stack := [a];
             Hoc.roots := Hoc.roots st ++ [a] |}).
Proof.
  intros Hwf Hb Hm d a is_dir. split_and!.
  - intros Hd. split; [|done]. by apply (parse_line_too_deep _ _ _ Hb Hm).
  - intros Hd.
    destruct (parse_line_child st line m Hb Hm Hwf Hd) as (p & pn & Hp & Hpn & E).
    pose proof (lookup_lt_Some _ _ _ Hpn) as Hlt.
    eexists p, pn, _, _. split_and!; [done|done|exact E|done|done| | | |].
    + simpl. rewrite (lookup_add_child _ _ _ _ _ Hpn). by rewrite decide_True.
    + done.
    + simpl. rewrite (lookup_add_child _ _ _ _ _ Hpn).
      rewrite decide_False by (fold a; lia).
      by rewrite lookup_app_r, Nat.sub_diag by lia.
    + intros b Hne Hb'. simpl. rewrite (lookup_add_child _ _ _ _ _ Hpn).
      rewrite decide_False by done. by rewrite lookup_app_l.
  - intros Hd. by apply parse_line_root.
Qed.

(** A witness of C3: the second line of the first example, met after its
    first line. *)
Lemma C3_witness :
  ∃ st m,
    Hoc.parse_lines Hoc.init [U "root/"] = Ok st
    ∧ Hoc.pattern_match (U "├── a/") = Some m
    ∧ ∃ st', Hoc.parse_line st (U "├── a/") = Ok st'
        ∧ Hoc.node_stack st' = [0; 1]%nat.
Proof.
  destruct (Hoc.parse_lines Hoc.init [U "root/"]) as [st|e] eqn:Est;
    [|vm_compute in Est; discriminate Est].
  destruct (Hoc.pattern_match (U "├── a/")) as [m|] eqn:Em;
    [|vm_compute in Em; discriminate Em].
  exists st, m. split; [reflexivity|]. split; [reflexivity|].
  destruct (C3_depth_against_stack st (U "├── a/") m) as (_ & H & _).
  - exact (parse_lines_wf _ _ _ wf_init Est).
  - vm_compute. reflexivity.
  - exact Em.
  - vm_compute in Est, Em. injection Est as <-. injection Em as <-.
    destruct H as (p & pn & pn' & st' & _ & _ & E & Hs & _).
    + vm_compute. lia.
    + exists st'. split; [exact E|]. rewrite Hs. vm_compute. reflexivity.
Defined.

(** C4, the claim as stated fails in [hoc]: a first line that carries a
    connector raises the indentation error and makes no root. *)
Lemma C4_counterexample :
  Hoc.parse_tree_structure (U "├── README.md")
  = Raise (ValueError (InconsistentIndentation (U "├── README.md"))).
Proof. vm_compute. reflexivity. Qed.

(** C4, amended. The input is stripped before it is split, so its first
    line starts with a character that is no whitespace.  [dircreator]
    takes that line as the root directory whatever it holds.  [hoc]
    classifies it like any other line: it makes a root when the depth is
    0, and raises the indentation error when the line has a connector or
    an indentation unit. *)
Theorem C4_first_line tree_str :
  Py.truthy (Py.strip tree_str) = true →
  ∃ c l rest,
    Py.split Py.NL (Py.strip tree_str) = (c :: l) :: rest
    ∧ Py.isspace c = false
    ∧ (let base := Py.strip (c :: l) in
       let base_name :=
         if negb (Py.endswith base [Py.SLASH]) then base ++ [Py.SLASH]
         else base in
       DirCreator.parse_line DirCreator.init 0 (c :: l)
       = Ok {| DirCreator.tree := [(base_name, DirCreator.TypeDir)];
               DirCreator.path_stack := [base_name];
               DirCreator.base_name := base_name |})
    ∧ (let line := Py.replace Py.TAB [Py.SP; Py.SP; Py.SP; Py.SP] (c :: l) in
       ∃ m, Hoc.pattern_match line = Some m
         ∧ (Hoc.depth_of m = 0%nat →
            Hoc.parse_line Hoc.init line
            = Ok {| Hoc.st_heap :=
                      [new_node (Hoc.group_name m)
                         (Some (Py.endswith (Hoc.group_name m) [Py.SLASH]))
                         None (Hoc.group_name m)];
                    Hoc.node_stack := [0%nat];
                    Hoc.roots := [0%nat] |})
         ∧ (Hoc.depth_of m ≠ 0%nat →
            Hoc.parse_line Hoc.init line
            = Raise (ValueError (InconsistentIndentation line)))).
Proof.
  intros Hb. destruct (first_line _ Hb) as (c & l & rest & Hs & Hc).
  exists c, l, rest. split_and!; [done..| |].
  - unfold DirCreator.parse_line.
    by rewrite (strip_nonspace_head c l Hc).
  - assert (Hnl : Py.NL ∉ c :: l).
    { pose proof (split_no_sep Py.NL (Py.strip tree_str)) as H.
      rewrite Hs in H. by inversion H. }
    assert (Hline : Py.replace Py.TAB [Py.SP; Py.SP; Py.SP; Py.SP] (c :: l)
                    = c :: Py.replace Py.TAB [Py.SP; Py.SP; Py.SP; Py.SP] l).
    { simpl. rewrite bool_decide_false; [done|]. by intros ->. }
    assert (Hnl' : Py.NL ∉ Py.replace Py.TAB [Py.SP; Py.SP; Py.SP; Py.SP] (c :: l)).
    { apply replace_notin; [done|]. intros H. not_in_list H. }
    intros line. unfold line. rewrite Hline in *.
    set (l' := Py.replace _ _ l) in *.
    pose proof (strip_nonspace_head c l' Hc) as Hb'.
    destruct (hoc_pattern_from_total [] (c :: l') Hnl') as [m Hm]; [done|].
    exists m. split_and!; [done| |].
    + intros Hd. by rewrite (parse_line_root _ _ _ Hb' Hm Hd).
    + intros Hd. apply (parse_line_too_deep _ _ _ Hb' Hm). simpl. lia.
Qed.

(** A witness of C4: an input whose first line is indented and has no
    connector; the indentation is stripped. *)
Lemma C4_witness :
  ∃ c l rest,
    Py.split Py.NL (Py.strip (U "    root/")) = (c :: l) :: rest
    ∧ Py.isspace c = false.
Proof.
  destruct (C4_first_line (U "    root/")) as (c & l & rest & H1 & H2 & _).
  - vm_compute. reflexivity.
  - by exists c, l, rest.
Defined.

(** C5, the claim as stated fails in [dircreator]: the entry [x] of the
    diagram has no marker and gains the child [y.txt], yet its type stays
    a file, it is written as a file, and making its child then fails. *)
Lemma C5_counterexample :
  DirCreator.parse_tree_structure Examples.example5
  = Ok [(U "root/", DirCreator.TypeDir);
        (U "root/x", DirCreator.TypeFile);
        (U "root/x/y.txt", DirCreator.TypeFile)]
  ∧ ∃ e w',
      DirCreator.create_structure (U "/tmp/x")
        [(U "root/", DirCreator.TypeDir);
         (U "root/x", DirCreator.TypeFile);
         (U "root/x/y.txt", DirCreator.TypeFile)]
        (Examples.tmp_x_world (OS.oct 0 2 2))
      = (Raise e, w')
      ∧ OS.fs w' !! [U "tmp"; U "x"; U "root"; U "x"]
        = Some (OS.File (OS.oct 6 4 4) []).
Proof.
  split; [vm_compute; reflexivity|].
  eexists _, _. split; vm_compute; reflexivity.
Qed.

(** C5, amended: in [hoc].  Making a node under a parent sets the
    parent's [is_dir] flag as it appends the child.  In every heap that
    the parser returns, a node with a child has the flag set, and after a
    materialization that succeeds its path holds a directory. *)
Theorem C5_promoted_to_directory :
  (∀ h name d p pn,
     h !! p = Some pn →
     ∃ h' a pn',
       Hoc.TreeNode_init h name d (Some p) = Ok (h', a)
       ∧ h' !! p = Some pn'
       ∧ Hoc.children pn' = Hoc.children pn ++ [a]
       ∧ Hoc.is_dir pn' = true)
  ∧ (∀ tree_str h roots,
       Hoc.parse_tree_structure tree_str = Ok (h, roots) →
       ∀ a n, h !! a = Some n → Hoc.children n ≠ [] →
         Hoc.is_dir n = true
         ∧ ∀ base_path dp fp w w',
             Hoc.create_structure_from_tree base_path h roots dp fp w
             = (Ok tt, w') →
             ∃ k md,
               OS.resolve w' (PosixPath.join base_path [Hoc.get_path n])
               = Ok k
               ∧ OS.fs w' !! k = Some (OS.Dir md)).
Proof.
  split.
  - intros h name d p pn Hp. rewrite (TreeNode_init_child _ _ _ _ _ Hp).
    eexists _, _, _. split; [done|].
    rewrite (lookup_add_child _ _ _ _ _ Hp). by rewrite decide_True.
  - intros tree_str h roots Hwf%parse_tree_structure_wf a n Ha Hc.
    pose proof (wf_promoted _ _ Hwf _ _ Ha Hc) as Hd. split; [done|].
    intros base_path dp fp w w' Hrun.
    destruct (wf_reachable _ _ Hwf _ _ Ha) as (r & Hr & Hdesc).
    destruct (create_structure_from_tree_materializes _ _ _ _ _ _ _
                Hrun r a Hr Hdesc) as (n' & k & e & Ha' & Hk & He & Hok).
    assert (n' = n) as -> by congruence.
    unfold entry_ok, dirlike in Hok. rewrite Hd in Hok. simpl in Hok.
    destruct Hok as (md & -> & _). by exists k, md.
Qed.

(** A witness of C5: the diagram whose entry [x] gains a child, parsed
    and materialized by [hoc]; [/tmp/x/root/x] is a directory. *)
Lemma C5_witness :
  ∃ h roots w' md,
    Hoc.parse_tree_structure Examples.example5 = Ok (h, roots)
    ∧ Hoc.create_structure_from_tree (U "/tmp/x") h roots None None
        (Examples.tmp_x_world (OS.oct 0 2 2)) = (Ok tt, w')
    ∧ OS.fs w' !! [U "tmp"; U "x"; U "root"; U "x"] = Some (OS.Dir md).
Proof.
  destruct (Hoc.parse_tree_structure Examples.example5) as [[h roots]|e] eqn:Ep;
    [|vm_compute in Ep; discriminate Ep].
  destruct (Hoc.create_structure_from_tree (U "/tmp/x") h roots None None
              (Examples.tmp_x_world (OS.oct 0 2 2))) as [r w'] eqn:Er.
  destruct C5_promoted_to_directory as [_ H].
  assert (Hh : h !! 1%nat
    = Some {| Hoc.name := U "x"; Hoc.parent := Some 0%nat;
              Hoc.children := [2%nat]; Hoc.is_dir := true;
              Hoc.full_path := U "root/x" |}).
  { vm_compute in Ep. injection Ep as <- <-. vm_compute. reflexivity. }
  destruct (H _ _ _ Ep _ _ Hh) as [_ Hm]; [discriminate|].
  assert (r = Ok tt) as ->.
  { vm_compute in Ep. injection Ep as <- <-. vm_compute in Er.
    injection Er as <- _. reflexivity. }
  destruct (Hm _ _ _ _ _ Er) as (k & md & Hk & He).
  exists h, roots, w', md. split; [reflexivity|]. split; [exact Er|].
  vm_compute in Hk. injection Hk as <-. exact He.
Defined.




(** C7, the claim as stated fails: the path of a node written with a
    marker keeps the marker at its end, also after it is joined to the
    base path, and a name that holds a doubled separator gives a path
    that holds one. *)
Lemma C7_counterexample :
  (∃ n, Examples.example1_heap !! 1%nat = Some n
     ∧ Hoc.name n = U "a/" ∧ Hoc.full_path n = U "root/a/"
     ∧ PosixPath.join (U "/tmp/x") [Hoc.get_path n] = U "/tmp/x/root/a/"
     ∧ Py.endswith (PosixPath.join (U "/tmp/x") [Hoc.get_path n]) [Py.SLASH]
       = true)
  ∧ Hoc.parse_tree_structure Examples.example1
    = Ok (Examples.example1_heap, [0%nat])
  ∧ ∃ h roots n,
      Hoc.parse_tree_structure (U "a//" ++ [Py.NL] ++ U "└── b")
      = Ok (h, roots)
      ∧ h !! 1%nat = Some n ∧ Hoc.full_path n = U "a//b"
      ∧ doubled_sep (Hoc.full_path n).
Proof.
  split_and!.
  - eexists. split; [reflexivity|]. split_and!; vm_compute; reflexivity.
  - vm_compute. reflexivity.
  - eexists _, _, _. split; [vm_compute; reflexivity|].
    split; [reflexivity|]. split; [vm_compute; reflexivity|].
    exists (U "a"), (U "b"). vm_compute. reflexivity.
Qed.

(** C7, amended. The parser stores the name group of the line as the
    node's name, marker included.  The path of a node is its name for a
    root and [os.path.join] of the parent's path and the name otherwise,
    which puts a separator between the two only when the parent's path
    does not end with one: nothing is stripped, a name that ends with the
    marker gives a path that ends with it, and when no name of the tree
    holds a doubled separator or starts with a separator, no path holds a
    doubled separator, alone or joined to such a base path. *)
Theorem C7_paths_joined :
  (∀ st line m st',
     Py.truthy (Py.strip line) = true → Hoc.pattern_match line = Some m →
     Hoc.parse_line st line = Ok st' →
     ∃ node, Hoc.st_heap st' !! length (Hoc.st_heap st) = Some node
       ∧ Hoc.name node = Hoc.group_name m
       ∧ Hoc.is_dir node = Py.endswith (Hoc.group_name m) [Py.SLASH])
  ∧ (∀ tree_str h roots,
       Hoc.parse_tree_structure tree_str = Ok (h, roots) →
       ∀ a n, h !! a = Some n →
         path_joined h n
         ∧ (Py.endswith (Hoc.name n) [Py.SLASH] = true →
            Py.endswith (Hoc.full_path n) [Py.SLASH] = true)
         ∧ ((∀ b nb, h !! b = Some nb → clean_name (Hoc.name nb)) →
            ¬ doubled_sep (Hoc.full_path n)
            ∧ ∀ base_path, ¬ doubled_sep base_path →
                ¬ doubled_sep (PosixPath.join base_path [Hoc.get_path n]))).
Proof.
  split.
  - intros st line m st' Hb Hm. rewrite (parse_line_matched _ _ _ Hb Hm).
    cbv zeta. destruct (bool_decide (Hoc.depth_of m = 0%nat)).
    + destruct (Hoc.TreeNode_init _ _ _ None) as [[h' a]|e] eqn:E; [|done].
      simpl. intros [= <-]. simpl.
      apply TreeNode_init_new in E as (-> & node & ? & ? & _ & _ & ?).
      by exists node.
    + destruct (bool_decide _); [done|].
      destruct (last _) as [p|]; [|done].
      destruct (Hoc.TreeNode_init _ _ _ (Some p)) as [[h' a]|e] eqn:E; [|done].
      simpl. intros [= <-]. simpl.
      apply TreeNode_init_new in E as (-> & node & ? & ? & _ & _ & ?).
      by exists node.
  - intros tree_str h roots Hwf%parse_tree_structure_wf a n Ha. split_and!.
    + by eapply wf_path.
    + by eapply wf_paths_keep_marker.
    + intros Hnames.
      destruct (wf_paths_clean _ _ Hwf Hnames _ _ Ha) as [Hd Hs].
      split; [done|]. intros base_path Hbase. simpl.
      by apply join2_not_doubled.
Qed.

(** A witness of C7: the first example, whose names are clean; the path
    of [b.txt] holds no doubled separator under [/tmp/x]. *)
Lemma C7_witness :
  ∃ n, Examples.example1_heap !! 2%nat = Some n
    ∧ ¬ doubled_sep (PosixPath.join (U "/tmp/x") [Hoc.get_path n]).
Proof.
  destruct C7_paths_joined as [_ H].
  assert (Hp : Hoc.parse_tree_structure Examples.example1
               = Ok (Examples.example1_heap, [0%nat]))
    by (vm_compute; reflexivity).
  eexists. split; [reflexivity|].
  destruct (H _ _ _ Hp 2%nat _ eq_refl) as (_ & _ & Hc).
  apply Hc.
  - intros b nb Hb.
    destruct b as [|[|[|[|b]]]]; simpl in Hb; try discriminate Hb;
      injection Hb as <-; (split; [|vm_compute; reflexivity]);
      intros (l1 & l2 & Hl); vm_compute in Hl;
      repeat (destruct l1 as [|? l1]; [discriminate Hl|];
              injection Hl as <- Hl);
      destruct l1; discriminate Hl.
  - intros (l1 & l2 & Hl); vm_compute in Hl.
    repeat (destruct l1 as [|? l1]; [discriminate Hl|];
            injection Hl as <- Hl);
    destruct l1; discriminate Hl.
Defined.

(** C8, the claim as stated fails: [main] makes the base path when it is
    absent before it reads the input, so a run that ends with a parsing
    error has made a directory. *)
Lemma C8_counterexample :
  ∃ w',
    Hoc.main (U "/tmp/y") None (U "├── a") None None
      (Examples.tmp_x_world (OS.oct 0 2 2))
    = (Raise (SystemExit 1), w')
    ∧ OS.stdout w'
      = [OS.ParsingError (ValueError (InconsistentIndentation (U "├── a")))]
    ∧ OS.fs (Examples.tmp_x_world (OS.oct 0 2 2)) !! [U "tmp"; U "y"] = None
    ∧ OS.fs w' !! [U "tmp"; U "y"] = Some (OS.Dir (OS.oct 7 5 5)).
Proof. eexists. split_and!; vm_compute; reflexivity. Qed.

(** C8, amended.  Both variants make the base path before they read the
    input, and only when [os.path.exists] finds nothing there.  When the
    input then is blank, or in [hoc] when the parser raises one of its
    errors, the run prints the error and exits with status 1 in the world
    that this first step left: nothing of the tree is made. *)
Theorem C8_parse_errors_leave_the_tree_unmade :
  (∀ path input_file paste dp fp w w1,
     Hoc.ensure_base path w = (Ok tt, w1) →
     let tree_str := match input_file with Some s => s | None => paste end in
     ((OS.path_exists path w = (Ok true, w) ∧ w1 = w)
      ∨ (OS.path_exists path w = (Ok false, w)
         ∧ OS.makedirs path w = (Ok tt, w1)))
     ∧ (Py.truthy (Py.strip tree_str) = false →
        ∃ msg,
          Hoc.main path input_file paste dp fp w
          = (Raise (SystemExit 1),
             (OS.print (OS.ReadingInputError (ValueErrorMsg msg)) w1).2))
     ∧ (∀ e, Py.truthy (Py.strip tree_str) = true →
          Hoc.parse_tree_structure tree_str = Raise (ValueError e) →
          Hoc.main path input_file paste dp fp w
          = (Raise (SystemExit 1),
             (OS.print (OS.ParsingError (ValueError e)) w1).2)
          ∧ OS.fs (OS.print (OS.ParsingError (ValueError e)) w1).2
            = OS.fs w1))
  ∧ (∀ path input_file w w1,
       DirCreator.ensure_base path w = (Ok tt, w1) →
       ((OS.path_exists path w = (Ok true, w) ∧ w1 = w)
        ∨ (OS.path_exists path w = (Ok false, w)
           ∧ OS.makedirs path w = (Ok tt, w1)))
       ∧ (Py.truthy (Py.strip input_file) = false →
          ∃ msg,
            DirCreator.main path input_file w
            = (Raise (SystemExit 1),
               (OS.print (OS.ReadingInputFileError (ValueErrorMsg msg)) w1).2))).
Proof.
  split.
  - intros path input_file paste dp fp w w1 Hbase tree_str.
    split; [by apply hoc_ensure_base_ok|]. split.
    + intros Hb. unfold Hoc.main, OS.bind at 1. rewrite Hbase.
      unfold OS.bind at 1, Hoc.read_input.
      destruct input_file as [s|]; simpl in tree_str; unfold tree_str in Hb;
        rewrite Hb; simpl; by eexists.
    + intros e Hb He. split; [|done].
      unfold Hoc.main, OS.bind at 1. rewrite Hbase.
      unfold OS.bind at 1, Hoc.read_input.
      destruct input_file as [s|]; simpl in tree_str;
        unfold tree_str in Hb, He; rewrite Hb; simpl;
        unfold Hoc.try_main; by rewrite He.
  - intros path input_file w w1 Hbase.
    split; [by apply dc_ensure_base_ok|].
    intros Hb. unfold DirCreator.main, OS.bind at 1. rewrite Hbase.
    unfold OS.bind at 1, DirCreator.read_input. rewrite Hb. simpl.
    by eexists.
Qed.

(** A witness of C8: the base path [/tmp/x] is there, the input has a
    first line with a connector, and the run ends in the world it
    started in, but for the message. *)
Lemma C8_witness :
  Hoc.main (U "/tmp/x") None (U "├── a") None None
    (Examples.tmp_x_world (OS.oct 0 2 2))
  = (Raise (SystemExit 1),
     (OS.print
        (OS.ParsingError (ValueError (InconsistentIndentation (U "├── a"))))
        (Examples.tmp_x_world (OS.oct 0 2 2))).2).
Proof.
  destruct C8_parse_errors_leave_the_tree_unmade as [H _].
  destruct (H (U "/tmp/x") None (U "├── a") None None
              (Examples.tmp_x_world (OS.oct 0 2 2))
              (Examples.tmp_x_world (OS.oct 0 2 2))) as (_ & _ & Hp).
  - vm_compute. reflexivity.
  - destruct (Hp (InconsistentIndentation (U "├── a"))) as [Hm _].
    + vm_compute. reflexivity.
    + vm_compute. reflexivity.
    + exact Hm.
Defined.




(** C10. In [hoc] the line pattern matches every non-blank line that holds
    no newline, so [parse_tree_structure] never raises the invalid line
    format error; a line with one to three stray spaces before a connector
    glyph is accepted with the whole text, glyphs included, as its name,
    without connector and at depth 0. *)
Theorem C10_hoc_pattern_matches_every_line :
  (∀ line, Py.NL ∉ line → Py.truthy (Py.strip line) = true →
     is_Some (Hoc.pattern_match line))
  ∧ (∀ tree_str line,
       Hoc.parse_tree_structure tree_str
       ≠ Raise (ValueError (InvalidLineFormat line)))
  ∧ (∀ stray c rest,
       stray = [Py.SP] ∨ stray = [Py.SP; Py.SP]
       ∨ stray = [Py.SP; Py.SP; Py.SP] →
       c = TEE ∨ c = ELL → Py.NL ∉ rest →
       let line := stray ++ [c; DASH; DASH; Py.SP] ++ rest in
       Hoc.pattern_match line
       = Some {| Hoc.group_indent := []; Hoc.group_connector := None;
                 Hoc.group_name := line |}
       ∧ ∀ m, Hoc.pattern_match line = Some m → Hoc.depth_of m = 0%nat).
Proof.
  split_and!.
  - intros line Hnl Hb. apply hoc_pattern_from_total; [done|].
    by apply strip_truthy_nonempty.
  - intros tree_str line. unfold Hoc.parse_tree_structure.
    destruct (negb _); [done|].
    set (lines := map _ _).
    assert (Hlines : Forall (λ l, Py.NL ∉ l) lines).
    { apply Forall_fmap. eapply Forall_impl; [apply split_no_sep|].
      intros l Hl. simpl. apply replace_notin; [done|].
      intros H. not_in_list H. }
    assert (Hgen : ∀ ls st, Forall (λ l, Py.NL ∉ l) ls →
      Hoc.parse_lines st ls ≠ Raise (ValueError (InvalidLineFormat line))).
    { clear. induction ls as [|l ls IH]; intros st Hls; simpl; [done|].
      inversion Hls as [|? ? Hl Hls']; subst.
      destruct (Hoc.parse_line st l) as [st'|e] eqn:E; simpl; [by apply IH|].
      intros [= ->]. unfold Hoc.parse_line in E.
      destruct (Py.truthy (Py.strip l)) eqn:Hb; simpl in E; [|done].
      destruct (hoc_pattern_from_total [] l Hl) as [m Hm];
        [by apply strip_truthy_nonempty|].
      unfold Hoc.pattern_match in E. rewrite Hm in E.
      destruct (bool_decide (Hoc.depth_of m = 0%nat)); [done|].
      destruct (bool_decide _); [done|].
      destruct (last _) as [p|]; [|done].
      unfold Hoc.TreeNode_init in E. by destruct (_ !! p). }
    specialize (Hgen lines Hoc.init Hlines).
    destruct (Hoc.parse_lines _ lines) as [st|e]; simpl; [done|].
    intros [= ->]. by apply Hgen.
  - intros stray c rest Hstray Hc Hrest line.
    assert (Hname : Re.name_group line = Some line).
    { apply name_group_no_newline; [|by destruct Hstray as [->|[->| ->]]].
      unfold line. intros [H|[H|H]%elem_of_app]%elem_of_app; [| |done].
      - destruct Hstray as [->|[->| ->]]; not_in_list H.
      - destruct Hc as [->| ->]; not_in_list H. }
    assert (Hm : Hoc.pattern_match line
       = Some {| Hoc.group_indent := []; Hoc.group_connector := None;
                 Hoc.group_name := line |}).
    { unfold Hoc.pattern_match.
      assert (Hoc.tail_groups [] line
        = Some {| Hoc.group_indent := []; Hoc.group_connector := None;
                  Hoc.group_name := line |}) as Ht.
      { unfold Hoc.tail_groups.
        replace (Hoc.with_connector line) with (@None (N * list N)).
        - by rewrite Hname.
        - unfold line. by destruct Hstray as [->|[->| ->]]. }
      unfold line in *.
      destruct Hstray as [->|[->| ->]], Hc as [->| ->]; exact Ht. }
    split; [done|]. intros m. rewrite Hm. by intros [= <-].
Qed.

(** A witness of C10: the misaligned line of two spaces and a connector. *)
Lemma C10_witness :
  is_Some (Hoc.pattern_match (U "  ├── x"))
  ∧ (Hoc.pattern_match (U "  ├── x")
     = Some {| Hoc.group_indent := []; Hoc.group_connector := None;
               Hoc.group_name := U "  ├── x" |}).
Proof.
  destruct C10_hoc_pattern_matches_every_line as (H1 & _ & H3). split.
  - apply H1; [|reflexivity]. vm_compute. intros H. not_in_list H.
  - apply (H3 [Py.SP; Py.SP] TEE (U "x")); [tauto|tauto|].
    vm_compute. intros H. not_in_list H.
Defined.

(** * Further properties *)

(** * The lines of the input *)

Lemma input_lines_no_newline s :
  Forall (λ l, Py.NL ∉ l) (HocMore.input_lines s).
Proof.
  unfold HocMore.input_lines. apply Forall_map.
  eapply Forall_impl; [apply split_no_sep|]. intros l Hl.
  apply replace_notin; [done|].
  intros H. repeat (apply elem_of_cons in H as [H|H]; [done|]).
  by apply elem_of_nil in H.
Qed.

Lemma line_match line :
  Py.NL ∉ line → HocMore.nonblank line = true →
  ∃ m, Hoc.pattern_match line = Some m
    ∧ HocMore.line_name line = Hoc.group_name m
    ∧ HocMore.line_depth line = Hoc.depth_of m.
Proof.
  intros Hnl Hb. apply strip_truthy_nonempty in Hb.
  destruct (hoc_pattern_from_total [] line Hnl Hb) as [m Hm].
  exists m. unfold HocMore.line_name, HocMore.line_depth.
  unfold Hoc.pattern_match in *. by rewrite Hm.
Qed.

Lemma parse_line_blank st line :
  HocMore.nonblank line = false → Hoc.parse_line st line = Ok st.
Proof.
  unfold HocMore.nonblank, Hoc.parse_line. by intros ->.
Qed.

(** The three ways of a non-blank line. *)
Lemma parse_line_cases st line :
  wf_state st → Py.NL ∉ line → HocMore.nonblank line = true →
  let d := HocMore.line_depth line in
  let nm := HocMore.line_name line in
  let h := Hoc.st_heap st in
  (d = 0%nat ∧
   Hoc.parse_line st line =
     Ok {| Hoc.st_heap :=
             h ++ [new_node nm (Some (Py.endswith nm [Py.SLASH])) None nm];
           Hoc.node_stack := [length h];
           Hoc.roots := Hoc.roots st ++ [length h] |})
  ∨ ((length (Hoc.node_stack st) < d)%nat ∧
     Hoc.parse_line st line = Raise (ValueError (InconsistentIndentation line)))
  ∨ ((1 ≤ d ≤ length (Hoc.node_stack st))%nat ∧
     ∃ p pn, Hoc.node_stack st !! (d - 1)%nat = Some p
       ∧ h !! p = Some pn
       ∧ Hoc.parse_line st line =
           Ok {| Hoc.st_heap :=
                   Hoc.add_child
                     (h ++ [new_node nm (Some (Py.endswith nm [Py.SLASH]))
                              (Some p)
                              (PosixPath.join (Hoc.full_path pn) [nm])])
                     p (length h);
                 Hoc.node_stack :=
                   take d (Hoc.node_stack st) ++ [length h];
                 Hoc.roots := Hoc.roots st |}).
Proof.
  intros Hwf Hnl Hb. destruct (line_match line Hnl Hb) as (m & Hm & -> & ->).
  cbv zeta.
  destruct (decide (Hoc.depth_of m = 0%nat)) as [H0|H0].
  - left. split; [done|]. by apply parse_line_root.
  - destruct (decide (length (Hoc.node_stack st) < Hoc.depth_of m)%nat)
      as [Hd|Hd].
    + right; left. split; [done|]. by eapply parse_line_too_deep.
    + right; right. split; [lia|].
      eapply parse_line_child; [done..|lia].
Qed.

(** The stack after a line of depth [d] holds [d + 1] objects. *)
Lemma parse_line_stack_length st line st' :
  wf_state st → Py.NL ∉ line → HocMore.nonblank line = true →
  Hoc.parse_line st line = Ok st' →
  length (Hoc.node_stack st') = S (HocMore.line_depth line).
Proof.
  intros Hwf Hnl Hb.
  destruct (parse_line_cases st line Hwf Hnl Hb)
    as [[H0 ->]|[[Hd ->]|[Hd (p & pn & _ & _ & ->)]]].
  - intros [= <-]. simpl. by rewrite H0.
  - done.
  - intros [= <-]. simpl. rewrite length_app, length_take. simpl. lia.
Qed.

(** The loop ends at the first line that lies deeper than the stack
    reaches, and with a state when there is none. *)
Lemma parse_lines_outcome lines :
  Forall (λ l, Py.NL ∉ l) lines →
  ∀ st, wf_state st →
    match HocMore.first_inconsistent (length (Hoc.node_stack st)) lines with
    | Some line =>
        Hoc.parse_lines st lines
        = Raise (ValueError (InconsistentIndentation line))
    | None => ∃ st', Hoc.parse_lines st lines = Ok st'
    end.
Proof.
  induction 1 as [|line lines Hnl _ IH]; intros st Hwf; simpl.
  - by eexists.
  - destruct (HocMore.nonblank line) eqn:Hb.
    + destruct (parse_line_cases st line Hwf Hnl Hb)
        as [[H0 E]|[[Hd E]|[Hd (p & pn & _ & _ & E)]]].
      * assert ((length (Hoc.node_stack st) <? HocMore.line_depth line)%nat
                = false) as -> by (apply Nat.ltb_ge; lia).
        pose proof (parse_line_wf _ _ _ Hwf E) as Hwf'.
        pose proof (parse_line_stack_length _ _ _ Hwf Hnl Hb E) as Hl.
        rewrite E. simpl. specialize (IH _ Hwf'). by rewrite Hl in IH.
      * assert ((length (Hoc.node_stack st) <? HocMore.line_depth line)%nat
                = true) as -> by (apply Nat.ltb_lt; lia).
        by rewrite E.
      * assert ((length (Hoc.node_stack st) <? HocMore.line_depth line)%nat
                = false) as -> by (apply Nat.ltb_ge; lia).
        pose proof (parse_line_wf _ _ _ Hwf E) as Hwf'.
        pose proof (parse_line_stack_length _ _ _ Hwf Hnl Hb E) as Hl.
        rewrite E. simpl. specialize (IH _ Hwf'). by rewrite Hl in IH.
    + rewrite parse_line_blank by done. simpl. by apply IH.
Qed.

Lemma first_inconsistent_elem lines : ∀ k line,
  HocMore.first_inconsistent k lines = Some line →
  line ∈ lines ∧ HocMore.nonblank line = true.
Proof.
  induction lines as [|l lines IH]; intros k line; simpl; [done|].
  destruct (HocMore.nonblank l) eqn:Hb.
  - destruct (k <? HocMore.line_depth l)%nat.
    + intros [= <-]. split; [apply list_elem_of_here|done].
    + intros [? ?]%IH. split; [by apply list_elem_of_further|done].
  - intros [? ?]%IH. split; [by apply list_elem_of_further|done].
Qed.

(** The emptiness test of the parser is a test of the whole input. *)
Lemma any_line_nonblank s :
  existsb (λ line, Py.truthy (Py.strip line)) (Py.split Py.NL (Py.strip s))
  = Py.truthy (Py.strip s).
Proof.
  destruct (Py.truthy (Py.strip s)) eqn:E.
  - destruct (first_line s E) as (c & l & rest & -> & Hc). simpl.
    by rewrite strip_nonspace_head.
  - destruct (Py.strip s); [|done]. reflexivity.
Qed.

Lemma parse_tree_structure_lines s :
  Py.truthy (Py.strip s) = true →
  Hoc.parse_tree_structure s
  = (st ← Hoc.parse_lines Hoc.init (HocMore.input_lines s);
     Ok (Hoc.st_heap st, Hoc.roots st)).
Proof.
  intros E. unfold Hoc.parse_tree_structure. cbv zeta.
  by rewrite any_line_nonblank, E.
Qed.

(** * The state of the parser after every line *)

Lemma filter_ext_elem {A} (P Q : A → Prop) `{!∀ x, Decision (P x)}
    `{!∀ x, Decision (Q x)} (l : list A) :
  (∀ x, x ∈ l → (P x ↔ Q x)) → filter P l = filter Q l.
Proof.
  induction l as [|x l IH]; intros Hall; [done|].
  rewrite !filter_cons.
  pose proof (Hall x (list_elem_of_here _ _)) as Hx.
  rewrite IH by (intros y Hy; apply Hall; by apply list_elem_of_further).
  repeat case_decide; tauto.
Qed.

Lemma filter_none_elem {A} (P : A → Prop) `{!∀ x, Decision (P x)}
    (l : list A) :
  (∀ x, x ∈ l → ¬ P x) → filter P l = [].
Proof.
  induction l as [|x l IH]; intros Hall; [done|].
  rewrite filter_cons.
  pose proof (Hall x (list_elem_of_here _ _)) as Hx.
  rewrite IH by (intros y Hy; apply Hall; by apply list_elem_of_further).
  by case_decide.
Qed.

Lemma depth_at_app_l ls line a :
  (a < length ls)%nat →
  HocMore.depth_at (ls ++ [line]) a = HocMore.depth_at ls a.
Proof.
  intros H. unfold HocMore.depth_at. by rewrite lookup_app_l.
Qed.

Lemma depth_at_app_r ls line :
  HocMore.depth_at (ls ++ [line]) (length ls) = HocMore.line_depth line.
Proof.
  unfold HocMore.depth_at.
  by rewrite lookup_app_r, Nat.sub_diag by lia.
Qed.

Lemma nearest_above_app ls line p a :
  (a < length ls)%nat →
  HocMore.nearest_above ls p a → HocMore.nearest_above (ls ++ [line]) p a.
Proof.
  intros Ha (H1 & H2 & H3). split_and!; [done| |].
  - rewrite !depth_at_app_l by lia. done.
  - intros q Hq. rewrite !depth_at_app_l by lia. by apply H3.
Qed.

Lemma parent_at_Some h roots c a :
  wf_heap h roots → HocMore.parent_at h c = Some a →
  (a < c < length h)%nat.
Proof.
  intros Hwf. unfold HocMore.parent_at.
  destruct (h !! c) as [n|] eqn:E; simpl; [|done]. intros Hp.
  destruct (wf_parent_lt _ _ _ _ _ Hwf E Hp) as [? _].
  apply lookup_lt_Some in E. lia.
Qed.

Lemma parent_at_snoc h node a :
  HocMore.parent_at (h ++ [node]) a =
    if decide (a = length h) then Hoc.parent node else HocMore.parent_at h a.
Proof.
  unfold HocMore.parent_at. case_decide as Ha.
  - subst. by rewrite lookup_app_r, Nat.sub_diag by lia.
  - destruct (decide (a < length h)%nat).
    + by rewrite lookup_app_l.
    + rewrite !lookup_ge_None_2; [done|lia|].
      rewrite length_app. simpl. lia.
Qed.

Lemma parent_at_add_child h node p pn a :
  h !! p = Some pn →
  HocMore.parent_at (Hoc.add_child (h ++ [node]) p (length h)) a =
    if decide (a = length h) then Hoc.parent node else HocMore.parent_at h a.
Proof.
  intros Hp. unfold HocMore.parent_at at 1.
  rewrite (lookup_add_child _ _ _ _ _ Hp).
  pose proof (lookup_lt_Some _ _ _ Hp) as Hlt.
  destruct (decide (a = p)) as [->|Hap].
  - rewrite decide_False by lia. unfold HocMore.parent_at. by rewrite Hp.
  - apply parent_at_snoc.
Qed.

Lemma length_add_child h p c : length (Hoc.add_child h p c) = length h.
Proof. unfold Hoc.add_child. apply length_alter. Qed.

Lemma parsed_init : HocMore.parsed [] Hoc.init.
Proof. by split. Qed.

Lemma parsed_root ls st line :
  wf_state st → HocMore.parsed ls st →
  HocMore.line_depth line = 0%nat →
  let nm := HocMore.line_name line in
  let h := Hoc.st_heap st in
  HocMore.parsed (ls ++ [line])
    {| Hoc.st_heap :=
         h ++ [new_node nm (Some (Py.endswith nm [Py.SLASH])) None nm];
       Hoc.node_stack := [length h];
       Hoc.roots := Hoc.roots st ++ [length h] |}.
Proof.
  intros [Hwf Hst] Hp H0 nm h.
  pose proof (HocMore.pd_length _ _ Hp) as Hlen. fold h in Hlen.
  split; simpl.
  - rewrite !length_app. simpl. lia.
  - intros a n [[Ha Hn]|[-> ->]]%lookup_snoc_Some.
    + destruct (HocMore.pd_node _ _ Hp a n Hn) as (l & Hl & H1 & H2).
      exists l. split_and!; [|done..]. by apply lookup_app_l_Some.
    + exists line. split_and!.
      * by apply list_lookup_middle.
      * done.
      * simpl. by destruct (Py.endswith nm [Py.SLASH]).
  - intros a n [[Ha Hn]|[-> ->]]%lookup_snoc_Some.
    + pose proof (HocMore.pd_parent _ _ Hp a n Hn) as H.
      destruct (Hoc.parent n).
      * apply nearest_above_app; [lia|done].
      * rewrite depth_at_app_l by lia. done.
    + simpl. rewrite Hlen, depth_at_app_r. done.
  - intros i a Hi. destruct i; simpl in Hi; [|by rewrite lookup_nil in Hi].
    injection Hi as <-. rewrite length_app. simpl. split_and!; [lia| |lia].
    rewrite Hlen, depth_at_app_r. done.
  - rewrite last_snoc. by rewrite H0.
  - rewrite length_app. simpl. rewrite Nat.add_1_r, seq_S. simpl.
    rewrite filter_app. f_equal.
    + rewrite (HocMore.pd_roots _ _ Hp). apply filter_ext_elem.
      intros x Hx%elem_of_seq. rewrite parent_at_snoc.
      rewrite decide_False by lia. done.
    + rewrite filter_cons, decide_True; [done|].
      rewrite parent_at_snoc, decide_True by done. done.
  - intros a n [[Ha Hn]|[-> ->]]%lookup_snoc_Some.
    + rewrite length_app. simpl. rewrite Nat.add_1_r, seq_S. simpl.
      rewrite filter_app.
      rewrite (filter_none_elem _ [length h]).
      * rewrite app_nil_r, (HocMore.pd_children _ _ Hp a n Hn).
        apply filter_ext_elem.
        intros x Hx%elem_of_seq. rewrite parent_at_snoc.
        rewrite decide_False by lia. done.
      * intros x ->%list_elem_of_singleton.
        rewrite parent_at_snoc, decide_True by done. done.
    + simpl. symmetry. apply filter_none_elem.
      intros x Hx%elem_of_seq. rewrite parent_at_snoc.
      case_decide; [done|]. intros Hc.
      apply (parent_at_Some _ _ _ _ Hwf) in Hc. unfold h in *. lia.
Qed.

Lemma parsed_child ls st line p pn :
  wf_state st → HocMore.parsed ls st →
  let d := HocMore.line_depth line in
  let nm := HocMore.line_name line in
  let h := Hoc.st_heap st in
  (1 ≤ d ≤ length (Hoc.node_stack st))%nat →
  Hoc.node_stack st !! (d - 1)%nat = Some p → h !! p = Some pn →
  HocMore.parsed (ls ++ [line])
    {| Hoc.st_heap :=
         Hoc.add_child
           (h ++ [new_node nm (Some (Py.endswith nm [Py.SLASH])) (Some p)
                    (PosixPath.join (Hoc.full_path pn) [nm])])
           p (length h);
       Hoc.node_stack := take d (Hoc.node_stack st) ++ [length h];
       Hoc.roots := Hoc.roots st |}.
Proof.
  intros [Hwf Hst] Hp d nm h Hd Hsp Hpn.
  pose proof (HocMore.pd_length _ _ Hp) as Hlen. fold h in Hlen.
  pose proof (lookup_lt_Some _ _ _ Hpn) as Hplt.
  destruct (HocMore.pd_stack _ _ Hp _ _ Hsp) as (Hp1 & Hp2 & Hp3).
  set (node := new_node nm (Some (Py.endswith nm [Py.SLASH])) (Some p)
                 (PosixPath.join (Hoc.full_path pn) [nm])).
  assert (∀ a n, Hoc.add_child (h ++ [node]) p (length h) !! a = Some n →
    (a = p ∧ n = Hoc.add_child_obj (length h) pn)
    ∨ (a ≠ p ∧ (a < length h)%nat ∧ h !! a = Some n)
    ∨ (a = length h ∧ n = node)) as Hcases.
  { intros a n. rewrite (lookup_add_child _ _ _ _ _ Hpn).
    case_decide as Hap.
    - intros [= <-]. by left.
    - intros [[? ?]|[-> ->]]%lookup_snoc_Some; [right; left|right; right];
        done. }
  split; simpl.
  - rewrite length_add_child, !length_app. simpl. lia.
  - intros a n [[-> ->]|[(Hap & Ha & Hn)|[-> ->]]]%Hcases.
    + destruct (HocMore.pd_node _ _ Hp p pn Hpn) as (l & Hl & H1 & H2).
      exists l. split_and!; [by apply lookup_app_l_Some|done|].
      simpl. rewrite bool_decide_true; [by rewrite orb_true_r|].
      by destruct (Hoc.children pn).
    + destruct (HocMore.pd_node _ _ Hp a n Hn) as (l & Hl & H1 & H2).
      exists l. split_and!; [|done..]. by apply lookup_app_l_Some.
    + exists line. split_and!; [by apply list_lookup_middle|done|].
      simpl. by destruct (Py.endswith nm [Py.SLASH]).
  - intros a n [[-> ->]|[(Hap & Ha & Hn)|[-> ->]]]%Hcases.
    + pose proof (HocMore.pd_parent _ _ Hp p pn Hpn) as H. simpl.
      destruct (Hoc.parent pn).
      * apply nearest_above_app; [lia|done].
      * rewrite depth_at_app_l by lia. done.
    + pose proof (HocMore.pd_parent _ _ Hp a n Hn) as H.
      destruct (Hoc.parent n).
      * apply nearest_above_app; [lia|done].
      * rewrite depth_at_app_l by lia. done.
    + simpl. rewrite Hlen. split_and!.
      * lia.
      * rewrite depth_at_app_r, depth_at_app_l by lia. fold d. lia.
      * intros q Hq. rewrite depth_at_app_r, depth_at_app_l by lia.
        fold d. specialize (Hp3 q). lia.
  - intros i a Hi. rewrite length_app. simpl.
    apply lookup_snoc_Some in Hi as [[Hi1 Hi2]|[Hi1 ->]].
    + rewrite length_take in Hi1.
      rewrite lookup_take_lt in Hi2 by lia.
      destruct (HocMore.pd_stack _ _ Hp _ _ Hi2) as (H1 & H2 & H3).
      split_and!; [lia| by rewrite depth_at_app_l by lia|].
      intros q Hq. destruct (decide (q = length ls)) as [->|Hne].
      * rewrite depth_at_app_r. fold d. lia.
      * rewrite depth_at_app_l by lia. apply H3. lia.
    + rewrite length_take in Hi1. rewrite Hlen. split_and!; [lia| |lia].
      rewrite depth_at_app_r. fold d. lia.
  - rewrite last_snoc, length_app, length_take. simpl. fold d. lia.
  - rewrite length_add_child, length_app. simpl.
    rewrite Nat.add_1_r, seq_S. simpl.
    rewrite filter_app, (filter_none_elem _ [length h]).
    + rewrite app_nil_r, (HocMore.pd_roots _ _ Hp). apply filter_ext_elem.
      intros x Hx%elem_of_seq. rewrite (parent_at_add_child _ _ _ _ _ Hpn).
      rewrite decide_False by (unfold h in *; lia). done.
    + intros x ->%list_elem_of_singleton.
      rewrite (parent_at_add_child _ _ _ _ _ Hpn), decide_True by done. done.
  - assert (∀ a, filter (λ c, HocMore.parent_at
                (Hoc.add_child (h ++ [node]) p (length h)) c = Some a)
              (seq 0 (length (Hoc.add_child (h ++ [node]) p (length h))))
            = filter (λ c, HocMore.parent_at h c = Some a) (seq 0 (length h))
              ++ (if decide (a = p) then [length h] else [])) as Hfil.
    { intros a. rewrite length_add_child, length_app. simpl.
      rewrite Nat.add_1_r, seq_S. simpl. rewrite filter_app. f_equal.
      - apply filter_ext_elem.
        intros x Hx%elem_of_seq. rewrite (parent_at_add_child _ _ _ _ _ Hpn).
        rewrite decide_False by (unfold h in *; lia). done.
      - rewrite filter_cons, (parent_at_add_child _ _ _ _ _ Hpn).
        rewrite (decide_True (P := length h = length h)) by done. simpl.
        rewrite filter_nil. repeat case_decide; congruence. }
    intros a n [[-> ->]|[(Hap & Ha & Hn)|[-> ->]]]%Hcases; rewrite Hfil.
    + rewrite decide_True by done. simpl.
      by rewrite (HocMore.pd_children _ _ Hp p pn Hpn).
    + rewrite decide_False by done.
      by rewrite app_nil_r, (HocMore.pd_children _ _ Hp a n Hn).
    + rewrite decide_False by lia. rewrite app_nil_r. simpl.
      symmetry. apply filter_none_elem.
      intros x Hx%elem_of_seq Hc.
      apply (parent_at_Some _ _ _ _ Hwf) in Hc. unfold h in *. lia.
Qed.

Lemma parse_lines_parsed lines :
  Forall (λ l, Py.NL ∉ l) lines →
  ∀ ls st st', wf_state st → HocMore.parsed ls st →
    Hoc.parse_lines st lines = Ok st' →
    HocMore.parsed (ls ++ List.filter HocMore.nonblank lines) st'.
Proof.
  induction 1 as [|line lines Hnl _ IH]; intros ls st st' Hwf Hp; simpl.
  - intros [= <-]. by rewrite app_nil_r.
  - destruct (HocMore.nonblank line) eqn:Hb.
    + destruct (Hoc.parse_line st line) as [st1|e] eqn:E; simpl; [|done].
      intros Hrest. pose proof (parse_line_wf _ _ _ Hwf E) as Hwf1.
      rewrite cons_middle, app_assoc. apply (IH _ st1); [done| |done].
      destruct (parse_line_cases st line Hwf Hnl Hb)
        as [[H0 E']|[[Hd E']|[Hd (p & pn & Hsp & Hpn & E')]]];
        rewrite E' in E; [|done|]; injection E as <-.
      * by apply parsed_root.
      * by apply parsed_child.
    + rewrite parse_line_blank by done. simpl. by apply IH.
Qed.

Lemma parse_tree_structure_nonblank s h roots :
  Hoc.parse_tree_structure s = Ok (h, roots) →
  Py.truthy (Py.strip s) = true.
Proof.
  unfold Hoc.parse_tree_structure. cbv zeta.
  rewrite any_line_nonblank. by destruct (Py.truthy (Py.strip s)).
Qed.

Lemma parse_tree_structure_parsed s h roots :
  Hoc.parse_tree_structure s = Ok (h, roots) →
  ∃ st, Hoc.st_heap st = h ∧ Hoc.roots st = roots
    ∧ HocMore.parsed (List.filter HocMore.nonblank (HocMore.input_lines s)) st.
Proof.
  intros H. pose proof (parse_tree_structure_nonblank _ _ _ H) as Hs.
  rewrite parse_tree_structure_lines in H by done.
  destruct (Hoc.parse_lines Hoc.init (HocMore.input_lines s)) as [st|e] eqn:E;
    simpl in H; [|done].
  injection H as <- <-. exists st. split_and!; [done..|].
  apply (parse_lines_parsed _ (input_lines_no_newline s) [] _ _ wf_init
           parsed_init E).
Qed.

(** The first line of a non-blank input is not blank, also after its
    tabs are replaced. *)
Lemma first_input_line s :
  Py.truthy (Py.strip s) = true →
  ∃ line rest, HocMore.input_lines s = line :: rest
    ∧ HocMore.nonblank line = true.
Proof.
  intros (c & l & rest & E & Hc)%first_line.
  unfold HocMore.input_lines. rewrite E. simpl.
  eexists _, _. split; [done|].
  assert (c ≠ Py.TAB) as Hct by (by intros ->).
  rewrite bool_decide_false by done. simpl.
  by apply strip_nonspace_head.
Qed.

(** * Further properties of [hoc]'s parser *)

(** X1.  [parse_tree_structure] raises the error of the empty input
    exactly for the inputs that hold white space only (the empty text
    among them): an input with one visible character never gets this
    error, and a blank one gets no other result. *)
Theorem X1_blank_input_is_refused s :
  Hoc.parse_tree_structure s = Raise (ValueError EmptyInput)
  ↔ Py.truthy (Py.strip s) = false.
Proof.
  split.
  - intros H. destruct (Py.truthy (Py.strip s)) eqn:E; [|done].
    rewrite parse_tree_structure_lines in H by done.
    pose proof (parse_lines_outcome _ (input_lines_no_newline s) _ wf_init)
      as Ho.
    change (length (Hoc.node_stack Hoc.init)) with 0%nat in Ho.
    destruct (HocMore.first_inconsistent 0 (HocMore.input_lines s))
      as [line|].
    + by rewrite Ho in H.
    + destruct Ho as [st Ho]. by rewrite Ho in H.
  - intros E. unfold Hoc.parse_tree_structure. cbv zeta.
    by rewrite any_line_nonblank, E.
Qed.

Lemma X1_witness :
  Hoc.parse_tree_structure (U "  " ++ [Py.NL; Py.TAB]) = Raise (ValueError EmptyInput).
Proof. apply X1_blank_input_is_refused. reflexivity. Defined.

(** X2.  For an input that is not blank the parser has two outcomes
    only.  It raises the indentation error, naming the first non-blank
    line whose depth is greater than the depth of the non-blank line
    before it plus one (greater than 0 for the first line); or, when
    there is no such line, it returns the roots.  The invalid-line
    error, an [IndexError] of [node_stack[-1]] and every other
    exception are excluded. *)
Theorem X2_only_indentation_errors s :
  Py.truthy (Py.strip s) = true →
  (∀ line, HocMore.first_inconsistent 0 (HocMore.input_lines s) = Some line →
     Hoc.parse_tree_structure s
     = Raise (ValueError (InconsistentIndentation line)))
  ∧ (HocMore.first_inconsistent 0 (HocMore.input_lines s) = None →
     ∃ h roots, Hoc.parse_tree_structure s = Ok (h, roots)).
Proof.
  intros E. rewrite parse_tree_structure_lines by done.
  pose proof (parse_lines_outcome _ (input_lines_no_newline s) _ wf_init)
    as Ho.
  change (length (Hoc.node_stack Hoc.init)) with 0%nat in Ho.
  split.
  - intros line Hl. rewrite Hl in Ho. by rewrite Ho.
  - intros Hl. rewrite Hl in Ho. destruct Ho as [st ->]. simpl. eauto.
Qed.

Lemma X2_witness :
  Hoc.parse_tree_structure (U "a" ++ [Py.NL] ++ U "        b" ++ [Py.NL] ++ U "c")
  = Raise (ValueError (InconsistentIndentation (U "        b")))
  ∧ ∃ h roots, Hoc.parse_tree_structure Examples.example1 = Ok (h, roots).
Proof.
  split.
  - apply (X2_only_indentation_errors
             (U "a" ++ [Py.NL] ++ U "        b" ++ [Py.NL] ++ U "c"));
      vm_compute; reflexivity.
  - apply (X2_only_indentation_errors Examples.example1);
      vm_compute; reflexivity.
Defined.

(** X3.  A successful parse makes one object for every non-blank line
    of the input, in the order of the lines and under the name that the
    pattern takes from the line (tabs replaced); and an object is a
    directory exactly when its name ends with the separator or it has
    children. *)
Theorem X3_one_object_per_line s h roots :
  Hoc.parse_tree_structure s = Ok (h, roots) →
  map Hoc.name h
  = map HocMore.line_name
      (List.filter HocMore.nonblank (HocMore.input_lines s))
  ∧ ∀ n, n ∈ h →
      Hoc.is_dir n
      = Py.endswith (Hoc.name n) [Py.SLASH]
        || bool_decide (Hoc.children n ≠ []).
Proof.
  intros (st & <- & <- & Hp)%parse_tree_structure_parsed. split.
  - apply list_eq. intros a.
    change (map Hoc.name (Hoc.st_heap st))
      with (Hoc.name <$> Hoc.st_heap st).
    change (map HocMore.line_name ?l) with (HocMore.line_name <$> l).
    rewrite !list_lookup_fmap.
    destruct (Hoc.st_heap st !! a) as [n|] eqn:E; simpl.
    + destruct (HocMore.pd_node _ _ Hp a n E) as (l & -> & -> & _). done.
    + apply lookup_ge_None in E. rewrite (HocMore.pd_length _ _ Hp) in E.
      by rewrite lookup_ge_None_2.
  - intros n (a & Ha)%list_elem_of_lookup_1.
    by destruct (HocMore.pd_node _ _ Hp a n Ha) as (l & _ & _ & ?).
Qed.

Lemma X3_witness :
  map Hoc.name Examples.example1_heap
  = map HocMore.line_name
      (List.filter HocMore.nonblank (HocMore.input_lines Examples.example1))
  ∧ ∀ n, n ∈ Examples.example1_heap →
      Hoc.is_dir n
      = Py.endswith (Hoc.name n) [Py.SLASH]
        || bool_decide (Hoc.children n ≠ []).
Proof.
  apply (X3_one_object_per_line Examples.example1 _ [0%nat]).
  vm_compute. reflexivity.
Defined.

(** X4.  In the heap of a successful parse an object has no parent
    exactly when its line has depth 0, and the parent of any other
    object is the object of the nearest line above it that lies one
    level higher: the parent's line has the depth of the object's line
    minus one, and no line between the two is less deep than the
    object's line. *)
Theorem X4_parent_is_nearest_line_above s h roots a n :
  Hoc.parse_tree_structure s = Ok (h, roots) →
  h !! a = Some n →
  let ls := List.filter HocMore.nonblank (HocMore.input_lines s) in
  match Hoc.parent n with
  | None => HocMore.depth_at ls a = 0%nat
  | Some p => HocMore.nearest_above ls p a
  end.
Proof.
  intros (st & <- & <- & Hp)%parse_tree_structure_parsed Ha.
  apply (HocMore.pd_parent _ _ Hp a n Ha).
Qed.

Lemma X4_witness :
  HocMore.nearest_above
    (List.filter HocMore.nonblank (HocMore.input_lines Examples.example1))
    1 2.
Proof.
  apply (X4_parent_is_nearest_line_above Examples.example1
           Examples.example1_heap [0%nat] 2
           {| Hoc.name := U "b.txt"; Hoc.parent := Some 1%nat;
              Hoc.children := []; Hoc.is_dir := false;
              Hoc.full_path := U "root/a/b.txt" |});
    vm_compute; reflexivity.
Defined.

(** X5.  The list that a successful parse returns is not empty: it
    holds exactly the objects without parent, in the order of their
    lines, and the object of the first line is its first element.  The
    children of every object are exactly the objects whose parent it
    is, each once, in the order of their lines. *)
Theorem X5_roots_and_children_in_line_order s h roots :
  Hoc.parse_tree_structure s = Ok (h, roots) →
  roots = filter (λ a, HocMore.parent_at h a = None) (seq 0 (length h))
  ∧ (∃ rest, roots = 0%nat :: rest)
  ∧ ∀ a n, h !! a = Some n →
      Hoc.children n
      = filter (λ c, HocMore.parent_at h c = Some a) (seq 0 (length h)).
Proof.
  intros H. pose proof (parse_tree_structure_wf _ _ _ H) as Hwf.
  pose proof (parse_tree_structure_nonblank _ _ _ H) as Hs.
  destruct (parse_tree_structure_parsed _ _ _ H) as (st & <- & <- & Hp).
  split_and!.
  - apply (HocMore.pd_roots _ _ Hp).
  - rewrite (HocMore.pd_roots _ _ Hp), (HocMore.pd_length _ _ Hp).
    destruct (first_input_line s Hs) as (line & rest & -> & Hb).
    simpl. rewrite Hb. simpl. rewrite filter_cons, decide_True; [by eexists|].
    destruct (HocMore.parent_at (Hoc.st_heap st) 0) as [p|] eqn:E; [|done].
    apply (parent_at_Some _ _ _ _ Hwf) in E. lia.
  - apply (HocMore.pd_children _ _ Hp).
Qed.

Lemma X5_witness :
  [0%nat] = filter (λ a, HocMore.parent_at Examples.example1_heap a = None)
              (seq 0 (length Examples.example1_heap))
  ∧ (∃ rest, [0%nat] = 0%nat :: rest)
  ∧ ∀ a n, Examples.example1_heap !! a = Some n →
      Hoc.children n
      = filter (λ c, HocMore.parent_at Examples.example1_heap c = Some a)
          (seq 0 (length Examples.example1_heap)).
Proof.
  apply (X5_roots_and_children_in_line_order Examples.example1).
  vm_compute. reflexivity.
Defined.

(** * Tabs *)

Lemma replace_app old new s t :
  Py.replace old new (s ++ t) = Py.replace old new s ++ Py.replace old new t.
Proof.
  induction s as [|c s IH]; simpl; [done|]. by rewrite IH, app_assoc.
Qed.

Lemma replace_rev old new s :
  rev (Py.replace old new s) = Py.replace old (rev new) (rev s).
Proof.
  induction s as [|c s IH]; simpl; [done|].
  rewrite rev_app_distr, IH, replace_app. simpl. rewrite app_nil_r.
  by destruct (bool_decide (c = old)).
Qed.

Lemma replace_id old new s : old ∉ s → Py.replace old new s = s.
Proof.
  induction s as [|c s IH]; simpl; [done|].
  intros [Hc Hs]%not_elem_of_cons.
  rewrite bool_decide_false by done. simpl. by rewrite IH.
Qed.

Lemma replace_gone old new s : old ∉ new → old ∉ Py.replace old new s.
Proof.
  intros Hn. induction s as [|c s IH]; simpl; [apply not_elem_of_nil|].
  rewrite elem_of_app. intros [H|H]; [|done].
  case_bool_decide; [done|]. apply list_elem_of_singleton in H. done.
Qed.

Lemma untab_idemp s : HocMore.untab (HocMore.untab s) = HocMore.untab s.
Proof.
  apply replace_id, replace_gone.
  intros H. repeat (apply elem_of_cons in H as [H|H]; [done|]).
  by apply elem_of_nil in H.
Qed.

Lemma isspace_SP : Py.isspace Py.SP = true.
Proof. reflexivity. Qed.

Lemma isspace_TAB : Py.isspace Py.TAB = true.
Proof. reflexivity. Qed.

Lemma lstrip_untab s : Py.lstrip (HocMore.untab s) = HocMore.untab (Py.lstrip s).
Proof.
  induction s as [|c s IH]; [done|].
  cbn [Py.replace Py.lstrip]. case_bool_decide as Hc.
  - subst. cbn [app Py.lstrip]. rewrite !isspace_SP, isspace_TAB. exact IH.
  - cbn [app Py.lstrip]. destruct (Py.isspace c); [exact IH|].
    cbn [Py.replace]. by rewrite bool_decide_false.
Qed.

Lemma rev_untab s : rev (HocMore.untab s) = HocMore.untab (rev s).
Proof. by rewrite replace_rev. Qed.

Lemma strip_untab s : Py.strip (HocMore.untab s) = HocMore.untab (Py.strip s).
Proof.
  unfold Py.strip, Py.rstrip.
  by rewrite lstrip_untab, rev_untab, lstrip_untab, rev_untab.
Qed.

Lemma truthy_untab s : Py.truthy (HocMore.untab s) = Py.truthy s.
Proof. destruct s as [|c s]; simpl; [done|]. by case_bool_decide. Qed.

Lemma split_cons_other sep c s :
  c ≠ sep →
  Py.split sep (c :: s)
  = match Py.split sep s with
    | l :: ls => (c :: l) :: ls
    | [] => [[c]]
    end.
Proof. intros H. simpl. by rewrite bool_decide_false. Qed.

Lemma split_untab s :
  Py.split Py.NL (HocMore.untab s) = map HocMore.untab (Py.split Py.NL s).
Proof.
  induction s as [|c s IH]; [done|].
  cbn [Py.replace]. case_bool_decide as Hc.
  - subst. cbn [app].
    rewrite !split_cons_other by done. rewrite IH.
    pose proof (split_not_nil Py.NL s) as Hne.
    destruct (Py.split Py.NL s) as [|l ls]; [done|]. simpl. done.
  - cbn [app]. destruct (decide (c = Py.NL)) as [->|Hnl].
    + simpl. by rewrite IH.
    + rewrite !split_cons_other by done. rewrite IH.
      pose proof (split_not_nil Py.NL s) as Hne.
      destruct (Py.split Py.NL s) as [|l ls]; [done|]. simpl.
      by rewrite bool_decide_false.
Qed.

Lemma input_lines_untab s :
  HocMore.input_lines (HocMore.untab s) = HocMore.input_lines s.
Proof.
  unfold HocMore.input_lines.
  rewrite strip_untab, split_untab, map_map.
  apply map_ext. intros l. apply untab_idemp.
Qed.

(** X6.  A tab reads as four spaces wherever it stands in the input,
    inside a name as well as in the indentation: the parser gives the
    same result, be it the heap and the roots or the error with the
    line it names, for an input and for the input with four spaces in
    the place of every tab. *)
Theorem X6_tabs_read_as_four_spaces s :
  Hoc.parse_tree_structure (Py.replace Py.TAB [Py.SP; Py.SP; Py.SP; Py.SP] s)
  = Hoc.parse_tree_structure s.
Proof.
  destruct (Py.truthy (Py.strip s)) eqn:E.
  - rewrite !parse_tree_structure_lines, ?input_lines_untab; [done..|].
    by rewrite strip_untab, truthy_untab.
  - unfold Hoc.parse_tree_structure. cbv zeta.
    by rewrite !any_line_nonblank, strip_untab, truthy_untab, E.
Qed.

(** * What a traversal never does *)

Lemma entry_kept_refl e : HocMore.entry_kept e e.
Proof. destruct e; simpl; auto. Qed.

Lemma entry_kept_trans e1 e2 e3 :
  HocMore.entry_kept e1 e2 → HocMore.entry_kept e2 e3 →
  HocMore.entry_kept e1 e3.
Proof.
  destruct e1, e2, e3; simpl; try done.
  intros [->| ->] [->| ->]; auto.
Qed.

Lemma nothing_lost_refl w : HocMore.nothing_lost w w.
Proof.
  split_and!; [done..|]. intros k e He. exists e. split; [done|].
  apply entry_kept_refl.
Qed.

Lemma nothing_lost_trans w1 w2 w3 :
  HocMore.nothing_lost w1 w2 → HocMore.nothing_lost w2 w3 →
  HocMore.nothing_lost w1 w3.
Proof.
  intros (Hc1 & Hu1 & H1) (Hc2 & Hu2 & H2). split_and!; [congruence..|].
  intros k e (e' & He' & Hk1)%H1. destruct (H2 _ _ He') as (e'' & He'' & Hk2).
  exists e''. split; [done|]. by eapply entry_kept_trans.
Qed.

Lemma nothing_lost_insert w w' k e' :
  OS.cwd w' = OS.cwd w → OS.umask w' = OS.umask w →
  OS.fs w' = <[k := e']> (OS.fs w) →
  (∀ e, OS.fs w !! k = Some e → HocMore.entry_kept e e') →
  HocMore.nothing_lost w w'.
Proof.
  intros Hc Hu Hfs Hk. split_and!; [done..|].
  intros k0 e He. rewrite Hfs, lookup_insert. case_decide as Hd.
  - subst. exists e'. split; [done|]. by apply Hk.
  - exists e. split; [done|]. apply entry_kept_refl.
Qed.

Lemma makedirs_lost p w r w' :
  OS.makedirs p w = (r, w') → HocMore.nothing_lost w w'.
Proof.
  intros ([Hc Hu] & _ & H)%makedirs_inv. destruct r as [[]|e].
  - destruct H as (k & _ & _ & Hkeep & _). split_and!; [done..|].
    intros k' e He. exists e. split; [by apply Hkeep|apply entry_kept_refl].
  - subst. apply nothing_lost_refl.
Qed.

Lemma open_w_lost p w r w' :
  OS.open_w p w = (r, w') → HocMore.nothing_lost w w'.
Proof.
  intros ([Hc Hu] & _ & H)%open_w_inv. destruct r as [[]|e].
  - destruct H as (k & md & _ & _ & Hfs & Hold).
    apply (nothing_lost_insert _ _ _ _ Hc Hu Hfs).
    intros e He. destruct Hold as [[c Hold]|[Hold _]]; [|congruence].
    assert (e = OS.File md c) as -> by congruence. simpl. auto.
  - subst. apply nothing_lost_refl.
Qed.

Lemma chmod_lost p mode w r w' :
  OS.chmod p mode w = (r, w') → HocMore.nothing_lost w w'.
Proof.
  intros ([Hc Hu] & _ & H)%chmod_inv. destruct r as [[]|e].
  - destruct H as (k & _ & [(md & Hd & Hfs)|(md & c & Hf & _ & Hfs)]);
      apply (nothing_lost_insert _ _ _ _ Hc Hu Hfs); intros e He;
      rewrite He in *; simplify_eq; simpl; auto.
  - subst. apply nothing_lost_refl.
Qed.

Lemma apply_permissions_lost p perm w r w' :
  Hoc.apply_permissions p perm w = (r, w') → HocMore.nothing_lost w w'.
Proof.
  destruct perm as [mode|]; simpl.
  - intros ([Hc Hu] & [[_ H]|[Hfs _]])%set_permissions_inv.
    + by eapply chmod_lost.
    + split_and!; [done..|]. intros k e He. exists e. rewrite Hfs.
      split; [done|apply entry_kept_refl].
  - intros [= <- <-]. apply nothing_lost_refl.
Qed.

Lemma bind_lost {A B} (m : OS.M A) (f : A → OS.M B) :
  (∀ w r w', m w = (r, w') → HocMore.nothing_lost w w') →
  (∀ a w r w', f a w = (r, w') → HocMore.nothing_lost w w') →
  ∀ w r w', OS.bind m f w = (r, w') → HocMore.nothing_lost w w'.
Proof.
  intros Hm Hf w r w'. unfold OS.bind. destruct (m w) as [[a|e] w1] eqn:E.
  - intros H. eapply nothing_lost_trans; [by eapply Hm|by eapply Hf].
  - intros [= <- <-]. by eapply Hm.
Qed.

Lemma visit_dir_lost p dp w r w' :
  (OS.makedirs p ;; Hoc.apply_permissions p dp) w = (r, w') →
  HocMore.nothing_lost w w'.
Proof.
  revert w r w'. apply bind_lost.
  - apply makedirs_lost.
  - intros _. apply apply_permissions_lost.
Qed.

Lemma visit_file_lost p fp w r w' :
  (OS.makedirs (PosixPath.dirname p) ;; OS.open_w p ;;
   Hoc.apply_permissions p fp) w = (r, w') →
  HocMore.nothing_lost w w'.
Proof.
  revert w r w'. apply bind_lost; [apply makedirs_lost|].
  intros _. apply bind_lost; [apply open_w_lost|].
  intros _. apply apply_permissions_lost.
Qed.

(** X7.  Whatever the tree and however the traversal ends, with
    success or with an exception half way, no entry of the file system
    is deleted and none changes its kind: a directory that was there is
    still a directory, a file that was there is still a file, with the
    content it had or emptied; the working directory and the umask are
    as before. *)
Theorem X7_nothing_is_deleted base h nodes dp fp w :
  HocMore.nothing_lost w
    (snd (Hoc.create_structure_from_tree base h nodes dp fp w)).
Proof.
  destruct (Hoc.create_structure_from_tree base h nodes dp fp w)
    as [r w'] eqn:E. simpl.
  revert E. apply create_structure_from_tree_rel.
  - apply nothing_lost_refl.
  - apply nothing_lost_trans.
  - intros p. apply visit_dir_lost.
  - intros p. apply visit_file_lost.
Qed.

(** * Invariants of a traversal

    A property of worlds that the visit of every object of the heap
    keeps is kept by the traversal, and an exception that leaves the
    traversal comes from one of the visits, or says that the model was
    left. *)
Section traversal_inv.
Context (h : list Hoc.TreeNode) (base : Py.str) (dp fp : option N).
Context (I : OS.world → Prop) (E : exn → Prop).
Hypothesis E_unmodelled : E Unmodelled.
Hypothesis I_dir : ∀ n w r w', n ∈ h → I w →
  (OS.makedirs (PosixPath.join base [Hoc.full_path n]) ;;
   Hoc.apply_permissions (PosixPath.join base [Hoc.full_path n]) dp) w
  = (r, w') →
  I w' ∧ ∀ e, r = Raise e → E e.
Hypothesis I_file : ∀ n w r w', n ∈ h → I w →
  (OS.makedirs (PosixPath.dirname (PosixPath.join base [Hoc.full_path n])) ;;
   OS.open_w (PosixPath.join base [Hoc.full_path n]) ;;
   Hoc.apply_permissions (PosixPath.join base [Hoc.full_path n]) fp) w
  = (r, w') →
  I w' ∧ ∀ e, r = Raise e → E e.

Lemma for_each_inv {A} (xs : list A) (body : A → OS.M unit) :
  (∀ x w r w', x ∈ xs → I w → body x w = (r, w') →
     I w' ∧ ∀ e, r = Raise e → E e) →
  ∀ w r w', I w → OS.for_each xs body w = (r, w') →
    I w' ∧ ∀ e, r = Raise e → E e.
Proof.
  induction xs as [|x xs IH]; intros Hb w r w' HI; simpl.
  - intros [= <- <-]. by split.
  - unfold OS.bind. destruct (body x w) as [[[]|e] w1] eqn:Ex.
    + destruct (Hb _ _ _ _ (list_elem_of_here _ _) HI Ex) as [HI1 _].
      apply IH; [|done]. intros y w0 r0 w0' Hy. apply Hb.
      by apply list_elem_of_further.
    + intros [= <- <-].
      exact (Hb _ _ _ _ (list_elem_of_here _ _) HI Ex).
Qed.

Lemma create_node_structure_inv fuel : ∀ a w r w',
  I w → Hoc.create_node_structure fuel h base a dp fp w = (r, w') →
  I w' ∧ ∀ e, r = Raise e → E e.
Proof.
  induction fuel as [|fuel IH]; intros a w r w' HI.
  - intros [= <- <-]. split; [done|]. by intros e [= <-].
  - cbn [Hoc.create_node_structure].
    destruct (h !! a) as [n|] eqn:Ha.
    2:{ intros [= <- <-]. split; [done|]. by intros e [= <-]. }
    apply list_elem_of_lookup_2 in Ha.
    change (Hoc.get_path n) with (Hoc.full_path n).
    destruct (Hoc.is_dir n || bool_decide (Hoc.children n ≠ [])).
    + pose proof (I_dir n w) as Hd. unfold OS.bind in *.
      destruct (OS.makedirs (PosixPath.join base [Hoc.full_path n]) w)
        as [[[]|e] w1].
      * destruct (Hoc.apply_permissions
                    (PosixPath.join base [Hoc.full_path n]) dp w1)
          as [[[]|e] w2].
        -- intros H. destruct (Hd _ _ Ha HI eq_refl) as [HI2 _].
           eapply for_each_inv; [|exact HI2|exact H].
           intros c w0 r0 w0' _ HI0 Hc. exact (IH _ _ _ _ HI0 Hc).
        -- intros [= <- <-]. exact (Hd _ _ Ha HI eq_refl).
      * intros [= <- <-]. exact (Hd _ _ Ha HI eq_refl).
    + by apply I_file.
Qed.

Lemma create_structure_from_tree_inv nodes w r w' :
  I w → Hoc.create_structure_from_tree base h nodes dp fp w = (r, w') →
  I w' ∧ ∀ e, r = Raise e → E e.
Proof.
  apply for_each_inv. intros c w0 r0 w0' _ HI0 Hc.
  exact (create_node_structure_inv _ _ _ _ _ HI0 Hc).
Qed.
End traversal_inv.

(** * The components of joined paths and of directory names *)

Lemma split_app_sep sep s t :
  Py.split sep (s ++ sep :: t) = Py.split sep s ++ Py.split sep t.
Proof.
  induction s as [|c s IH]; simpl.
  - by rewrite bool_decide_true.
  - case_bool_decide; [by rewrite IH|].
    rewrite IH. pose proof (split_not_nil sep s).
    by destruct (Py.split sep s).
Qed.








Lemma take_drop_to_sep r :
  r = PosixPath.take_to_sep r ++ PosixPath.drop_to_sep r.
Proof.
  induction r as [|c r IH]; simpl; [done|].
  case_bool_decide; [done|]. simpl. by rewrite <-IH.
Qed.

Lemma drop_to_sep_head r :
  PosixPath.drop_to_sep r = []
  ∨ ∃ r', PosixPath.drop_to_sep r = Py.SLASH :: r'.
Proof.
  induction r as [|c r IH]; simpl; [by left|].
  case_bool_decide; [|done]. subst. right. by eexists.
Qed.

Lemma head_basename p : p = PosixPath.head_of p ++ PosixPath.basename p.
Proof.
  unfold PosixPath.head_of, PosixPath.basename.
  rewrite <-rev_app_distr, <-take_drop_to_sep. by rewrite rev_involutive.
Qed.

Lemma head_of_cases p :
  PosixPath.head_of p = [] ∨ ∃ h', PosixPath.head_of p = h' ++ [Py.SLASH].
Proof.
  unfold PosixPath.head_of.
  destruct (drop_to_sep_head (rev p)) as [->|[r' ->]]; [by left|].
  right. exists (rev r'). done.
Qed.




(** What [OS.resolve] answers when it answers. *)
Lemma resolve_Ok w p k :
  OS.resolve w p = Ok k →
  p ≠ []
  ∧ k = (if Py.startswith p [Py.SLASH] then [] else OS.cwd w)
        ++ OS.components p.
Proof.
  unfold OS.resolve. case_bool_decide; [done|].
  destruct p as [|c p]; [done|]. simpl negb. cbv iota.
  case_bool_decide; [done|]. by intros [= <-].
Qed.



(** * The entries that a call leaves alone *)







(** * Below the base path *)

Section below.
Context (kb X : list (list N)).
Hypothesis kb_X : kb `prefix_of` X.



End below.







(** * What the calls raise and print *)

Lemma resolve_raises w p e :
  OS.resolve w p = Raise e →
  (∃ er pp, e = OSError er pp) ∨ e = Unmodelled
  ∨ (e = ValueErrorMsg (U "embedded null byte") ∧ 0 ∈ p).
Proof.
  unfold OS.resolve. case_bool_decide as H0.
  - intros [= <-]. by right; right.
  - destruct (negb (Py.truthy p)); [intros [= <-]; left; eauto|].
    case_bool_decide; [|done]. intros [= <-]. by right; left.
Qed.

Lemma makedirs_from_raises mode p todo : ∀ pre m e,
  OS.makedirs_from mode p pre todo m = Raise e → ∃ er pp, e = OSError er pp.
Proof.
  assert (∀ b k m e, OS.ensure_dir mode p b k m = Raise e →
    ∃ er pp, e = OSError er pp) as Hens.
  { intros b k m e. unfold OS.ensure_dir.
    destruct (m !! k) as [[?|? ?]|]; [done| |done]. intros [= <-]. eauto. }
  induction todo as [|c todo IH]; intros pre m e; simpl; [apply Hens|].
  destruct (OS.ensure_dir mode p false pre m) as [m1|e1] eqn:E; simpl.
  - apply IH.
  - intros [= <-]. by eapply Hens.
Qed.

Lemma makedirs_raises p w e w' :
  OS.makedirs p w = (Raise e, w') →
  (∃ er pp, e = OSError er pp) ∨ e = Unmodelled
  ∨ (e = ValueErrorMsg (U "embedded null byte") ∧ 0 ∈ p).
Proof.
  unfold OS.makedirs. destruct (OS.resolve w p) as [k|e1] eqn:Ek.
  - destruct (OS.makedirs_from _ p [] k (OS.fs w)) as [m|e1] eqn:Em;
      intros [= <- <-]. left. by eapply makedirs_from_raises.
  - intros [= <- <-]. by eapply resolve_raises.
Qed.

Lemma resolve_no_exit w p e : OS.resolve w p = Raise e → HocMore.no_exit e.
Proof.
  intros [(? & ? & ->)|[->|[-> _]]]%resolve_raises; done.
Qed.

Lemma makedirs_no_exit p w e w' :
  OS.makedirs p w = (Raise e, w') → HocMore.no_exit e.
Proof.
  intros [(? & ? & ->)|[->|[-> _]]]%makedirs_raises; done.
Qed.

Lemma open_w_no_exit p w e w' :
  OS.open_w p w = (Raise e, w') → HocMore.no_exit e.
Proof.
  unfold OS.open_w. destruct (OS.resolve w p) as [k|e1] eqn:Ek.
  - destruct (OS.names_dir p); [by intros [= <- <-]|].
    destruct (OS.fs w !! removelast k) as [[?|? ?]|];
      try by intros [= <- <-].
    destruct (OS.fs w !! k) as [[?|? ?]|]; by intros [= <- <-].
  - intros [= <- <-]. by eapply resolve_no_exit.
Qed.

Lemma chmod_no_exit p mode w e w' :
  OS.chmod p mode w = (Raise e, w') → HocMore.no_exit e.
Proof.
  unfold OS.chmod. destruct (OS.resolve w p) as [k|e1] eqn:Ek.
  - destruct (OS.fs w !! k) as [[?|? ?]|]; try by intros [= <- <-].
    destruct (OS.names_dir p); by intros [= <- <-].
  - intros [= <- <-]. by eapply resolve_no_exit.
Qed.

(** [set_permissions] prints at most one line, and lets pass only what
    is not an [OSError]. *)
Lemma apply_permissions_report p perm w r w' :
  Hoc.apply_permissions p perm w = (r, w') →
  (∃ out, OS.stdout w' = OS.stdout w ++ out)
  ∧ ∀ e, r = Raise e → HocMore.no_exit e.
Proof.
  destruct perm as [mode|]; simpl.
  2:{ intros [= <- <-]. split; [by exists []; rewrite app_nil_r|done]. }
  unfold Hoc.set_permissions, OS.try_except_OSError.
  destruct (OS.chmod p mode w) as [[[]|e] w1] eqn:E.
  - intros [= <- <-]. apply chmod_inv in E as (_ & -> & _).
    split; [by exists []; rewrite app_nil_r|done].
  - pose proof (chmod_no_exit _ _ _ _ _ E) as Hne.
    apply chmod_inv in E as (_ & _ & ->).
    destruct e; intros [= <- <-];
      try (split; [by exists []; rewrite app_nil_r|by intros ? [= <-]]).
    split; [by eexists|done].
Qed.

Lemma visit_dir_report p dp w r w' :
  (OS.makedirs p ;; Hoc.apply_permissions p dp) w = (r, w') →
  (∃ out, OS.stdout w' = OS.stdout w ++ out)
  ∧ ∀ e, r = Raise e → HocMore.no_exit e.
Proof.
  unfold OS.bind. destruct (OS.makedirs p w) as [[[]|e] w1] eqn:E.
  - pose proof (makedirs_inv _ _ _ _ E) as (_ & <- & _).
    apply apply_permissions_report.
  - intros [= <- <-]. pose proof (makedirs_inv _ _ _ _ E) as (_ & -> & _).
    split; [by exists []; rewrite app_nil_r|].
    intros ? [= <-]. by eapply makedirs_no_exit.
Qed.

Lemma visit_file_report p fp w r w' :
  (OS.makedirs (PosixPath.dirname p) ;; OS.open_w p ;;
   Hoc.apply_permissions p fp) w = (r, w') →
  (∃ out, OS.stdout w' = OS.stdout w ++ out)
  ∧ ∀ e, r = Raise e → HocMore.no_exit e.
Proof.
  unfold OS.bind.
  destruct (OS.makedirs (PosixPath.dirname p) w) as [[[]|e] w1] eqn:E1.
  2:{ intros [= <- <-]. pose proof (makedirs_inv _ _ _ _ E1) as (_ & -> & _).
      split; [by exists []; rewrite app_nil_r|].
      intros ? [= <-]. by eapply makedirs_no_exit. }
  pose proof (makedirs_inv _ _ _ _ E1) as (_ & <- & _).
  destruct (OS.open_w p w1) as [[[]|e] w2] eqn:E2.
  2:{ intros [= <- <-]. pose proof (open_w_inv _ _ _ _ E2) as (_ & -> & _).
      split; [by exists []; rewrite app_nil_r|].
      intros ? [= <-]. by eapply open_w_no_exit. }
  pose proof (open_w_inv _ _ _ _ E2) as (_ & <- & _).
  apply apply_permissions_report.
Qed.

Lemma create_structure_from_tree_report base h nodes dp fp w r w' :
  Hoc.create_structure_from_tree base h nodes dp fp w = (r, w') →
  (∃ out, OS.stdout w' = OS.stdout w ++ out)
  ∧ ∀ e, r = Raise e → HocMore.no_exit e.
Proof.
  apply (create_structure_from_tree_inv h base dp fp
           (λ w1, ∃ out, OS.stdout w1 = OS.stdout w ++ out) HocMore.no_exit).
  - done.
  - intros n w1 r1 w1' _ [out Hout] Hv.
    apply visit_dir_report in Hv as [[out' Hout'] Hr]. split; [|done].
    exists (out ++ out'). by rewrite Hout', Hout, app_assoc.
  - intros n w1 r1 w1' _ [out Hout] Hv.
    apply visit_file_report in Hv as [[out' Hout'] Hr]. split; [|done].
    exists (out ++ out'). by rewrite Hout', Hout, app_assoc.
  - exists []. by rewrite app_nil_r.
Qed.

Lemma parse_tree_structure_raises s e :
  Hoc.parse_tree_structure s = Raise e → ∃ pe, e = ValueError pe.
Proof.
  destruct (Py.truthy (Py.strip s)) eqn:E.
  - rewrite parse_tree_structure_lines by done.
    pose proof (parse_lines_outcome _ (input_lines_no_newline s) _ wf_init)
      as Ho.
    destruct (HocMore.first_inconsistent _ _) as [line|].
    + rewrite Ho. simpl. intros [= <-]. eauto.
    + destruct Ho as [st ->]. done.
  - unfold Hoc.parse_tree_structure. cbv zeta.
    rewrite any_line_nonblank, E. simpl. intros [= <-]. eauto.
Qed.

Lemma lookup_path_raises w p e : OS.lookup_path w p = Raise e → e = Unmodelled.
Proof.
  unfold OS.lookup_path. destruct (OS.resolve w p) as [k|e1].
  - by destruct (OS.fs w !! k) as [[?|? ?]|].
  - destruct e1; try done. by intros [= <-].
Qed.

(** * How [main] ends *)

Lemma path_exists_raises p w e w' :
  OS.path_exists p w = (Raise e, w') → e = Unmodelled.
Proof.
  unfold OS.path_exists. destruct (OS.lookup_path w p) eqn:E; [done|].
  intros [= <- _]. by eapply lookup_path_raises.
Qed.

Lemma path_isdir_raises p w e w' :
  OS.path_isdir p w = (Raise e, w') → e = Unmodelled.
Proof.
  unfold OS.path_isdir.
  destruct (OS.lookup_path w p) as [[[]|]|] eqn:E; try done.
  intros [= <- _]. by eapply lookup_path_raises.
Qed.

Lemma hoc_ensure_base_outcome path w r w1 :
  Hoc.ensure_base path w = (r, w1) →
  (r = Ok tt ∧ OS.stdout w1 = OS.stdout w)
  ∨ (r = Raise (SystemExit 1)
     ∧ ∃ msg, OS.stdout w1 = OS.stdout w ++ [msg]
         ∧ HocMore.is_error msg = true)
  ∨ r = Raise Unmodelled
  ∨ (r = Raise (ValueErrorMsg (U "embedded null byte")) ∧ 0 ∈ path).
Proof.
  unfold Hoc.ensure_base, OS.bind.
  destruct (OS.path_exists path w) as [[[]|e] w0] eqn:E;
    pose proof (path_exists_world _ _ _ _ E) as ->; simpl.
  - destruct (OS.path_isdir path w) as [[[]|e] w0] eqn:E';
      pose proof (path_isdir_world _ _ _ _ E') as ->; simpl.
    + intros [= <- <-]. by left.
    + unfold OS.bind, OS.print, OS.sys_exit, OS.raise. intros [= <- <-].
      right; left. split; [done|]. simpl. by eexists.
    + intros [= <- <-]. right; right; left.
      by rewrite (path_isdir_raises _ _ _ _ E').
  - unfold OS.try_except_OSError.
    destruct (OS.makedirs path w) as [[[]|e] w0] eqn:E'.
    + intros [= <- <-]. left. split; [done|].
      by apply makedirs_inv in E' as (_ & -> & _).
    + pose proof (makedirs_inv _ _ _ _ E') as (_ & _ & ->).
      destruct (makedirs_raises _ _ _ _ E') as [(er & pp & ->)|[->|[-> ?]]].
      * unfold OS.bind, OS.print, OS.sys_exit, OS.raise. intros [= <- <-].
        right; left. split; [done|]. simpl. by eexists.
      * intros [= <- <-]. by right; right; left.
      * intros [= <- <-]. by right; right; right.
  - intros [= <- <-]. right; right; left.
    by rewrite (path_exists_raises _ _ _ _ E).
Qed.

Lemma hoc_read_input_outcome input_file paste w r w1 :
  Hoc.read_input input_file paste w = (r, w1) →
  (∃ s, r = Ok s ∧ w1 = w)
  ∨ (r = Raise (SystemExit 1)
     ∧ ∃ msg, OS.stdout w1 = OS.stdout w ++ [msg]
         ∧ HocMore.is_error msg = true).
Proof.
  unfold Hoc.read_input.
  destruct input_file as [s|];
    [destruct (negb (Py.truthy (Py.strip s)))
    |destruct (negb (Py.truthy (Py.strip paste)))];
    unfold OS.bind, OS.print, OS.sys_exit, OS.raise, OS.ret;
    intros [= <- <-]; eauto; right; (split; [done|]); simpl; by eexists.
Qed.

Lemma hoc_handle_outcome e w r w1 :
  HocMore.no_exit e → Hoc.handle e w = (r, w1) →
  (r = Raise (SystemExit 1)
   ∧ ∃ out msg, OS.stdout w1 = OS.stdout w ++ out ++ [msg]
       ∧ HocMore.is_error msg = true)
  ∨ r = Raise Unmodelled.
Proof.
  intros Hne.
  destruct e; try done; simpl;
    unfold OS.bind, OS.print, OS.sys_exit, OS.raise; intros [= <- <-];
    try (by right); left; (split; [done|]); simpl.
  - by exists [], (OS.ParsingError (ValueError e)).
  - by exists [], (OS.ParsingError (ValueErrorMsg msg)).
  - exists [OS.UnexpectedError IndexError], OS.CheckTheInput.
    by rewrite <-app_assoc.
  - exists [OS.UnexpectedError TypeError], OS.CheckTheInput.
    by rewrite <-app_assoc.
  - exists [OS.UnexpectedError (OSError e path)], OS.CheckTheInput.
    by rewrite <-app_assoc.
Qed.

(** X9.  [main] of [hoc] ends in one of four ways.  It returns after
    the success message, which is the last line printed.  Or it leaves
    with exit status 1 after it has printed an error message as its
    last line: every [ValueError] of the parser and every [OSError] of
    the traversal ends so, none escapes.  Or a path with a [..]
    component has left the file system model.  Or the base path holds a
    null character and is absent, and the [ValueError] of [os.makedirs]
    passes the handler of the first [try], which catches [OSError]
    only. *)
Theorem X9_hoc_main_outcomes path input_file paste dp fp w r w' :
  Hoc.main path input_file paste dp fp w = (r, w') →
  (r = Ok tt
   ∧ ∃ out, OS.stdout w' = OS.stdout w ++ out ++ [OS.StructureCreated path])
  ∨ (r = Raise (SystemExit 1)
     ∧ ∃ out msg, OS.stdout w' = OS.stdout w ++ out ++ [msg]
         ∧ HocMore.is_error msg = true)
  ∨ r = Raise Unmodelled
  ∨ (r = Raise (ValueErrorMsg (U "embedded null byte")) ∧ 0 ∈ path).
Proof.
  unfold Hoc.main. unfold OS.bind at 1.
  destruct (Hoc.ensure_base path w) as [r1 w1] eqn:E1.
  destruct (hoc_ensure_base_outcome _ _ _ _ E1)
    as [[-> Ho1]|[[-> (msg & Ho1 & Hm)]|[->|[-> ?]]]].
  2:{ intros [= <- <-]. right; left. split; [done|]. by exists [], msg. }
  2:{ intros [= <- <-]. by right; right; left. }
  2:{ intros [= <- <-]. by right; right; right. }
  unfold OS.bind at 1.
  destruct (Hoc.read_input input_file paste w1) as [r2 w2] eqn:E2.
  destruct (hoc_read_input_outcome _ _ _ _ _ E2)
    as [(s & -> & ->)|[-> (msg & Ho2 & Hm)]].
  2:{ intros [= <- <-]. right; left. split; [done|]. exists [], msg.
      by rewrite Ho2, Ho1. }
  unfold Hoc.try_main.
  destruct (Hoc.parse_tree_structure s) as [[h roots]|e] eqn:Ep.
  - unfold OS.bind.
    destruct (Hoc.create_structure_from_tree path h roots dp fp w1)
      as [[[]|e] w3] eqn:Ec;
      destruct (create_structure_from_tree_report _ _ _ _ _ _ _ _ Ec)
        as [[out Hout] Hr].
    + unfold OS.print. intros [= <- <-]. left. split; [done|].
      exists out. simpl. by rewrite Hout, Ho1, app_assoc.
    + intros Hh.
      destruct (hoc_handle_outcome _ _ _ _ (Hr _ eq_refl) Hh)
        as [[-> (out' & msg & Ho3 & Hm)]| ->]; [|by right; right; left].
      right; left. split; [done|]. exists (out ++ out'), msg.
      split; [|done]. by rewrite Ho3, Hout, Ho1, !app_assoc.
  - unfold OS.raise. intros Hh.
    destruct (parse_tree_structure_raises _ _ Ep) as [pe ->].
    destruct (hoc_handle_outcome (ValueError pe) _ _ _ I Hh)
      as [[-> (out' & msg & Ho3 & Hm)]| ->]; [|by right; right; left].
    right; left. split; [done|]. exists out', msg.
    split; [|done]. by rewrite Ho3, Ho1.
Qed.

Lemma X9_witness :
  ∃ w',
    Hoc.main (U "/tmp/x") None Examples.example1 None None
      (Examples.tmp_x_world 18) = (Ok tt, w')
    ∧ OS.stdout w' = [OS.StructureCreated (U "/tmp/x")].
Proof.
  destruct (Hoc.main (U "/tmp/x") None Examples.example1 None None
              (Examples.tmp_x_world 18)) as [r w'] eqn:E.
  exists w'.
  destruct (X9_hoc_main_outcomes _ _ _ _ _ _ _ _ E)
    as [[-> [out Ho]]|[[-> _]|[->|[-> _]]]];
    vm_compute in E; try discriminate E.
  injection E as <-. split; reflexivity.
Defined.

(** * [dircreator] *)

Lemma dict_set_head d k v k0 ty rest :
  d = (k0, ty) :: rest →
  ∃ ty' rest', DirCreator.dict_set d k v = (k0, ty') :: rest'.
Proof.
  intros ->. simpl. case_bool_decide; [subst|]; by eexists _, _.
Qed.

Lemma join_star_snoc l x : ∃ p, DirCreator.join_star (l ++ [x]) = Ok p.
Proof. destruct l; simpl; by eexists. Qed.

(** No line makes the parser raise, and the first key stays the first. *)
Lemma dc_parse_line_ok st idx line :
  ∃ st', DirCreator.parse_line st idx line = Ok st'
    ∧ ∀ k ty rest, DirCreator.tree st = (k, ty) :: rest →
        ∃ ty' rest', DirCreator.tree st' = (k, ty') :: rest'.
Proof.
  unfold DirCreator.parse_line.
  destruct (negb (Py.truthy (Py.strip line))); [by eauto 10|].
  case_bool_decide.
  - eexists. split; [done|]. simpl. intros k ty rest Ht.
    by eapply dict_set_head.
  - destruct (DirCreator.re_match_line line) as [m|]; [|by eauto 10].
    cbv zeta.
    destruct (join_star_snoc
                (take (DirCreator.depth_of m) (DirCreator.path_stack st))
                (Py.strip (DirCreator.group_name m))) as [p ->].
    simpl. eexists. split; [done|]. simpl. intros k ty rest Ht.
    by eapply dict_set_head.
Qed.

Lemma dc_parse_lines_ok lines : ∀ st idx,
  ∃ st', DirCreator.parse_lines st idx lines = Ok st'
    ∧ ∀ k ty rest, DirCreator.tree st = (k, ty) :: rest →
        ∃ ty' rest', DirCreator.tree st' = (k, ty') :: rest'.
Proof.
  induction lines as [|line lines IH]; intros st idx; simpl.
  - eexists. split; [done|]. eauto.
  - destruct (dc_parse_line_ok st idx line) as (st1 & -> & H1). simpl.
    destruct (IH st1 (S idx)) as (st2 & -> & H2).
    eexists. split; [done|]. intros k ty rest Ht.
    destruct (H1 _ _ _ Ht) as (ty1 & rest1 & Ht1). by eapply H2.
Qed.


(** X10.  The parser of [dircreator] never raises: lines that do not
    match are skipped and no depth is refused.  For a blank input it
    returns the empty dictionary; for any other input the first key of
    the dictionary is the root name, which is the first line without
    the white space around it and with the separator at its end. *)
Theorem X10_dircreator_parser_never_raises s :
  ∃ tree, DirCreator.parse_tree_structure s = Ok tree
    ∧ if Py.truthy (Py.strip s)
      then ∃ ty rest, tree = (DcMore.root_name s, ty) :: rest
      else tree = [].
Proof.
  unfold DirCreator.parse_tree_structure, DcMore.root_name. cbv zeta.
  destruct (Py.truthy (Py.strip s)) eqn:E.
  - destruct (first_line s E) as (c & l & rest & -> & Hc).
    cbn [DirCreator.parse_lines hd].
    unfold DirCreator.parse_line at 1.
    rewrite (strip_nonspace_head c l Hc). cbn [negb].
    rewrite bool_decide_true by done. cbn [mbind result_bind].
    match goal with
    | |- context [DirCreator.parse_lines ?st 1 rest] =>
        destruct (dc_parse_lines_ok rest st 1) as (st2 & -> & H2)
    end.
    eexists. split; [done|]. by eapply H2.
  - destruct (Py.strip s); [|done]. by eexists.
Qed.

Lemma dc_set_permissions_lost p ty w r w' :
  DirCreator.set_permissions p ty w = (r, w') → HocMore.nothing_lost w w'.
Proof.
  unfold DirCreator.set_permissions.
  destruct ty; [|case_bool_decide]; apply chmod_lost.
Qed.

(** X11.  Whatever the dictionary and however [create_structure] of
    [dircreator] ends, no entry of the file system is deleted and none
    changes its kind: a directory stays a directory, a file stays a
    file, with the content it had or emptied. *)
Theorem X11_dircreator_nothing_is_deleted base tree w :
  HocMore.nothing_lost w (snd (DirCreator.create_structure base tree w)).
Proof.
  destruct (DirCreator.create_structure base tree w) as [r w'] eqn:E.
  simpl. revert E. unfold DirCreator.create_structure.
  apply (for_each_rel _ nothing_lost_refl nothing_lost_trans).
  intros [path []] w0 r0 w0' _; revert w0 r0 w0'.
  - apply bind_lost; [apply makedirs_lost|].
    intros _. apply dc_set_permissions_lost.
  - apply bind_lost; [apply makedirs_lost|].
    intros _. apply bind_lost; [apply open_w_lost|].
    intros _. apply dc_set_permissions_lost.
Qed.

(** * How [main] of [dircreator] ends *)








(** * The permission options *)

Lemma nine_bits p : p ≤ OS.oct 7 7 7 → N.land p (OS.oct 7 7 7) = p.
Proof.
  intros Hp. change (OS.oct 7 7 7) with (N.ones 9) in *.
  rewrite N.land_ones. apply N.mod_small.
  change (N.ones 9) with 511 in Hp. change (2 ^ 9) with 512. lia.
Qed.

Lemma twelve_bits p : p ≤ OS.oct 7 7 7 → N.land p OS.mode_bits = p.
Proof.
  intros Hp. change OS.mode_bits with (N.ones 12).
  rewrite N.land_ones. apply N.mod_small.
  change (OS.oct 7 7 7) with 511 in Hp. change (2 ^ 12) with 4096. lia.
Qed.

(** X13.  The callback of the permission options accepts every numeral
    of three octal digits, from 000 to 777, as the mode with these
    digits.  Whatever value it accepts is at most 0o777: it holds the
    nine permission bits only, so that [os.chmod] applies it as it is
    and no option can set the set-user-id, set-group-id or sticky
    bit. *)
Theorem X13_validated_permissions :
  (∀ a b c, a < 8 → b < 8 → c < 8 →
     HocOptions.validate_permissions (Some [48 + a; 48 + b; 48 + c])
     = HocOptions.Returns (Some (OS.oct a b c)))
  ∧ (∀ value p,
       HocOptions.validate_permissions (Some value)
       = HocOptions.Returns (Some p) →
       p ≤ OS.oct 7 7 7 ∧ N.land p (OS.oct 7 7 7) = p
       ∧ N.land p OS.mode_bits = p).
Proof.
  split.
  - intros a b c Ha Hb Hc.
    unfold HocOptions.validate_permissions, HocOptions.int8.
    assert (∀ d, d < 8 → HocOptions.is_digit (48 + d) = true) as Hdig.
    { intros d Hd. unfold HocOptions.is_digit.
      rewrite !bool_decide_true by lia. done. }
    assert (∀ d, d < 8 → HocOptions.is_octal_digit (48 + d) = true) as Hoct.
    { intros d Hd. unfold HocOptions.is_octal_digit.
      rewrite !bool_decide_true by lia. done. }
    cbn [forallb]. rewrite !Hdig, !Hoct by done.
    cbn [andb negb Py.truthy fold_left].
    assert (((0 * 8 + (48 + a - 48)) * 8 + (48 + b - 48)) * 8
            + (48 + c - 48) = OS.oct a b c) as ->
      by (unfold OS.oct; lia).
    rewrite bool_decide_true; [done|]. unfold OS.oct. lia.
  - intros value p. unfold HocOptions.validate_permissions.
    destruct (HocOptions.int8 value) as [n| |]; [|done..].
    case_bool_decide as Hn; [|done]. simpl. intros [= <-].
    split_and!; [done|by apply nine_bits|by apply twelve_bits].
Qed.

Lemma X13_witness :
  HocOptions.validate_permissions (Some (U "755"))
  = HocOptions.Returns (Some (OS.oct 7 5 5)).
Proof. apply (proj1 X13_validated_permissions 7 5 5); reflexivity. Defined.

(** * A run of [main] that returns *)





(** * What a successful traversal establishes for every object

    A property of an object and a world that the visit of the object
    establishes, and that the visits of the other objects keep, holds
    at the end for every object that was visited. *)
Section collect.
Context (h : list Hoc.TreeNode) (base : Py.str) (dp fp : option N).
Context (Q : OS.world → nat → Prop).
Hypothesis Q_dir : ∀ a n w w', h !! a = Some n → dirlike n = true →
  (OS.makedirs (PosixPath.join base [Hoc.full_path n]) ;;
   Hoc.apply_permissions (PosixPath.join base [Hoc.full_path n]) dp) w
  = (Ok tt, w') →
  Q w' a ∧ ∀ b, Q w b → Q w' b.
Hypothesis Q_file : ∀ a n w w', h !! a = Some n → dirlike n = false →
  (OS.makedirs (PosixPath.dirname (PosixPath.join base [Hoc.full_path n])) ;;
   OS.open_w (PosixPath.join base [Hoc.full_path n]) ;;
   Hoc.apply_permissions (PosixPath.join base [Hoc.full_path n]) fp) w
  = (Ok tt, w') →
  Q w' a ∧ ∀ b, Q w b → Q w' b.



End collect.

(** * A second traversal *)




















(** * Blank lines *)

Lemma parse_lines_filter lines : ∀ st,
  Hoc.parse_lines st (List.filter HocMore.nonblank lines)
  = Hoc.parse_lines st lines.
Proof.
  induction lines as [|line lines IH]; intros st; simpl; [done|].
  destruct (HocMore.nonblank line) eqn:Hb; simpl.
  - destruct (Hoc.parse_line st line); simpl; [apply IH|done].
  - rewrite parse_line_blank by done. simpl. apply IH.
Qed.

(** X16.  Blank lines carry no meaning: two inputs that are not blank
    and have the same non-blank lines (after tab replacement), in the
    same order, get the same result from the parser, be it the tree or
    the error. *)
Theorem X16_blank_lines_do_not_matter s1 s2 :
  Py.truthy (Py.strip s1) = true → Py.truthy (Py.strip s2) = true →
  List.filter HocMore.nonblank (HocMore.input_lines s1)
  = List.filter HocMore.nonblank (HocMore.input_lines s2) →
  Hoc.parse_tree_structure s1 = Hoc.parse_tree_structure s2.
Proof.
  intros H1 H2 Heq. rewrite !parse_tree_structure_lines by done.
  rewrite <-(parse_lines_filter (HocMore.input_lines s1)).
  rewrite <-(parse_lines_filter (HocMore.input_lines s2)).
  by rewrite Heq.
Qed.

Lemma X16_witness :
  Hoc.parse_tree_structure
    (U "root/" ++ [Py.NL; Py.NL] ++ U "├── a/" ++ [Py.NL] ++ U "   "
     ++ [Py.NL] ++ U "│   └── b.txt" ++ [Py.NL] ++ U "└── c.txt")
  = Hoc.parse_tree_structure Examples.example1.
Proof.
  apply X16_blank_lines_do_not_matter; vm_compute; reflexivity.
Defined.

(** * The last component of a path *)

Lemma take_to_sep_no_sep r : Py.SLASH ∉ PosixPath.take_to_sep r.
Proof.
  induction r as [|c r IH]; simpl; [apply not_elem_of_nil|].
  case_bool_decide; [apply not_elem_of_nil|].
  by apply not_elem_of_cons.
Qed.

Lemma basename_no_sep p : Py.SLASH ∉ PosixPath.basename p.
Proof.
  unfold PosixPath.basename. intros H.
  apply list_elem_of_In, in_rev, list_elem_of_In in H.
  by apply take_to_sep_no_sep in H.
Qed.

Lemma split_no_sep_id sep s : sep ∉ s → Py.split sep s = [s].
Proof.
  induction s as [|c s IH]; [done|]. intros [Hc Hs]%not_elem_of_cons.
  simpl. rewrite bool_decide_false by done. by rewrite IH.
Qed.

Lemma last_split_basename p :
  last (Py.split Py.SLASH p) = Some (PosixPath.basename p).
Proof.
  pose proof (head_basename p) as Hp.
  pose proof (split_no_sep_id _ _ (basename_no_sep p)) as Hb.
  destruct (head_of_cases p) as [E|[h' E]]; rewrite E in Hp.
  - simpl in Hp. rewrite <-Hp in Hb. by rewrite Hb, <-Hp.
  - rewrite Hp at 1. rewrite <-app_assoc. cbn [app].
    by rewrite split_app_sep, Hb, last_snoc.
Qed.

Lemma names_dir_false_last p :
  OS.names_dir p = false →
  ∃ l, OS.components p = l ++ [PosixPath.basename p].
Proof.
  unfold OS.names_dir, OS.components.
  pose proof (last_split_basename p) as Hl. rewrite Hl.
  intros Hb%bool_decide_eq_false.
  apply last_Some in Hl as [l' ->].
  rewrite filter_app. eexists. f_equal.
  rewrite filter_cons, decide_True; [done|]. tauto.
Qed.

Lemma resolve_last w p k :
  OS.resolve w p = Ok k → OS.names_dir p = false →
  last k = Some (PosixPath.basename p).
Proof.
  intros [_ ->]%resolve_Ok [l ->]%names_dir_false_last.
  by rewrite app_assoc, last_snoc.
Qed.

Lemma file_mode_by_key w p q k :
  OS.resolve w p = Ok k → OS.names_dir p = false →
  OS.resolve w q = Ok k → OS.names_dir q = false →
  DcMore.file_mode p = DcMore.file_mode q.
Proof.
  intros Hp Hnp Hq Hnq.
  pose proof (resolve_last _ _ _ Hp Hnp) as H1.
  pose proof (resolve_last _ _ _ Hq Hnq) as H2.
  unfold DcMore.file_mode, PosixPath.splitext_ext.
  assert (PosixPath.basename p = PosixPath.basename q) as -> by congruence.
  done.
Qed.

Lemma dc_set_permissions_file p w :
  DirCreator.set_permissions p DirCreator.TypeFile w
  = OS.chmod p (DcMore.file_mode p) w.
Proof.
  unfold DirCreator.set_permissions, DcMore.file_mode.
  by case_bool_decide.
Qed.

Lemma file_mode_bits p :
  N.land (DcMore.file_mode p) OS.mode_bits = DcMore.file_mode p.
Proof. unfold DcMore.file_mode. by case_bool_decide. Qed.

(** * What [create_structure] of [dircreator] leaves on disk *)

(** One step of the loop puts its item on disk and keeps the others. *)
Lemma dc_item_step base path ty w w' :
  (let full_path := PosixPath.join base [path] in
   match ty with
   | DirCreator.TypeDir =>
       OS.makedirs full_path ;;
       DirCreator.set_permissions full_path DirCreator.TypeDir
   | DirCreator.TypeFile =>
       OS.makedirs (PosixPath.dirname full_path) ;;
       OS.open_w full_path ;;
       DirCreator.set_permissions full_path DirCreator.TypeFile
   end) w = (Ok tt, w') →
  DcMore.item_on_disk base w' (path, ty)
  ∧ ∀ it, DcMore.item_on_disk base w it → DcMore.item_on_disk base w' it.
Proof.
  cbv zeta. set (p := PosixPath.join base [path]).
  destruct ty; unfold OS.bind.
  - destruct (OS.makedirs p w) as [[[]|e1] w1] eqn:E1; [|done].
    apply makedirs_inv in E1 as ([Hc1 _] & _ & k & Hk & [md Hd] & Hkeep & _).
    simpl. intros E2.
    apply chmod_inv in E2 as ([Hc2 _] & _ & k2 & Hk2 & H2).
    rewrite (resolve_cwd w) in Hk2 by done.
    assert (k2 = k) as -> by congruence.
    destruct H2 as [(md' & _ & Hfs)|(md' & c & Hf & _)]; [|congruence].
    assert (Hres : ∀ q, OS.resolve w' q = OS.resolve w q).
    { intros q. apply resolve_cwd. congruence. }
    split.
    + exists k, (OS.Dir (OS.oct 7 5 5)). unfold p in *. simpl.
      rewrite Hres, Hfs, lookup_insert_eq. done.
    + intros [q ty] (k' & e' & Hk' & He' & Hok). simpl in *.
      apply Hkeep in He'.
      destruct (decide (k' = k)) as [->|Hne].
      * assert (e' = OS.Dir md) as -> by congruence.
        destruct ty; [|by destruct Hok].
        exists k, (OS.Dir (OS.oct 7 5 5)). simpl.
        rewrite Hres, Hfs, lookup_insert_eq. done.
      * exists k', e'. simpl.
        rewrite Hres, Hfs, lookup_insert_ne by done. done.
  - destruct (OS.makedirs _ w) as [[[]|e1] w1] eqn:E1; [|done].
    apply makedirs_inv in E1 as ([Hc1 _] & _ & _ & _ & _ & Hkeep & _).
    destruct (OS.open_w p w1) as [[[]|e2] w2] eqn:E2; [|done].
    apply open_w_inv in E2
      as ([Hc2 _] & _ & k & md & Hk & Hnd & Hfs2 & Hold).
    rewrite dc_set_permissions_file. intros E3.
    apply chmod_inv in E3 as ([Hc3 _] & _ & k3 & Hk3 & H3).
    rewrite (resolve_cwd w1) in Hk3 by done.
    assert (k3 = k) as -> by congruence.
    assert (Hf2 : OS.fs w2 !! k = Some (OS.File md []))
      by (by rewrite Hfs2, lookup_insert_eq).
    destruct H3 as [(md' & Hd & _)|(md' & c & Hf & _ & Hfs3)]; [congruence|].
    assert (c = []) as -> by congruence.
    rewrite file_mode_bits in Hfs3.
    assert (Hres : ∀ q, OS.resolve w' q = OS.resolve w q).
    { intros q. apply resolve_cwd. congruence. }
    assert (Hkw : OS.resolve w p = Ok k) by (by rewrite <-(resolve_cwd w w1)).
    split.
    + exists k, (OS.File (DcMore.file_mode p) []). unfold p in *. simpl.
      rewrite Hres, Hfs3, lookup_insert_eq. done.
    + intros [q ty] (k' & e' & Hk' & He' & Hok). simpl in *.
      apply Hkeep in He'.
      destruct (decide (k' = k)) as [->|Hne].
      * destruct Hold as [[c0 Hold]|[Hold _]]; [|congruence].
        assert (e' = OS.File md c0) as -> by congruence.
        destruct ty; [done|]. destruct Hok as [Hnq _].
        exists k, (OS.File (DcMore.file_mode p) []). simpl.
        rewrite Hres, Hfs3, lookup_insert_eq.
        split_and!; [done..|].
        f_equal. by apply (file_mode_by_key w p _ k).
      * exists k', e'. simpl.
        rewrite Hres, Hfs3, lookup_insert_ne, Hfs2, lookup_insert_ne by done.
        done.
Qed.

(** X17.  When [create_structure] of [dircreator] succeeds, every item
    of the dictionary is on disk under the base path: a directory of
    mode 755 for an item of type dir, and for an item of type file an
    empty file whose mode is 755 when its extension is [.py] and 644
    otherwise. *)
Theorem X17_dircreator_items_on_disk base tree w w' :
  DirCreator.create_structure base tree w = (Ok tt, w') →
  ∀ item, item ∈ tree → DcMore.item_on_disk base w' item.
Proof.
  unfold DirCreator.create_structure.
  assert (∀ (P : Py.str * DirCreator.item_type → Prop) w,
    OS.for_each tree (λ '(path, info),
      let full_path := PosixPath.join base [path] in
      match info with
      | DirCreator.TypeDir =>
          OS.makedirs full_path ;;
          DirCreator.set_permissions full_path DirCreator.TypeDir
      | DirCreator.TypeFile =>
          let dir_path := PosixPath.dirname full_path in
          OS.makedirs dir_path ;;
          OS.open_w full_path ;;
          DirCreator.set_permissions full_path DirCreator.TypeFile
      end) w = (Ok tt, w') →
    (∀ it, P it → DcMore.item_on_disk base w it) →
    ∀ it, P it ∨ it ∈ tree → DcMore.item_on_disk base w' it) as Hgen.
  { clear w. induction tree as [|[path ty] tree IH]; intros P w; simpl.
    - intros [= <-] HP it [?|?%elem_of_nil]; [eauto|done].
    - unfold OS.bind at 1.
      match goal with
      | |- context [match ?body w with _ => _ end] =>
          destruct (body w) as [[[]|e] w1] eqn:E; [|done]
      end.
      intros Hrest HP it Hit.
      apply dc_item_step in E as [Hown Hkeep].
      apply (IH (λ it, P it ∨ it = (path, ty)) w1 Hrest).
      + intros it' [?| ->]; [by apply Hkeep, HP|done].
      + destruct Hit as [?|[->|?]%elem_of_cons]; eauto. }
  intros H item Hitem. apply (Hgen (λ _, False) w H); [done|by right].
Qed.

Lemma X17_witness :
  ∃ w',
    DirCreator.create_structure (U "/tmp/x")
      [(U "root/", DirCreator.TypeDir); (U "root/run.py", DirCreator.TypeFile)]
      (Examples.tmp_x_world 18) = (Ok tt, w')
    ∧ DcMore.item_on_disk (U "/tmp/x") w'
        (U "root/run.py", DirCreator.TypeFile).
Proof.
  destruct (DirCreator.create_structure (U "/tmp/x")
              [(U "root/", DirCreator.TypeDir);
               (U "root/run.py", DirCreator.TypeFile)]
              (Examples.tmp_x_world 18)) as [r w'] eqn:E.
  assert (r = Ok tt) as -> by (vm_compute in E; by injection E as <- _).
  exists w'. split; [done|].
  apply (X17_dircreator_items_on_disk _ _ _ _ E).
  apply list_elem_of_further, list_elem_of_here.
Defined.

(** * [create_structure] of [dircreator] below the base path *)






(** * A whole run and the base path *)












